(** * Lazyload: deferred media loading and callback execution

    A shallow embedding of [src/lazyload.js] and [src/utils.js].

    The [Lazyload] class keeps two private fields, [#observer] and
    [#options], and drives two platform facilities: the DOM (attributes,
    the [dataset] view of [data-*] attributes, selector queries) and
    [IntersectionObserver].  Both the object and the platform are mutable,
    and an exception leaves every earlier mutation in place, so the code is
    embedded in a state monad whose computations end in a completion
    (normal or abrupt) and always return the state they reached.

    A JavaScript number is a finite value, NaN or one of the infinities;
    the finite ones are modelled by the rationals they denote.  Objects
    are plain records of data properties.  Number-to-string conversion of
    finite numbers, the selector engine, the validation of attribute names
    and the validation done by the [IntersectionObserver] constructor
    belong to the platform and are parameters of the development.  The
    functions a caller hands to [execute] are caller code: their bodies are
    a second parameter, straight-line code that may call [media] and
    [execute] again, change elements and throw. *)

From Stdlib Require Import QArith.
From Stdlib Require Import Ascii String.
From stdpp Require Import gmap strings list fin_maps pretty.

Set Warnings "-register-all".
Local Open Scope string_scope.
Local Open Scope list_scope.

(** ** Values *)

(** Element and function objects are references; each is named by a
    number. *)
Abbreviation Elem := nat (only parsing).
Abbreviation Fn := nat (only parsing).
Abbreviation ObserverRef := nat (only parsing).

(** Numbers.  A rational stands for the finite number it denotes; both
    zeros are the rational 0. *)
Inductive Number : Type :=
| Finite (q : Q)
| NaN
| Infinity
| NegInfinity.
Bind Scope Q_scope with Number.
Coercion Finite : Q >-> Number.

(** [a < b] and [a <= b] on numbers: a comparison with NaN is false. *)
Definition Number_ltb (a b : Number) : bool :=
  match a, b with
  | NaN, _ | _, NaN => false
  | Finite x, Finite y => negb (Qle_bool y x)
  | _, NegInfinity => false
  | NegInfinity, _ => true
  | Infinity, _ => false
  | Finite _, Infinity => true
  end.


Inductive JSValue : Type :=
| VUndefined
| VNull
| VBoolean (b : bool)
| VNumber (n : Number)
| VString (s : string)
| VArray (items : list JSValue)
| VElement (e : Elem)
| VFunction (f : Fn)
| VObject (properties : list (string * JSValue)).

(** [typeof v === 'number'], ['string'], ['function'] and [v === null].
    NaN and the infinities are of type number. *)
Definition is_number (v : JSValue) : bool :=
  match v with VNumber _ => true | _ => false end.
Definition is_string (v : JSValue) : bool :=
  match v with VString _ => true | _ => false end.
Definition is_function (v : JSValue) : bool :=
  match v with VFunction _ => true | _ => false end.
Definition is_null (v : JSValue) : bool :=
  match v with VNull => true | _ => false end.
Definition is_undefined (v : JSValue) : bool :=
  match v with VUndefined => true | _ => false end.

(** A destructuring default [{x = d}] replaces [undefined], and nothing
    else, by [d]. *)
Definition or_default (d v : JSValue) : JSValue :=
  match v with VUndefined => d | _ => v end.

(** [v < n] and [v > n] once [v] is known to be a number. *)
Definition lt_number (v : JSValue) (n : Number) : bool :=
  match v with VNumber x => Number_ltb x n | _ => false end.
Definition gt_number (v : JSValue) (n : Number) : bool :=
  match v with VNumber x => Number_ltb n x | _ => false end.

(** [v !== null] and [v !== 0]. *)
Definition strict_ne_null (v : JSValue) : bool := negb (is_null v).
Definition strict_ne_zero (v : JSValue) : bool :=
  match v with VNumber (Finite x) => negb (Qeq_bool x 0) | _ => true end.

(** The own data property [name] of a plain object, the first entry of
    that name; [undefined] when there is none.  The objects a caller
    passes are object literals; a value that is no plain object is taken
    to have no property of a name the code reads. *)
Fixpoint lookup_property (name : string) (properties : list (string * JSValue))
  : JSValue :=
  match properties with
  | [] => VUndefined
  | (key, v) :: rest =>
      if String.eqb key name then v else lookup_property name rest
  end.

Definition property (name : string) (object : JSValue) : JSValue :=
  match object with
  | VObject properties => lookup_property name properties
  | _ => VUndefined
  end.

(** ** Thrown values

    One constructor per [throw new Error(...)] of [lazyload.js], in source
    order, then the platform exceptions the code can provoke and what the
    caller's own code throws. *)
Inductive Thrown : Type :=
| RootError            (* #config, root *)
| LoadBeforeError      (* #config, loadBefore *)
| LoadAfterError       (* #config, loadAfter *)
| WrapperError         (* media, wrapper *)
| SrcTargetError       (* media, srcTarget *)
| AttrError            (* media, attr *)
| ImagePathError       (* media, lazyUrls[i] *)
| LazyUrlError         (* #renderMedia, dataset.lazyUrl missing *)
| ViewportEntryError   (* execute, viewportEntry *)
| ExeFnError           (* execute, exeFn *)
| TypeError            (* platform: property access on undefined or null *)
| SyntaxError          (* platform: unparsable selector or margin *)
| RangeError           (* platform: threshold out of range *)
| InvalidCharacterError (* platform: attribute name refused *)
| CallerError.         (* thrown by the caller's code *)

(** The error taxonomy of the specification (section 7).  The platform
    exceptions and the caller's have no place in it. *)
Inductive ErrorKind : Type :=
| InvalidConfig
| InvalidArgument
| MissingResourceLocator.

Definition classify (t : Thrown) : option ErrorKind :=
  match t with
  | RootError | LoadBeforeError | LoadAfterError => Some InvalidConfig
  | WrapperError | SrcTargetError | AttrError | ImagePathError
  | ViewportEntryError | ExeFnError => Some InvalidArgument
  | LazyUrlError => Some MissingResourceLocator
  | TypeError | SyntaxError | RangeError | InvalidCharacterError
  | CallerError => None
  end.

(** ** Records of the interface *)

(** The argument of [#config], which the class calls with an object
    literal of three properties or with nothing.  A property that is not
    there reads as [VUndefined]. *)
Module Options.
Record t : Type := mk { root : JSValue; loadBefore : JSValue; loadAfter : JSValue }.
End Options.

(** The observer options object built by [#config]. *)
Module Init.
Record t : Type := mk { root : JSValue; rootMargin : string; threshold : JSValue }.
End Init.

(** The properties of the argument object of [media] and of [execute], as
    the parameter pattern reads them: a property that is not there is
    [VUndefined].  [options] is any value, [null] included. *)
Module MediaArgs.
Record t : Type := mk {
  wrapper : JSValue;
  srcTarget : JSValue;
  attr : JSValue;
  lazyUrls : JSValue;
  options : JSValue
}.
End MediaArgs.

Module ExecuteArgs.
Record t : Type := mk {
  viewportEntry : JSValue;
  exeFn : JSValue;
  options : JSValue
}.
End ExecuteArgs.

(** An [IntersectionObserverEntry], as far as the handlers read it. *)
Module Entry.
Record t : Type := mk { isIntersecting : bool; target : Elem }.
End Entry.

(** ** The DOM *)

(** An element carries its tag name, its content attributes, by the name
    under which they are stored, and the value of an own property [src],
    which it gets when [src] is assigned on an element whose interface has
    no such attribute. *)
Module Element.
Record t : Type := mk {
  tagName : string;
  attributes : gmap string string;
  src : option string
}.
Definition blank : t := mk "" ∅ None.
End Element.

(** The element with a content attribute written, and removed. *)
Definition with_attribute (key value : string) (el : Element.t) : Element.t :=
  Element.mk (Element.tagName el)
             (<[key := value]> (Element.attributes el)) (Element.src el).
Definition without_attribute (key : string) (el : Element.t) : Element.t :=
  Element.mk (Element.tagName el)
             (delete key (Element.attributes el)) (Element.src el).
Definition getAttribute (name : string) (el : Element.t) : option string :=
  Element.attributes el !! name.
Definition with_own_src (value : string) (el : Element.t) : Element.t :=
  Element.mk (Element.tagName el) (Element.attributes el) (Some value).

(** [dataset.lazyUrl] is the attribute [data-lazy-url]: reading it gives
    the attribute or [undefined], assigning to it writes the attribute. *)
Definition lazy_url_attribute : string := "data-lazy-url".
Definition dataset_lazyUrl (el : Element.t) : option string :=
  getAttribute lazy_url_attribute el.
Definition set_dataset_lazyUrl (value : string) (el : Element.t) : Element.t :=
  with_attribute lazy_url_attribute value el.

(** [x || null] for what [dataset.lazyUrl] gives, [undefined] or a
    string: the empty string is falsy. *)
Definition or_null (x : option string) : option string :=
  match x with
  | Some (String _ _ as path) => Some path
  | _ => None
  end.

(** ** Observers *)

(** The two closures the class hands to [IntersectionObserver]: the result
    of [#renderMedia(attr)] and of [#handleFunctionExecution(exeFn)]. *)
Inductive Callback : Type :=
| RenderMedia (attr : JSValue)
| HandleFunctionExecution (exeFn : Fn).

Module Observer.
Record t : Type := mk {
  callback : Callback;
  init : option Init.t;
  targets : list Elem
}.
End Observer.

(** ** State *)

Record State : Type := mkState {
  this_observer : option ObserverRef;     (* #observer *)
  this_options : option Init.t;           (* #options *)
  document : gmap Elem Element.t;         (* the elements, by reference *)
  observers : list Observer.t;            (* every observer ever created *)
  calls : list Fn                         (* functions invoked, oldest first *)
}.

(** Both private fields start as [null]. *)
Definition fresh (dom : gmap Elem Element.t) : State :=
  mkState None None dom [] [].

Definition element (s : State) (e : Elem) : Element.t :=
  default Element.blank (document s !! e).

Definition targets_of (s : State) (o : ObserverRef) : list Elem :=
  from_option Observer.targets [] (observers s !! o).

(** ** The monad *)

Inductive Completion (A : Type) : Type :=
| Normal (a : A)
| Abrupt (t : Thrown).
Arguments Normal {A} a.
Arguments Abrupt {A} t.

Definition JS (A : Type) : Type := State -> State * Completion A.

Definition ret {A} (a : A) : JS A := fun s => (s, Normal a).
Definition throw {A} (t : Thrown) : JS A := fun s => (s, Abrupt t).
Definition bind {A B} (m : JS A) (k : A -> JS B) : JS B :=
  fun s =>
    match m s with
    | (s', Normal a) => k a s'
    | (s', Abrupt t) => (s', Abrupt t)
    end.

Declare Scope js_scope.
Delimit Scope js_scope with js.
Notation "x <- m ;; k" := (bind m (fun x => k))
  (at level 20, m at level 99, k at level 200, only parsing) : js_scope.
Notation "m ;; k" := (bind m (fun _ => k))
  (at level 100, k at level 200, right associativity, only parsing) : js_scope.
Local Open Scope js_scope.

Definition when (b : bool) (m : JS unit) : JS unit :=
  if b then m else ret tt.

Definition modify (f : State -> State) : JS unit := fun s => (f s, Normal tt).
Definition gets {A} (f : State -> A) : JS A := fun s => (s, Normal (f s)).

(** [Array.prototype.forEach] and [NodeList.prototype.forEach]: the
    function is applied to the items in order; an exception ends the
    iteration. *)
Fixpoint forEach {A} (f : A -> JS unit) (l : list A) : JS unit :=
  match l with
  | [] => ret tt
  | x :: l' => f x ;; forEach f l'
  end.

(** The state a computation reaches and how it completes. *)
Definition state_after {A} (m : JS A) (s : State) : State := fst (m s).
Definition completion {A} (m : JS A) (s : State) : Completion A := snd (m s).

Definition fails_with {A} (k : ErrorKind) (c : Completion A) : Prop :=
  exists t, c = Abrupt t /\ classify t = Some k.

(** [object.name]: reading a property of [null] or [undefined] is a
    TypeError. *)
Definition get (name : string) (object : JSValue) : JS JSValue :=
  match object with
  | VNull | VUndefined => throw TypeError
  | _ => ret (property name object)
  end.

(** ** State updates of the platform *)

Definition update_element (e : Elem) (f : Element.t -> Element.t) : JS unit :=
  modify (fun s =>
    mkState (this_observer s) (this_options s)
            (<[e := f (element s e)]> (document s))
            (observers s) (calls s)).

Definition update_observer (o : ObserverRef) (f : list Elem -> list Elem) : JS unit :=
  modify (fun s =>
    mkState (this_observer s) (this_options s) (document s)
            (alter (fun ob => Observer.mk (Observer.callback ob) (Observer.init ob)
                                          (f (Observer.targets ob))) o (observers s))
            (calls s)).

(** [observer.observe(e)]: a target already observed is not added again. *)
Definition observe (o : ObserverRef) (e : Elem) : JS unit :=
  update_observer o (fun ts => if bool_decide (e ∈ ts) then ts else ts ++ [e]).

(** [observer.unobserve(e)]. *)
Definition unobserve (o : ObserverRef) (e : Elem) : JS unit :=
  update_observer o (filter (fun x => x ≠ e)).

(** [element.removeAttribute(name)] for a name in lower case; it never
    throws. *)
Definition removeAttribute (e : Elem) (name : string) : JS unit :=
  update_element e (without_attribute name).

Definition set_this_observer (o : ObserverRef) : JS unit :=
  modify (fun s =>
    mkState (Some o) (this_options s) (document s) (observers s) (calls s)).

Definition set_this_options (i : Init.t) : JS unit :=
  modify (fun s =>
    mkState (this_observer s) (Some i) (document s) (observers s) (calls s)).

(** The record that a function was invoked. *)
Definition log_call (f : Fn) : JS unit :=
  modify (fun s =>
    mkState (this_observer s) (this_options s) (document s) (observers s)
            (calls s ++ [f])).

(** ** utils.js *)

(** [validDOMElement(element)]: truthy, an instance of [Element], of node
    type 1.  In the model these are the [VElement] values. *)
Definition validDOMElement (element : JSValue) : bool :=
  match element with VElement _ => true | _ => false end.

(** ** The platform

    [NumberToString] is the conversion a template literal applies to a
    finite number.  [valid_selector] tells whether the selector engine can
    parse a string, and [select dom scope sel] lists, in document order,
    the elements matching [sel] under [scope] ([None] is the document
    itself).  [attribute_name] is the name under which [setAttribute]
    stores an attribute (an HTML document folds it to lower case), or
    [None] when it refuses the name with an InvalidCharacterError.
    [reflects_src] tells whether the interface of an element has a [src]
    attribute reflecting the content attribute, as images have.
    [observer_init] is the exception with which the [IntersectionObserver]
    constructor refuses an options object, if it does; it is no error of
    the taxonomy. *)
Class Platform : Type := {
  NumberToString : Q -> string;
  valid_selector : string -> bool;
  select : gmap Elem Element.t -> option Elem -> string -> list Elem;
  (* a node list holds an element once *)
  select_NoDup : forall dom scope sel, NoDup (select dom scope sel);
  attribute_name : string -> option string;
  reflects_src : Element.t -> bool;
  observer_init : Init.t -> option Thrown;
  observer_init_platform : forall i t, observer_init i = Some t -> classify t = None
}.

(** The conversion of any number to a string. *)
Definition ToString `{Platform} (n : Number) : string :=
  match n with
  | Finite q => NumberToString q
  | NaN => "NaN"
  | Infinity => "Infinity"
  | NegInfinity => "-Infinity"
  end.

(** The element after [element.src = value]. *)
Definition with_src `{Platform} (value : string) (el : Element.t) : Element.t :=
  if reflects_src el then with_attribute "src" value el else with_own_src value el.

(** ** The caller's code

    A statement of a function the caller passes as [exeFn], or of the
    caller's top-level code: a call of [media] or [execute] on the object
    with some argument, a change to an element, a [throw].  An exception
    ends the function. *)
Inductive Statement : Type :=
| Media (argument : JSValue)
| Execute (argument : JSValue)
| Change (e : Elem) (f : Element.t -> Element.t)
| Raise (t : Thrown).

Class Program : Type := { body : Fn -> list Statement }.

(** ** Parameters and their defaults *)

(** The default of the [options] parameter of [media] and [execute]. *)
Definition default_options : JSValue :=
  VObject [("root", VNull); ("loadBefore", VNumber 0); ("loadAfter", VNumber 0)].

(** The parameters of [media] and [execute] as the body sees them, after
    the destructuring defaults. *)
Definition wrapper_of (a : MediaArgs.t) : JSValue :=
  or_default VNull (MediaArgs.wrapper a).
Definition srcTarget_of (a : MediaArgs.t) : JSValue :=
  or_default VNull (MediaArgs.srcTarget a).
Definition attr_of (a : MediaArgs.t) : JSValue :=
  or_default VNull (MediaArgs.attr a).
Definition lazyUrls_of (a : MediaArgs.t) : JSValue :=
  or_default (VArray []) (MediaArgs.lazyUrls a).
Definition options_of (a : MediaArgs.t) : JSValue :=
  or_default default_options (MediaArgs.options a).

Definition viewportEntry_of (a : ExecuteArgs.t) : JSValue :=
  or_default VNull (ExecuteArgs.viewportEntry a).
Definition exeFn_of (a : ExecuteArgs.t) : JSValue :=
  or_default VNull (ExecuteArgs.exeFn a).
Definition execute_options_of (a : ExecuteArgs.t) : JSValue :=
  or_default default_options (ExecuteArgs.options a).

(** The binding of the parameter pattern [{...} = {}] to the argument of
    a call: [undefined] is replaced by the empty object, [null] cannot be
    destructured, and of any other value the properties are read. *)
Definition media_parameters (argument : JSValue) : JS MediaArgs.t :=
  match or_default (VObject []) argument with
  | VNull => throw TypeError
  | object =>
      ret (MediaArgs.mk (property "wrapper" object) (property "srcTarget" object)
                        (property "attr" object) (property "lazyUrls" object)
                        (property "options" object))
  end.

Definition execute_parameters (argument : JSValue) : JS ExecuteArgs.t :=
  match or_default (VObject []) argument with
  | VNull => throw TypeError
  | object =>
      ret (ExecuteArgs.mk (property "viewportEntry" object) (property "exeFn" object)
                          (property "options" object))
  end.

(** The three properties the reconfiguration step reads off [options]. *)
Definition read_options (options : JSValue) : Options.t :=
  Options.mk (property "root" options) (property "loadBefore" options)
             (property "loadAfter" options).

(** [options.root !== null || options.loadBefore !== 0 ||
    options.loadAfter !== 0], the properties being read already. *)
Definition differs_from_defaults (o : Options.t) : bool :=
  strict_ne_null (Options.root o)
  || strict_ne_zero (Options.loadBefore o)
  || strict_ne_zero (Options.loadAfter o).

(** The selector string a query receives: [srcTarget] is [null] or a
    string by then, and [null] is converted to the string null. *)
Definition selector_text (srcTarget : JSValue) : string :=
  match srcTarget with VString sel => sel | _ => "null" end.

(** The element a checked [wrapper] denotes; [null] is falsy. *)
Definition scope_of (wrapper : JSValue) : option Elem :=
  match wrapper with VElement w => Some w | _ => None end.

Section Lazyload.

Context {platform : Platform} {program : Program}.

(** [new IntersectionObserver(callback, this.#options)]: the constructor
    validates the options; the new observer has no target, and its
    reference is the next free one.  Options that are [null] stand for the
    platform's defaults. *)
Definition new_IntersectionObserver (cb : Callback) : JS ObserverRef :=
  fun s =>
    match this_options s ≫= observer_init with
    | Some t => (s, Abrupt t)
    | None =>
        (mkState (this_observer s) (this_options s) (document s)
                 (observers s ++ [Observer.mk cb (this_options s) []]) (calls s),
         Normal (length (observers s)))
    end.

(** [scope.querySelectorAll(sel)] throws on a selector that does not
    parse. *)
Definition querySelectorAll (scope : option Elem) (sel : string) : JS (list Elem) :=
  if valid_selector sel
  then gets (fun s => select (document s) scope sel)
  else throw SyntaxError.

(** [document.querySelector(sel)]: the first match, or [null]. *)
Definition querySelector (sel : string) : JS (option Elem) :=
  l <- querySelectorAll None sel ;; ret (head l).

(** [element.setAttribute(name, value)]. *)
Definition setAttribute (e : Elem) (name value : string) : JS unit :=
  match attribute_name name with
  | Some key => update_element e (with_attribute key value)
  | None => throw InvalidCharacterError
  end.

(** [element.src = value]. *)
Definition set_src (e : Elem) (value : string) : JS unit :=
  update_element e (with_src value).

(** [validCSSSelector(selector)]: whether [document.querySelector] finds
    an element. *)
Definition validCSSSelector (selector : string) : JS bool :=
  checkSelector <- querySelector selector ;;
  ret (match checkSelector with Some _ => true | None => false end).

(** *** lazyload.js *)

(** [#config({root = null, loadBefore = 0, loadAfter = 0} = {})]. *)
Definition config (o : Options.t) : JS unit :=
  let root := or_default VNull (Options.root o) in
  let loadBefore := or_default (VNumber 0) (Options.loadBefore o) in
  let loadAfter := or_default (VNumber 0) (Options.loadAfter o) in
  let isValidDOM := if strict_ne_null root then validDOMElement root else true in
  if negb isValidDOM then throw RootError
  else if is_null loadBefore || is_undefined loadBefore
          || negb (is_number loadBefore) || lt_number loadBefore 0
  then throw LoadBeforeError
  else if is_null loadAfter || is_undefined loadAfter
          || negb (is_number loadAfter) || lt_number loadAfter 0
          || gt_number loadAfter 1
  then throw LoadAfterError
  else
    match loadBefore with
    | VNumber margin =>
        set_this_options (Init.mk root (ToString margin +:+ "px") loadAfter)
    | _ => ret tt   (* not reached: loadBefore is a number here *)
    end.

(** [constructor() { this.#config(); }] *)
Definition constructor : JS unit :=
  config (Options.mk VUndefined VUndefined VUndefined).

(** [options.root !== null || options.loadBefore !== 0 ||
    options.loadAfter !== 0], read from left to right as far as needed. *)
Definition options_differ (options : JSValue) : JS bool :=
  root <- get "root" options ;;
  if strict_ne_null root then ret true
  else
    loadBefore <- get "loadBefore" options ;;
    if strict_ne_zero loadBefore then ret true
    else
      loadAfter <- get "loadAfter" options ;;
      ret (strict_ne_zero loadAfter).

(** The reconfiguration step shared by [media] and [execute]:
    [if (options.root !== null || ...) { this.#config({root: options.root,
    loadBefore: options.loadBefore, loadAfter: options.loadAfter}); }] *)
Definition reconfigure (options : JSValue) : JS unit :=
  differ <- options_differ options ;;
  when differ
    (root <- get "root" options ;;
     loadBefore <- get "loadBefore" options ;;
     loadAfter <- get "loadAfter" options ;;
     config (Options.mk root loadBefore loadAfter)).

(** The loop of [media] over [lazyUrls], from index [i] on. *)
Fixpoint assign_lazyUrls (imgElements : list Elem) (lazyUrls : list JSValue)
         (i : nat) : JS unit :=
  match lazyUrls with
  | [] => ret tt
  | url :: rest =>
      match url with
      | VString path =>
          match imgElements !! i with
          | Some el =>
              update_element el (set_dataset_lazyUrl path) ;;
              assign_lazyUrls imgElements rest (S i)
          | None => throw TypeError   (* imgElements[i] is undefined *)
          end
      | _ => throw ImagePathError
      end
  end.

(** [media] on an argument object with the properties [a]. *)
Definition media (a : MediaArgs.t) : JS unit :=
  let wrapper := wrapper_of a in
  let srcTarget := srcTarget_of a in
  let attr := attr_of a in
  let lazyUrls := lazyUrls_of a in
  let options := options_of a in
  when (strict_ne_null wrapper && negb (validDOMElement wrapper))
       (throw WrapperError) ;;
  (if strict_ne_null srcTarget then
     match srcTarget with
     | VString sel =>
         ok <- validCSSSelector sel ;;
         when (negb ok) (throw SrcTargetError)
     | _ => throw SrcTargetError   (* typeof srcTarget !== 'string' *)
     end
   else ret tt) ;;
  when (strict_ne_null attr && (is_undefined attr || negb (is_string attr)))
       (throw AttrError) ;;
  reconfigure options ;;
  o <- new_IntersectionObserver (RenderMedia attr) ;;
  set_this_observer o ;;
  imgElements <- querySelectorAll (scope_of wrapper) (selector_text srcTarget) ;;
  match lazyUrls with
  | VArray urls => assign_lazyUrls imgElements urls 0
  | _ => ret tt   (* Array.isArray(lazyUrls) is false *)
  end ;;
  forEach (fun srcElem => observe o srcElem) imgElements.

(** [media(argument)], for any argument. *)
Definition call_media (argument : JSValue) : JS unit :=
  a <- media_parameters argument ;; media a.

(** [attr ? srcElem.setAttribute(attr, path) : srcElem.src = path].
    [attr] is [null] or a string, as [media] checked, and the empty
    string is falsy. *)
Definition set_source (attr : JSValue) (srcElem : Elem) (path : string) : JS unit :=
  match attr with
  | VString (String _ _ as name) => setAttribute srcElem name path
  | _ => set_src srcElem path
  end.

(** The closure returned by [#renderMedia(attr)], one entry at a time. *)
Definition renderMedia_entry (attr : JSValue) (observer : ObserverRef)
           (entry : Entry.t) : JS unit :=
  if Entry.isIntersecting entry then
    let srcElem := Entry.target entry in
    path <- gets (fun s => or_null (dataset_lazyUrl (element s srcElem))) ;;
    match path with
    | Some path =>
        set_source attr srcElem path ;;
        removeAttribute srcElem lazy_url_attribute ;;
        unobserve observer srcElem
    | None => throw LazyUrlError
    end
  else ret tt.

Definition renderMedia (attr : JSValue) (entries : list Entry.t)
           (observer : ObserverRef) : JS unit :=
  forEach (renderMedia_entry attr observer) entries.

(** [execute] on an argument object with the properties [a]. *)
Definition execute (a : ExecuteArgs.t) : JS unit :=
  let viewportEntry := viewportEntry_of a in
  let exeFn := exeFn_of a in
  let options := execute_options_of a in
  when (negb (validDOMElement viewportEntry)) (throw ViewportEntryError) ;;
  when (negb (is_function exeFn)) (throw ExeFnError) ;;
  reconfigure options ;;
  match viewportEntry, exeFn with
  | VElement target, VFunction f =>
      o <- new_IntersectionObserver (HandleFunctionExecution f) ;;
      set_this_observer o ;;
      observe o target
  | _, _ => ret tt   (* not reached: both were checked above *)
  end.

(** [execute(argument)], for any argument. *)
Definition call_execute (argument : JSValue) : JS unit :=
  a <- execute_parameters argument ;; execute a.

(** *** The caller's code, run *)

Definition statement (st : Statement) : JS unit :=
  match st with
  | Media argument => call_media argument
  | Execute argument => call_execute argument
  | Change e f => update_element e f
  | Raise t => throw t
  end.

(** [f()]: the call is recorded and the body of [f] is run. *)
Definition call (f : Fn) : JS unit :=
  log_call f ;; forEach statement (body f).

(** The closure returned by [#handleFunctionExecution(exeFn)], one entry
    at a time. *)
Definition handleFunctionExecution_entry (exeFn : Fn) (observer : ObserverRef)
           (entry : Entry.t) : JS unit :=
  if Entry.isIntersecting entry then
    call exeFn ;;
    unobserve observer (Entry.target entry)
  else ret tt.

Definition handleFunctionExecution (exeFn : Fn) (entries : list Entry.t)
           (observer : ObserverRef) : JS unit :=
  forEach (handleFunctionExecution_entry exeFn observer) entries.

(** *** Notification *)

Definition invoke (cb : Callback) (entries : list Entry.t)
           (observer : ObserverRef) : JS unit :=
  match cb with
  | RenderMedia attr => renderMedia attr entries observer
  | HandleFunctionExecution exeFn => handleFunctionExecution exeFn entries observer
  end.

(** The records of a batch that reach the callback of an observer holding
    the targets [ts]: an observer is told nothing about an element it does
    not observe. *)
Definition reported (ts : list Elem) (batch : list Entry.t) : list Entry.t :=
  filter (fun en => Entry.target en ∈ ts) batch.

(** The platform notifies observer [o]: the records of the batch about its
    current targets are handed, in order, to its callback. *)
Definition deliver (o : ObserverRef) (batch : list Entry.t) : JS unit :=
  fun s =>
    match observers s !! o with
    | Some ob =>
        invoke (Observer.callback ob) (reported (Observer.targets ob) batch) o s
    | None => (s, Normal tt)
    end.

(** Batches delivered one after the other.  An exception escaping a
    callback is reported by the platform and the next batch is delivered
    as usual. *)
Fixpoint deliver_all (o : ObserverRef) (batches : list (list Entry.t))
         (s : State) : State :=
  match batches with
  | [] => s
  | b :: rest => deliver_all o rest (state_after (deliver o b) s)
  end.

End Lazyload.

(** ** What happens to an object over time

    An event is a statement of the caller's top-level code or a
    notification by the platform; an exception that escapes an event is
    reported and the next event takes place as usual. *)
Inductive Event : Type :=
| Does (st : Statement)
| Notifies (o : ObserverRef) (batch : list Entry.t).

Definition event `{Platform} `{Program} (ev : Event) : JS unit :=
  match ev with
  | Does st => statement st
  | Notifies o batch => deliver o batch
  end.

Fixpoint run `{Platform} `{Program} (events : list Event) (s : State) : State :=
  match events with
  | [] => s
  | ev :: rest => run rest (state_after (event ev) s)
  end.

(** ** A small platform to run the code on

    Integers are printed in decimal, as JavaScript prints them; other
    rationals as a fraction.  The selector engine knows type selectors
    (lower-case tag names) on a flat document whose elements are numbered
    from 0 in document order, so that no element has descendants.  An
    attribute name is accepted when it is made of letters, digits, hyphens,
    underscores, colons and full stops and starts with none of digit,
    hyphen and full stop; it is stored in lower case.  The elements with a
    reflecting [src] are those of HTML.  The observer constructor wants a
    finite threshold within [0,1] and a margin that is a number followed by
    px. *)
Module Demo.

Definition number_to_string (q : Q) : string :=
  if (Zpos (Qden q) =? 1)%Z then pretty (Qnum q)
  else pretty (Qnum q) +:+ "/" +:+ pretty (Zpos (Qden q)).

Definition lowercase (c : ascii) : bool :=
  let n := nat_of_ascii c in (97 <=? n)%nat && (n <=? 122)%nat.

Definition uppercase (c : ascii) : bool :=
  let n := nat_of_ascii c in (65 <=? n)%nat && (n <=? 90)%nat.

Definition digit (c : ascii) : bool :=
  let n := nat_of_ascii c in (48 <=? n)%nat && (n <=? 57)%nat.

Definition type_selector (sel : string) : bool :=
  match sel with
  | "" => false
  | _ => forallb lowercase (list_ascii_of_string sel)
  end.

Definition by_tag (dom : gmap Elem Element.t) (scope : option Elem)
           (sel : string) : list Elem :=
  match scope with
  | None =>
      filter (fun e => Element.tagName <$> dom !! e = Some sel) (seq 0 (size dom))
  | Some _ => []
  end.

Lemma by_tag_NoDup dom scope sel : NoDup (by_tag dom scope sel).
Proof.
  destruct scope; simpl; [constructor|].
  apply NoDup_filter, NoDup_seq.
Qed.

Definition name_start (c : ascii) : bool :=
  lowercase c || uppercase c || Ascii.eqb c "_" || Ascii.eqb c ":".

Definition name_character (c : ascii) : bool :=
  name_start c || digit c || Ascii.eqb c "-" || Ascii.eqb c ".".

Definition to_lower (c : ascii) : ascii :=
  if uppercase c then ascii_of_nat (nat_of_ascii c + 32) else c.

Definition stored_name (name : string) : option string :=
  match name with
  | String c rest =>
      if name_start c && forallb name_character (list_ascii_of_string rest)
      then Some (string_of_list_ascii (map to_lower (list_ascii_of_string name)))
      else None
  | "" => None
  end.

Definition has_src (el : Element.t) : bool :=
  bool_decide (Element.tagName el ∈ ["img"; "video"; "audio"; "iframe"; "source";
                                     "script"; "input"; "embed"; "track"]).

Definition init_exception (i : Init.t) : option Thrown :=
  match Init.threshold i with
  | VNumber (Finite q) =>
      if String.eqb (Init.rootMargin i) "NaNpx"
         || String.eqb (Init.rootMargin i) "Infinitypx"
         || String.eqb (Init.rootMargin i) "-Infinitypx"
      then Some SyntaxError
      else if Qle_bool 0 q && Qle_bool q 1 then None else Some RangeError
  | _ => Some TypeError
  end.

Lemma init_exception_platform i t : init_exception i = Some t -> classify t = None.
Proof.
  unfold init_exception. destruct (Init.threshold i) as [| | |[q| | |]| | | | |];
    try (intros [= <-]; reflexivity).
  destruct (_ || _); [intros [= <-]; reflexivity|].
  destruct (_ && _); [discriminate | intros [= <-]; reflexivity].
Qed.

Definition platform : Platform :=
  {| NumberToString := number_to_string;
     valid_selector := type_selector;
     select := by_tag;
     select_NoDup := by_tag_NoDup;
     attribute_name := stored_name;
     reflects_src := has_src;
     observer_init := init_exception;
     observer_init_platform := init_exception_platform |}.

(** The functions of the caller: 7 does nothing, 8 throws, 9 calls
    [media] on the images, giving them the locator again, and 10 edits the
    division before it throws. *)
Definition program : Program :=
  {| body := fun f =>
       match f with
       | 8 => [Raise CallerError]
       | 9 => [Media (VObject [("srcTarget", VString "img");
                               ("lazyUrls", VArray [VString "again.jpg"])])]
       | 10 => [Change 2 (with_attribute "class" "seen"); Raise CallerError]
       | _ => []
       end |}.

Definition tag (name : string) : Element.t := Element.mk name ∅ None.

(** Two images and a division. *)
Definition page : gmap Elem Element.t :=
  list_to_map [(0, tag "img"); (1, tag "img"); (2, tag "div")].

(** One image and a division. *)
Definition single : gmap Elem Element.t :=
  list_to_map [(0, tag "img"); (1, tag "div")].

(** Two images, of which only the second carries a locator. *)
Definition half_marked : gmap Elem Element.t :=
  list_to_map [(0, tag "img");
               (1, set_dataset_lazyUrl "b.jpg" (tag "img"))].

(** [new Lazyload()] on a page. *)
Definition created (dom : gmap Elem Element.t) : State :=
  state_after (@constructor platform) (fresh dom).

(** [media({srcTarget: sel})], [media({srcTarget: sel, lazyUrls: urls})],
    [media({srcTarget: sel, options: {root: null, loadBefore: 0,
    loadAfter: 0}})], [media({srcTarget: sel, attr: name, lazyUrls:
    urls})], [media({srcTarget: sel, options: o})] and [media()]. *)
Definition selecting (sel : string) : MediaArgs.t :=
  MediaArgs.mk VUndefined (VString sel) VUndefined VUndefined VUndefined.
Definition locating (sel : string) (urls : list JSValue) : MediaArgs.t :=
  MediaArgs.mk VUndefined (VString sel) VUndefined (VArray urls) VUndefined.
Definition selecting_with_defaults (sel : string) : MediaArgs.t :=
  MediaArgs.mk VUndefined (VString sel) VUndefined VUndefined default_options.
Definition naming (sel name : string) (urls : list JSValue) : MediaArgs.t :=
  MediaArgs.mk VUndefined (VString sel) (VString name) (VArray urls) VUndefined.
Definition selecting_with (sel : string) (o : JSValue) : MediaArgs.t :=
  MediaArgs.mk VUndefined (VString sel) VUndefined VUndefined o.
Definition no_arguments : MediaArgs.t :=
  MediaArgs.mk VUndefined VUndefined VUndefined VUndefined VUndefined.

(** [execute({viewportEntry: e, exeFn: f})]. *)
Definition calling (e : Elem) (f : Fn) : ExecuteArgs.t :=
  ExecuteArgs.mk (VElement e) (VFunction f) VUndefined.

(** The options [{root: null, loadBefore: n, loadAfter: 0}]. *)
Definition margin_only (n : Number) : JSValue :=
  VObject [("root", VNull); ("loadBefore", VNumber n); ("loadAfter", VNumber 0)].

Definition run_media (a : MediaArgs.t) : JS unit := @media platform a.
Definition run_execute (a : ExecuteArgs.t) : JS unit := @execute platform a.
Definition run_config (o : Options.t) : JS unit := @config platform o.
Definition run_deliver (o : ObserverRef) (batch : list Entry.t) : JS unit :=
  @deliver platform program o batch.
Definition run_events (events : list Event) (s : State) : State :=
  @run platform program events s.

End Demo.

(** ** The vocabulary of the specification *)

(** A value is absent when it is [null] or [undefined]. *)
Definition absent (v : JSValue) : Prop := v = VNull \/ v = VUndefined.

Definition Number_lt (a b : Number) : Prop := Number_ltb a b = true.

(** The margin is absent, not numeric, or negative. *)
Definition margin_rejected (v : JSValue) : Prop :=
  absent v \/ is_number v = false \/ exists n, v = VNumber n /\ Number_lt n 0.


(** The threshold is absent, not numeric, below 0 or above 1. *)
Definition threshold_refused (v : JSValue) : Prop :=
  absent v \/ is_number v = false
  \/ exists n, v = VNumber n /\ (Number_lt n 0 \/ Number_lt 1 n).

(** The root is given and fails the element-validity predicate. *)
Definition root_rejected (v : JSValue) : Prop :=
  v <> VNull /\ validDOMElement v = false.

(** A number that is zero. *)
Definition is_zero (v : JSValue) : Prop :=
  exists q, v = VNumber (Finite q) /\ (q == 0)%Q.

(** The all-defaults sentinel as the specification words it: no options,
    or options whose root is absent and whose margin and threshold are
    zero. *)
Definition all_defaults (options : JSValue) : Prop :=
  options = VUndefined
  \/ (options <> VNull
      /\ absent (property "root" options)
      /\ is_zero (property "loadBefore" options)
      /\ is_zero (property "loadAfter" options)).

(** The sentinel with the root spelled out: no options, or options whose
    root is null and whose margin and threshold are zero. *)
Definition explicit_defaults (options : JSValue) : Prop :=
  options = VUndefined
  \/ (options <> VNull
      /\ property "root" options = VNull
      /\ is_zero (property "loadBefore" options)
      /\ is_zero (property "loadAfter" options)).

(** The configuration and the observer handle are what they were. *)
Definition keeps_config_and_observer (s s' : State) : Prop :=
  this_options s' = this_options s /\ this_observer s' = this_observer s.

(** Nothing was registered: every observer holds the targets it held, and
    an observer created since holds none. *)
Definition no_registration (s s' : State) : Prop :=
  forall o, targets_of s' o = targets_of s o.

(** The observer constructor accepts the configuration in force. *)
Definition constructible `{Platform} (s : State) : Prop :=
  this_options s ≫= observer_init = None.

(** The elements the selector of a [media] call resolves to. *)
Definition resolved `{Platform} (a : MediaArgs.t) (s : State) : list Elem :=
  select (document s) (scope_of (wrapper_of a)) (selector_text (srcTarget_of a)).

(** A [media] call passes every check that comes before its locators are
    looked at: the wrapper is absent or an element, the selector is absent
    or a string that finds an element of the document, the attribute name
    is absent or a string, the selector engine can parse the selector it is
    given, the options, when they are not the defaults, are accepted, and
    the observer constructor accepts the configuration then in force. *)
Definition media_accepted `{Platform} (a : MediaArgs.t) (s : State) : Prop :=
  (wrapper_of a = VNull \/ validDOMElement (wrapper_of a) = true)
  /\ (srcTarget_of a = VNull
      \/ exists sel, srcTarget_of a = VString sel
                     /\ select (document s) None sel <> [])
  /\ (attr_of a = VNull \/ is_string (attr_of a) = true)
  /\ valid_selector (selector_text (srcTarget_of a)) = true
  /\ completion (reconfigure (options_of a)) s = Normal tt
  /\ constructible (state_after (reconfigure (options_of a)) s).

(** A [media] call passes the checks on its wrapper, selector and
    attribute name. *)
Definition media_checked `{Platform} (a : MediaArgs.t) (s : State) : Prop :=
  (wrapper_of a = VNull \/ validDOMElement (wrapper_of a) = true)
  /\ (srcTarget_of a = VNull
      \/ exists sel, srcTarget_of a = VString sel /\ valid_selector sel = true
                     /\ select (document s) None sel <> [])
  /\ (attr_of a = VNull \/ is_string (attr_of a) = true).

(** A state whose document was replaced. *)
Definition with_document (d : gmap Elem Element.t) (s : State) : State :=
  mkState (this_observer s) (this_options s) d (observers s) (calls s).

(** The targets of an observer after [observe] was called for each
    element of a list. *)
Definition observe_each (ts els : list Elem) : list Elem :=
  fold_left (fun ts e => if bool_decide (e ∈ ts) then ts else ts ++ [e]) els ts.

(** The state of a [media] call once its checks are passed, the options
    settled and the new observer installed. *)
Definition media_prepared `{Platform} (a : MediaArgs.t) (s : State) : State :=
  let options := this_options (state_after (reconfigure (options_of a)) s) in
  mkState (Some (length (observers s))) options (document s)
          (observers s ++ [Observer.mk (RenderMedia (attr_of a)) options []])
          (calls s).

(** The selector check of [media], lines 71 to 78. *)
Definition srcTarget_check `{Platform} (srcTarget : JSValue) : JS unit :=
  if strict_ne_null srcTarget then
    match srcTarget with
    | VString sel =>
        ok <- validCSSSelector sel ;;
        when (negb ok) (throw SrcTargetError)
    | _ => throw SrcTargetError
    end
  else ret tt.

(** The state of an [execute] call once its checks are passed and the
    options settled: the new observer is installed and holds the
    target. *)
Definition execute_done `{Platform} (a : ExecuteArgs.t) (target : Elem) (f : Fn)
           (s : State) : State :=
  let options := this_options (state_after (reconfigure (execute_options_of a)) s) in
  mkState (Some (length (observers s))) options (document s)
          (observers s ++ [Observer.mk (HandleFunctionExecution f) options [target]])
          (calls s).

(** A handler that would handle every record of a batch, in order,
    whatever the completion of the records before. *)
Definition every_record `{Platform} (attr : JSValue) (observer : ObserverRef)
           (entries : list Entry.t) (s : State) : State :=
  fold_left (fun s entry => state_after (renderMedia_entry attr observer entry) s)
            entries s.

(** The number of records of a batch that report [target] as
    intersecting. *)
Definition intersections (target : Elem) (batch : list Entry.t) : nat :=
  length (filter (fun en => Entry.isIntersecting en = true /\ Entry.target en = target)
                 batch).

(** What the media handler makes of an element: the attribute named by
    [attr] under the name the platform stores it, or [src] when [attr] is
    null or empty, receives the locator, and [data-lazy-url] is removed.
    There is no result when the platform refuses the name. *)
Definition sourced `{Platform} (attr : JSValue) (path : string) (el : Element.t)
  : option Element.t :=
  match attr with
  | VString (String _ _ as name) =>
      (fun key => without_attribute lazy_url_attribute (with_attribute key path el))
        <$> attribute_name name
  | _ => Some (without_attribute lazy_url_attribute (with_src path el))
  end.

(** The state after the action of the media handler on [e], which has
    become [el]. *)
Definition rendered (o : ObserverRef) (e : Elem) (el : Element.t) (s : State)
  : State :=
  mkState (this_observer s) (this_options s)
          (<[e := el]> (document s))
          (alter (fun ob => Observer.mk (Observer.callback ob) (Observer.init ob)
                              (filter (fun x => x <> e) (Observer.targets ob)))
                 o (observers s))
          (calls s).

(** A state with a target dropped from an observer. *)
Definition unobserved (o : ObserverRef) (e : Elem) (s : State) : State :=
  mkState (this_observer s) (this_options s) (document s)
          (alter (fun ob => Observer.mk (Observer.callback ob) (Observer.init ob)
                              (filter (fun x => x <> e) (Observer.targets ob)))
                 o (observers s))
          (calls s).

(** The callback invoked [n] times in a row for the target [e] of
    observer [o], each invocation that returns being followed by the
    deregistration of [e]; an invocation that raises ends the row. *)
Fixpoint invocations `{Platform} `{Program} (f : Fn) (o : ObserverRef) (e : Elem)
         (n : nat) : JS unit :=
  match n with
  | 0 => ret tt
  | S n' => call f ;; unobserve o e ;; invocations f o e n'
  end.

(** A state in which the object has been constructed: [#options] is
    set, every observer was created with options, and [#observer], when
    set, refers to an observer that exists. *)
Definition configured (s : State) : Prop :=
  is_Some (this_options s)
  /\ Forall (fun ob => is_Some (Observer.init ob)) (observers s)
  /\ (forall o, this_observer s = Some o -> o < length (observers s)).

(** The targets of the records of a batch that report an intersection. *)
Definition intersecting_targets (batch : list Entry.t) : list Elem :=
  Entry.target <$> filter (fun en => Entry.isIntersecting en = true) batch.

(** An observer that is another but for targets it has dropped. *)
Definition shrunk (ob ob' : Observer.t) : Prop :=
  Observer.callback ob' = Observer.callback ob
  /\ Observer.init ob' = Observer.init ob
  /\ Observer.targets ob' ⊆ Observer.targets ob.

(** A state that differs from another in the document, in the call log
    and in targets that were dropped, and in nothing else. *)
Definition only_unregistered (s s' : State) : Prop :=
  this_observer s' = this_observer s
  /\ this_options s' = this_options s
  /\ Forall2 shrunk (observers s) (observers s').

(** A state whose observers are those of another, but for targets they
    have dropped, followed by observers created since. *)
Definition observers_kept (s s' : State) : Prop :=
  exists kept added,
    observers s' = kept ++ added /\ Forall2 shrunk (observers s) kept.

(** A state reached by calls of [media] and [execute] and by changes to
    elements: the observers of before are there, untouched and followed by
    those created since, and no function was invoked. *)
Definition appended (s s' : State) : Prop :=
  calls s' = calls s /\ exists added, observers s' = observers s ++ added.

(** A statement that calls neither [media] nor [execute]. *)
Definition no_call (st : Statement) : Prop :=
  match st with
  | Media _ | Execute _ => False
  | Change _ _ | Raise _ => True
  end.

(** The conditions of the second and third [if] of [#config]. *)
Definition loadBefore_guard (v : JSValue) : bool :=
  is_null v || is_undefined v || negb (is_number v) || lt_number v 0.

Definition loadAfter_guard (v : JSValue) : bool :=
  is_null v || is_undefined v || negb (is_number v) || lt_number v 0
  || gt_number v 1.

(** ** Properties *)

Section Properties.

Context {platform : Platform} {program : Program}.

(** *** Reading the monad *)

Lemma bind_normal {A B} (m : JS A) (k : A -> JS B) s s' a :
  m s = (s', Normal a) -> bind m k s = k a s'.
Proof. intros H. unfold bind. now rewrite H. Qed.

Lemma bind_abrupt {A B} (m : JS A) (k : A -> JS B) s s' t :
  m s = (s', Abrupt t) -> bind m k s = (s', Abrupt t).
Proof. intros H. unfold bind. now rewrite H. Qed.

Lemma bind_ret {A B} (a : A) (k : A -> JS B) s : bind (ret a) k s = k a s.
Proof. reflexivity. Qed.

Lemma bind_assoc {A B C} (m : JS A) (k : A -> JS B) (h : B -> JS C) s :
  bind (bind m k) h s = bind m (fun a => bind (k a) h) s.
Proof. unfold bind. now destruct (m s) as [s' [a|t]]. Qed.

Lemma forEach_app {A} (f : A -> JS unit) (l1 l2 : list A) s :
  forEach f (l1 ++ l2) s = (forEach f l1 ;; forEach f l2) s.
Proof.
  revert s. induction l1 as [|x l1 IH]; intros s; simpl.
  - reflexivity.
  - unfold bind in *. destruct (f x s) as [s1 [[]|t]]; [apply IH | reflexivity].
Qed.

Lemma state_eta s :
  mkState (this_observer s) (this_options s) (document s) (observers s) (calls s) = s.
Proof. now destruct s. Qed.

(** *** Comparisons *)

Lemma lt_number_true v n :
  lt_number v n = true <-> exists x, v = VNumber x /\ Number_lt x n.
Proof.
  unfold Number_lt. destruct v as [| | |x| | | | |]; simpl;
    try (split; [discriminate | intros (y & Hy & _); discriminate]).
  split.
  - intros H. exists x. auto.
  - intros (y & [= ->] & H). exact H.
Qed.

Lemma gt_number_true v n :
  gt_number v n = true <-> exists x, v = VNumber x /\ Number_lt n x.
Proof.
  unfold Number_lt. destruct v as [| | |x| | | | |]; simpl;
    try (split; [discriminate | intros (y & Hy & _); discriminate]).
  split.
  - intros H. exists x. auto.
  - intros (y & [= ->] & H). exact H.
Qed.

(** A zero passes the guards of [#config]. *)
Lemma zero_passes (q : Q) :
  (q == 0)%Q ->
  Qle_bool 0 q = true /\ Qle_bool q 1 = true /\ Qeq_bool q 0 = true.
Proof.
  intros H. split; [|split].
  - apply Qle_bool_iff. rewrite H. apply Qle_refl.
  - apply Qle_bool_iff. rewrite H. discriminate.
  - now apply Qeq_bool_iff.
Qed.




(** *** [#config] *)

Lemma root_guard_true v :
  negb (if strict_ne_null v then validDOMElement v else true) = true
  <-> root_rejected v.
Proof.
  unfold root_rejected.
  destruct v; simpl; split; intros H;
    try discriminate; try reflexivity;
    try (destruct H; congruence); split; congruence.
Qed.

Lemma loadBefore_guard_true v :
  loadBefore_guard v = true <-> margin_rejected v.
Proof.
  unfold loadBefore_guard, margin_rejected, absent.
  rewrite !orb_true_iff, lt_number_true, negb_true_iff.
  destruct v; simpl; intuition (try discriminate).
Qed.

Lemma loadAfter_guard_true v :
  loadAfter_guard v = true <-> threshold_refused v.
Proof.
  unfold loadAfter_guard, threshold_refused, absent.
  rewrite !orb_true_iff, lt_number_true, gt_number_true, negb_true_iff.
  destruct v; simpl; split; intros H;
    repeat (destruct H as [H|H]); try discriminate; auto;
    try (destruct H as (x & Hx & Hlt); right; right; exists x; tauto).
  destruct H as (x & Hx & [Hlt|Hlt]); [left; right | right]; eauto.
Qed.

Lemma config_unfold o :
  config o =
  let root := or_default VNull (Options.root o) in
  let loadBefore := or_default (VNumber 0) (Options.loadBefore o) in
  let loadAfter := or_default (VNumber 0) (Options.loadAfter o) in
  if negb (if strict_ne_null root then validDOMElement root else true)
  then throw RootError
  else if loadBefore_guard loadBefore then throw LoadBeforeError
  else if loadAfter_guard loadAfter then throw LoadAfterError
  else match loadBefore with
       | VNumber margin =>
           set_this_options (Init.mk root (ToString margin +:+ "px") loadAfter)
       | _ => ret tt
       end.
Proof. reflexivity. Qed.

(** The outcomes of [#config]. *)
Lemma config_cases o s :
  let root := or_default VNull (Options.root o) in
  let margin := or_default (VNumber 0) (Options.loadBefore o) in
  let threshold := or_default (VNumber 0) (Options.loadAfter o) in
  (exists t, config o s = (s, Abrupt t) /\ classify t = Some InvalidConfig
             /\ (root_rejected root \/ margin_rejected margin
                 \/ threshold_refused threshold))
  \/ (exists n, margin = VNumber n
                /\ ~ root_rejected root /\ ~ margin_rejected margin
                /\ ~ threshold_refused threshold
                /\ config o s =
                   (mkState (this_observer s)
                            (Some (Init.mk root (ToString n +:+ "px") threshold))
                            (document s) (observers s) (calls s),
                    Normal tt)).
Proof.
  intros root margin threshold. rewrite config_unfold.
  fold root margin threshold. cbv zeta.
  destruct (negb _) eqn:Er.
  { left. exists RootError. apply root_guard_true in Er. auto. }
  destruct (loadBefore_guard margin) eqn:Em.
  { left. exists LoadBeforeError. apply loadBefore_guard_true in Em. auto. }
  destruct (loadAfter_guard threshold) eqn:Et.
  { left. exists LoadAfterError. apply loadAfter_guard_true in Et. auto. }
  right.
  assert (Hr : ~ root_rejected root).
  { intros H. apply root_guard_true in H. congruence. }
  assert (Hm : ~ margin_rejected margin).
  { intros H. apply loadBefore_guard_true in H. congruence. }
  assert (Ht : ~ threshold_refused threshold).
  { intros H. apply loadAfter_guard_true in H. congruence. }
  destruct margin as [| | |n| | | | |] eqn:E; try discriminate Em.
  exists n. auto.
Qed.

(** *** The reconfiguration step *)

(** Reading the options throws when they are [null]; otherwise the step
    compares the three properties with the defaults and validates them
    when one differs. *)
Lemma reconfigure_read options s :
  reconfigure options s =
  match options with
  | VNull | VUndefined => (s, Abrupt TypeError)
  | _ => when (differs_from_defaults (read_options options))
              (config (read_options options)) s
  end.
Proof.
  unfold reconfigure, options_differ, differs_from_defaults, read_options.
  destruct options; try reflexivity.
  unfold bind, get, ret. cbn [Options.root Options.loadBefore Options.loadAfter].
  destruct (strict_ne_null _); [reflexivity|].
  destruct (strict_ne_zero _); [reflexivity|].
  destruct (strict_ne_zero _); reflexivity.
Qed.

(** [#config] and the reconfiguration step write [#options] and nothing
    else, and write nothing when they throw. *)
Lemma reconfigure_cases o s :
  (absent o /\ reconfigure o s = (s, Abrupt TypeError))
  \/ (~ absent o
      /\ exists t, reconfigure o s = (s, Abrupt t) /\ classify t = Some InvalidConfig
                   /\ differs_from_defaults (read_options o) = true)
  \/ (~ absent o
      /\ exists i, reconfigure o s =
                   (mkState (this_observer s) i (document s) (observers s) (calls s),
                    Normal tt)
                   /\ (differs_from_defaults (read_options o) = false -> i = this_options s)
                   /\ (differs_from_defaults (read_options o) = true ->
                       config (read_options o) s =
                       (mkState (this_observer s) i (document s) (observers s) (calls s),
                        Normal tt)
                       /\ is_Some i)).
Proof.
  rewrite reconfigure_read.
  assert (Hmain : ~ absent o ->
    (exists t, when (differs_from_defaults (read_options o)) (config (read_options o)) s
               = (s, Abrupt t) /\ classify t = Some InvalidConfig
               /\ differs_from_defaults (read_options o) = true)
    \/ (exists i, when (differs_from_defaults (read_options o)) (config (read_options o)) s
                  = (mkState (this_observer s) i (document s) (observers s) (calls s),
                     Normal tt)
                  /\ (differs_from_defaults (read_options o) = false -> i = this_options s)
                  /\ (differs_from_defaults (read_options o) = true ->
                      config (read_options o) s =
                      (mkState (this_observer s) i (document s) (observers s) (calls s),
                       Normal tt)
                      /\ is_Some i))).
  { intros _. unfold when. destruct (differs_from_defaults (read_options o)) eqn:E.
    - destruct (config_cases (read_options o) s)
        as [(t & Ht & Hc & _)|(q & _ & _ & _ & _ & Hq)].
      + left. eauto.
      + right. eexists. split; [exact Hq|]. split; [discriminate|].
        intros _. split; [exact Hq | eauto].
    - right. exists (this_options s). split; [|split; [reflexivity | discriminate]].
      unfold ret. now rewrite state_eta. }
  destruct o;
    try (left; split; [unfold absent; auto | reflexivity]);
    match goal with
    | |- (absent ?v /\ _) \/ _ =>
        assert (Hna : ~ absent v) by (intros [H|H]; discriminate H);
        destruct (Hmain Hna) as [H|H]; [right; left | right; right]; auto
    end.
Qed.

Lemma reconfigure_keeps_defaults o s :
  ~ absent o -> differs_from_defaults (read_options o) = false ->
  reconfigure o s = (s, Normal tt).
Proof.
  intros Hna E. rewrite reconfigure_read.
  destruct o; try (now contradiction Hna; unfold absent; auto);
    unfold when; now rewrite E.
Qed.

(** *** Registration *)

Lemma observe_each_fresh (ts els : list Elem) :
  NoDup els -> (forall e, e ∈ els -> e ∉ ts) -> observe_each ts els = ts ++ els.
Proof.
  revert ts. induction els as [|e els IH]; intros ts Hnd Hdis; simpl.
  - now rewrite app_nil_r.
  - apply NoDup_cons in Hnd as [Hne Hnd].
    rewrite bool_decide_eq_false_2 by (apply Hdis; left).
    rewrite IH; [now rewrite <- app_assoc | assumption |].
    intros x Hx Hin. apply elem_of_app in Hin as [Hin|Hin].
    + apply (Hdis x); [now right | assumption].
    + apply list_elem_of_singleton in Hin. subst. contradiction.
Qed.

Lemma alter_twice {A} (f g : A -> A) (i : nat) (l : list A) :
  alter g i (alter f i l) = alter (fun x => g (f x)) i l.
Proof.
  apply list_eq. intros j. destruct (decide (i = j)) as [->|Hne].
  - rewrite !list_lookup_alter_eq. now destruct (l !! j).
  - now rewrite !list_lookup_alter_ne.
Qed.

Lemma alter_pointwise {A} (f g : A -> A) (i : nat) (l : list A) :
  (forall x, f x = g x) -> alter f i l = alter g i l.
Proof.
  intros H. apply list_eq. intros j. rewrite !list_lookup_alter.
  destruct (decide (i = j)) as [->|]; [|reflexivity].
  destruct (l !! j); simpl; [now rewrite H | reflexivity].
Qed.

Lemma alter_same {A} (f : A -> A) (i : nat) (l : list A) :
  (forall x, f x = x) -> alter f i l = l.
Proof.
  intros H. apply list_eq. intros j. rewrite list_lookup_alter.
  destruct (decide (i = j)) as [->|]; [|reflexivity].
  destruct (l !! j); simpl; [now rewrite H | reflexivity].
Qed.

Lemma update_observer_twice o f g s :
  (update_observer o f ;; update_observer o g) s =
  update_observer o (fun ts => g (f ts)) s.
Proof.
  unfold bind, update_observer, modify. simpl. f_equal. f_equal.
  rewrite alter_twice. reflexivity.
Qed.

Lemma update_observer_id o s :
  update_observer o (fun ts => ts) s = (s, Normal tt).
Proof.
  unfold update_observer, modify. f_equal.
  rewrite alter_same; [apply state_eta|]. now intros [].
Qed.

Lemma update_observer_ext o f g s :
  (forall ts, f ts = g ts) -> update_observer o f s = update_observer o g s.
Proof.
  intros H. unfold update_observer, modify. do 2 f_equal.
  apply alter_pointwise. intros ob. now rewrite H.
Qed.

Lemma forEach_observe o els s :
  forEach (fun e => observe o e) els s =
  update_observer o (fun ts => observe_each ts els) s.
Proof.
  revert s. induction els as [|e els IH]; intros s; simpl.
  - unfold ret. now rewrite update_observer_id.
  - transitivity ((observe o e ;; update_observer o (fun ts => observe_each ts els)) s).
    + unfold bind, observe, update_observer at 1, modify at 1. apply IH.
    + unfold observe. now rewrite update_observer_twice.
Qed.

Lemma targets_of_update_observer o f s o' :
  targets_of (state_after (update_observer o f) s) o' =
  if decide (o = o') then
    match observers s !! o with Some ob => f (Observer.targets ob) | None => [] end
  else targets_of s o'.
Proof.
  unfold targets_of, state_after, update_observer, modify. simpl.
  rewrite list_lookup_alter. destruct (decide (o = o')); [subst|reflexivity].
  destruct (observers s !! o'); reflexivity.
Qed.

(** *** The locator loop *)

Lemma element_update_element e f s e' :
  element (state_after (update_element e f) s) e' =
  if decide (e = e') then f (element s e) else element s e'.
Proof.
  unfold element, state_after, update_element, modify. simpl.
  destruct (decide (e = e')) as [->|Hne].
  - now rewrite lookup_insert_eq.
  - now rewrite lookup_insert_ne.
Qed.

Lemma update_element_document e f s :
  update_element e f s =
  (with_document (<[e := f (element s e)]> (document s)) s, Normal tt).
Proof. reflexivity. Qed.

Lemma with_document_twice d d' s :
  with_document d (with_document d' s) = with_document d s.
Proof. reflexivity. Qed.

Lemma assign_app els l1 l2 i s :
  assign_lazyUrls els (l1 ++ l2) i s =
  (assign_lazyUrls els l1 i ;; assign_lazyUrls els l2 (i + length l1)) s.
Proof.
  revert i s. induction l1 as [|u l1 IH]; intros i s; simpl.
  - unfold bind, ret. now rewrite Nat.add_0_r.
  - destruct u; try reflexivity.
    destruct (els !! i) as [el|]; [|reflexivity].
    unfold bind at 1 3. rewrite update_element_document.
    rewrite IH. unfold bind. now rewrite Nat.add_succ_comm.
Qed.

(** When the elements do not run out, a run of strings is assigned one by
    one: element [i + k] receives locator [k], and nothing else changes. *)
Lemma assign_strings (els : list Elem) (paths : list string) i s :
  NoDup els -> i + length paths <= length els ->
  exists s',
    assign_lazyUrls els (VString <$> paths) i s = (s', Normal tt)
    /\ s' = with_document (document s') s
    /\ (forall k e, els !! k = Some e ->
          element s' e =
          match decide (i <= k), paths !! (k - i) with
          | left _, Some p => set_dataset_lazyUrl p (element s e)
          | _, _ => element s e
          end)
    /\ (forall e, e ∉ els -> element s' e = element s e).
Proof.
  intros Hnd. revert i s. induction paths as [|p ps IH]; intros i s Hlen; simpl in *.
  - exists s. split; [reflexivity|]. split; [now destruct s|].
    split; [|reflexivity]. intros k e _. rewrite ?lookup_nil. now destruct (decide _).
  - destruct (els !! i) as [el|] eqn:Hel.
    2:{ apply lookup_ge_None in Hel. lia. }
    unfold bind. rewrite update_element_document.
    set (s1 := with_document _ s).
    destruct (IH (S i) s1) as (s' & Hrun & Hframe & Hin & Hout); [lia|].
    exists s'. split; [exact Hrun|].
    assert (Hs1 : forall e, element s1 e =
                    if decide (el = e)
                    then set_dataset_lazyUrl p (element s el)
                    else element s e).
    { intros e. exact (element_update_element el _ s e). }
    split; [rewrite Hframe at 1; reflexivity|]. split.
    + intros k e Hk. rewrite (Hin k e Hk), Hs1.
      destruct (decide (k = i)) as [->|Hki].
      * assert (e = el) by congruence. subst e.
        rewrite Nat.sub_diag. simpl.
        destruct (decide (S i <= i)); [lia|].
        destruct (decide (i <= i)); [|lia].
        now rewrite decide_True.
      * assert (Hne : el <> e).
        { intros ->. apply Hki. eapply NoDup_lookup; eassumption. }
        rewrite (decide_False (P := el = e)) by assumption.
        destruct (decide (S i <= k)), (decide (i <= k)); try lia; [|reflexivity].
        replace (k - i) with (S (k - S i)) by lia. reflexivity.
    + intros e He. rewrite (Hout e He), Hs1.
      rewrite decide_False; [reflexivity|].
      intros ->. apply He. eapply list_elem_of_lookup_2; eassumption.
Qed.

(** *** [media], once its checks are passed *)

Lemma validCSSSelector_found sel s :
  valid_selector sel = true -> select (document s) None sel <> [] ->
  validCSSSelector sel s = (s, Normal true).
Proof.
  intros Hv Hne. unfold validCSSSelector, querySelector, querySelectorAll.
  rewrite Hv. unfold bind, gets, ret.
  destruct (select (document s) None sel); [contradiction|reflexivity].
Qed.

Lemma media_run a s :
  media_accepted a s ->
  media a s =
  (match lazyUrls_of a with
   | VArray urls => assign_lazyUrls (resolved a s) urls 0
   | _ => ret tt
   end ;;
   forEach (fun e => observe (length (observers s)) e) (resolved a s))
  (media_prepared a s).
Proof.
  intros (Hw & Hs & Ha & Hv & Hr & Hk). unfold media. cbv zeta.
  assert (Hw' : strict_ne_null (wrapper_of a) && negb (validDOMElement (wrapper_of a)) = false).
  { destruct Hw as [-> | ->]; [reflexivity | apply andb_false_r]. }
  rewrite Hw'. unfold when at 1. rewrite bind_ret.
  erewrite bind_normal.
  2:{ destruct Hs as [-> | (sel & E & Hne)]; [reflexivity|].
      rewrite E in Hv |- *. simpl in Hv |- *. unfold bind.
      rewrite validCSSSelector_found by assumption. reflexivity. }
  assert (Ha' : strict_ne_null (attr_of a)
                && (is_undefined (attr_of a) || negb (is_string (attr_of a))) = false).
  { destruct Ha as [-> | Hstr]; [reflexivity|].
    destruct (attr_of a); try discriminate; reflexivity. }
  rewrite Ha'. unfold when at 1. rewrite bind_ret.
  unfold media_prepared, constructible, state_after in *.
  destruct (reconfigure_cases (options_of a) s)
    as [(_ & Ht)|[(_ & t & Ht & _)|(_ & i & Hi & _)]].
  { unfold completion in Hr. rewrite Ht in Hr. discriminate. }
  { unfold completion in Hr. rewrite Ht in Hr. discriminate. }
  rewrite Hi in Hk. cbn [fst this_options] in Hk.
  rewrite (bind_normal _ _ _ _ _ Hi), Hi.
  unfold bind at 1, new_IntersectionObserver.
  cbn [this_options this_observer observers calls document fst snd]. rewrite Hk.
  unfold bind at 1, set_this_observer, modify.
  unfold bind at 1, querySelectorAll. rewrite Hv. unfold gets.
  reflexivity.
Qed.

Lemma targets_of_prepared a s o :
  targets_of (media_prepared a s) o = targets_of s o.
Proof.
  unfold targets_of, media_prepared. simpl.
  destruct (decide (o < length (observers s))) as [Hlt|Hge].
  - now rewrite lookup_app_l.
  - rewrite lookup_app_r by lia. rewrite (lookup_ge_None_2 (observers s)) by lia.
    destruct (o - length (observers s)); [reflexivity|]. simpl.
    reflexivity.
Qed.

Lemma media_success a s paths :
  media_accepted a s ->
  lazyUrls_of a = VArray (VString <$> paths) ->
  length paths <= length (resolved a s) ->
  exists s',
    media a s = (s', Normal tt)
    /\ this_observer s' = Some (length (observers s))
    /\ this_options s' = this_options (state_after (reconfigure (options_of a)) s)
    /\ observers s' =
       observers s ++ [Observer.mk (RenderMedia (attr_of a)) (this_options s')
                                   (resolved a s)]
    /\ calls s' = calls s
    /\ (forall k e, resolved a s !! k = Some e ->
          element s' e =
          match paths !! k with
          | Some p => set_dataset_lazyUrl p (element s e)
          | None => element s e
          end)
    /\ (forall e, e ∉ resolved a s -> element s' e = element s e).
Proof.
  intros Hacc Hurls Hlen. rewrite (media_run a s Hacc), Hurls.
  destruct (assign_strings (resolved a s) paths 0 (media_prepared a s))
    as (s1 & Hrun & Hframe & Hin & Hout); [apply select_NoDup | simpl; lia |].
  rewrite (bind_normal _ _ _ _ _ Hrun), forEach_observe.
  eexists. split; [reflexivity|].
  rewrite Hframe. unfold update_observer, modify, with_document, media_prepared.
  cbn [this_observer this_options observers calls document fst snd].
  repeat split.
  - f_equal. rewrite alter_app_r_alt by lia. rewrite Nat.sub_diag. simpl.
    rewrite observe_each_fresh; [reflexivity | apply select_NoDup |].
    intros e _. apply not_elem_of_nil.
  - intros k e Hk. specialize (Hin k e Hk). rewrite Nat.sub_0_r in Hin.
    destruct (decide (0 <= k)); [|lia].
    unfold element in *. rewrite Hframe in Hin. exact Hin.
  - intros e He. specialize (Hout e He).
    unfold element in *. rewrite Hframe in Hout. exact Hout.
Qed.


(** *** The records of a batch *)

Lemma renderMedia_entry_without_locator attr o e s :
  or_null (dataset_lazyUrl (element s e)) = None ->
  renderMedia_entry attr o (Entry.mk true e) s = (s, Abrupt LazyUrlError).
Proof.
  intros H. unfold renderMedia_entry. simpl. unfold bind, gets. now rewrite H.
Qed.

(** *** Claims about [#config] *)


(** C4, at the failing input.  A threshold given as an array, here with a
    null root and a zero margin, is refused: [#config] throws the
    loadAfter error and stores nothing. *)
Theorem config_rejects_threshold_array (items : list JSValue) (s : State) :
  config (Options.mk VNull (VNumber 0) (VArray items)) s = (s, Abrupt LoadAfterError).
Proof. reflexivity. Qed.

(** *** Claims about the locators of [media] *)

(** C10.  When a [media] call has passed its checks and its locators,
    strings up to the first index past the resolved elements, outnumber
    those elements, the call ends in a TypeError, which the error
    taxonomy does not know; every resolved element has by then received
    its locator as transient data, and no element was registered. *)
Theorem media_locators_overflow (a : MediaArgs.t) (s : State) (urls : list JSValue) :
  media_accepted a s ->
  lazyUrls_of a = VArray urls ->
  (forall j, j <= length (resolved a s) -> exists p, urls !! j = Some (VString p)) ->
  completion (media a) s = Abrupt TypeError
  /\ classify TypeError = None
  /\ ~ fails_with InvalidArgument (completion (media a) s)
  /\ (forall k e p, resolved a s !! k = Some e -> urls !! k = Some (VString p) ->
        dataset_lazyUrl (element (state_after (media a) s) e) = Some p)
  /\ no_registration s (state_after (media a) s).
Proof.
  intros Hacc Hurls Hstr.
  set (els := resolved a s) in *. set (n := length els) in *.
  assert (Hpre : exists paths p rest,
             urls = (VString <$> paths) ++ VString p :: rest /\ length paths = n).
  { clear Hurls Hacc. revert urls Hstr. generalize n. clear.
    induction n as [|n IH]; intros urls H.
    - destruct (H 0) as (p & Hp); [lia|]. destruct urls as [|u rest]; [discriminate|].
      injection Hp as ->. exists [], p, rest. split; reflexivity.
    - destruct (H 0) as (p & Hp); [lia|]. destruct urls as [|u rest]; [discriminate|].
      injection Hp as ->.
      destruct (IH rest) as (paths & p' & rest' & -> & Hl).
      { intros j Hj. apply (H (S j)). lia. }
      exists (p :: paths), p', rest'. split; [reflexivity | simpl; lia]. }
  destruct Hpre as (paths & p & rest & -> & Hl).
  unfold completion, state_after.
  rewrite (media_run a s Hacc), Hurls. fold els.
  destruct (assign_strings els paths 0 (media_prepared a s))
    as (s1 & Hrun & Hframe & Hin & Hout); [apply select_NoDup | simpl; lia |].
  assert (Hloop : assign_lazyUrls els ((VString <$> paths) ++ VString p :: rest) 0
                    (media_prepared a s) = (s1, Abrupt TypeError)).
  { rewrite assign_app. rewrite (bind_normal _ _ _ _ _ Hrun).
    rewrite length_fmap, Hl. simpl.
    now rewrite (lookup_ge_None_2 els n) by (unfold n; lia). }
  rewrite (bind_abrupt _ _ _ _ _ Hloop). simpl.
  split; [reflexivity|]. split; [reflexivity|]. split.
  { intros (t & [= <-] & Hc). discriminate. }
  split.
  - intros k e q Hk Hq. specialize (Hin k e Hk). rewrite Nat.sub_0_r in Hin.
    destruct (decide (0 <= k)); [|lia].
    assert (Hkn : k < n) by (apply lookup_lt_Some in Hk; exact Hk).
    rewrite lookup_app_l in Hq by (rewrite length_fmap; lia).
    rewrite list_lookup_fmap in Hq.
    destruct (paths !! k) as [q'|]; [|discriminate]. injection Hq as ->.
    rewrite Hin. unfold dataset_lazyUrl, set_dataset_lazyUrl, getAttribute, with_attribute. simpl.
    apply lookup_insert_eq.
  - intros o. rewrite Hframe. 
    change (targets_of (with_document (document s1) (media_prepared a s)) o)
      with (targets_of (media_prepared a s) o).
    apply targets_of_prepared.
Qed.

(** Short of running past the resolved elements, a locator that is no
    string ends the call with the image-path error, an InvalidArgument,
    and nothing is registered. *)
Lemma media_rejects_nonstring_locator a s paths u rest :
  media_accepted a s ->
  lazyUrls_of a = VArray ((VString <$> paths) ++ u :: rest) ->
  is_string u = false ->
  length paths <= length (resolved a s) ->
  completion (media a) s = Abrupt ImagePathError
  /\ fails_with InvalidArgument (completion (media a) s)
  /\ no_registration s (state_after (media a) s).
Proof.
  intros Hacc Hurls Hu Hlen.
  unfold completion, state_after. rewrite (media_run a s Hacc), Hurls.
  destruct (assign_strings (resolved a s) paths 0 (media_prepared a s))
    as (s1 & Hrun & Hframe & _); [apply select_NoDup | simpl; lia |].
  assert (Hloop : assign_lazyUrls (resolved a s) ((VString <$> paths) ++ u :: rest) 0
                    (media_prepared a s) = (s1, Abrupt ImagePathError)).
  { rewrite assign_app, (bind_normal _ _ _ _ _ Hrun). simpl.
    destruct u; try reflexivity. discriminate. }
  rewrite (bind_abrupt _ _ _ _ _ Hloop). simpl.
  split; [reflexivity|]. split; [exists ImagePathError; auto|].
  intros o. rewrite Hframe.
  change (targets_of (with_document (document s1) (media_prepared a s)) o)
    with (targets_of (media_prepared a s) o).
  apply targets_of_prepared.
Qed.

(** *** The ways a call can go *)

Lemma srcTarget_check_cases v s :
  (srcTarget_check v s = (s, Normal tt)
   /\ (v = VNull
       \/ exists sel, v = VString sel /\ valid_selector sel = true
                      /\ select (document s) None sel <> []))
  \/ (srcTarget_check v s = (s, Abrupt SrcTargetError) /\ v <> VNull
      /\ (is_string v = false
          \/ exists sel, v = VString sel
                         /\ completion (validCSSSelector sel) s = Normal false))
  \/ (srcTarget_check v s = (s, Abrupt SyntaxError)
      /\ exists sel, v = VString sel /\ valid_selector sel = false).
Proof.
  unfold srcTarget_check.
  destruct v as [| | | |sel| | | |]; simpl;
    try (right; left; split; [reflexivity | split; [discriminate | now left]]).
  - left. auto.
  - assert (Hq : validCSSSelector sel s =
                 if valid_selector sel
                 then (s, Normal (match select (document s) None sel with
                                  | [] => false | _ => true end))
                 else (s, Abrupt SyntaxError)).
    { unfold validCSSSelector, querySelector, querySelectorAll.
      destruct (valid_selector sel); [|reflexivity].
      unfold bind, gets, ret. now destruct (select (document s) None sel). }
    unfold bind, completion. rewrite Hq.
    destruct (valid_selector sel) eqn:Ev.
    + destruct (select (document s) None sel) as [|e l] eqn:El; simpl.
      * right. left. split; [reflexivity|]. split; [discriminate|].
        right. exists sel. split; [reflexivity|]. unfold completion. now rewrite Hq.
      * left. split; [reflexivity|]. right. exists sel. rewrite El. auto.
    + right. right. split; [reflexivity|]. eauto.
Qed.

Lemma media_unfold a :
  media a =
  (when (strict_ne_null (wrapper_of a) && negb (validDOMElement (wrapper_of a)))
        (throw WrapperError) ;;
   srcTarget_check (srcTarget_of a) ;;
   when (strict_ne_null (attr_of a)
         && (is_undefined (attr_of a) || negb (is_string (attr_of a))))
        (throw AttrError) ;;
   reconfigure (options_of a) ;;
   o <- new_IntersectionObserver (RenderMedia (attr_of a)) ;;
   set_this_observer o ;;
   imgElements <- querySelectorAll (scope_of (wrapper_of a))
                                   (selector_text (srcTarget_of a)) ;;
   match lazyUrls_of a with
   | VArray urls => assign_lazyUrls imgElements urls 0
   | _ => ret tt
   end ;;
   forEach (fun srcElem => observe o srcElem) imgElements).
Proof. reflexivity. Qed.

(** The ways a [media] call can go, error by error. *)
Lemma media_outcomes a s :
  media a s = (s, Abrupt WrapperError)
  \/ media a s = (s, Abrupt SrcTargetError)
  \/ media a s = (s, Abrupt SyntaxError)
  \/ media a s = (s, Abrupt AttrError)
  \/ (options_of a = VNull /\ media a s = (s, Abrupt TypeError))
  \/ (exists t, media a s = (s, Abrupt t) /\ classify t = Some InvalidConfig)
  \/ (exists t, completion (reconfigure (options_of a)) s = Normal tt
                /\ this_options (state_after (reconfigure (options_of a)) s)
                     ≫= observer_init = Some t
                /\ media a s = (state_after (reconfigure (options_of a)) s, Abrupt t))
  \/ media a s = (media_prepared a s, Abrupt SyntaxError)
  \/ media_accepted a s.
Proof.
  destruct (media a s) as [s' c] eqn:Hm. rewrite media_unfold in Hm.
  destruct (strict_ne_null (wrapper_of a) && negb (validDOMElement (wrapper_of a))) eqn:Ew.
  { injection Hm as <- <-. tauto. }
  assert (Hw : wrapper_of a = VNull \/ validDOMElement (wrapper_of a) = true).
  { destruct (wrapper_of a); simpl in Ew; try discriminate; auto. }
  unfold when at 1 in Hm. rewrite bind_ret in Hm.
  destruct (srcTarget_check_cases (srcTarget_of a) s)
    as [(Hrun & Hs)|[(Hrun & _)|(Hrun & _)]].
  2:{ rewrite (bind_abrupt _ _ _ _ _ Hrun) in Hm. injection Hm as <- <-. tauto. }
  2:{ rewrite (bind_abrupt _ _ _ _ _ Hrun) in Hm. injection Hm as <- <-. tauto. }
  rewrite (bind_normal _ _ _ _ _ Hrun) in Hm.
  destruct (strict_ne_null (attr_of a)
            && (is_undefined (attr_of a) || negb (is_string (attr_of a)))) eqn:Ea.
  { injection Hm as <- <-. tauto. }
  assert (Ha : attr_of a = VNull \/ is_string (attr_of a) = true).
  { destruct (attr_of a); simpl in Ea; try discriminate; auto. }
  unfold when at 1 in Hm. rewrite bind_ret in Hm.
  destruct (reconfigure_cases (options_of a) s)
    as [(Hab & Ht)|[(_ & t & Ht & Hc & _)|(_ & i & Hi & _)]].
  { rewrite (bind_abrupt _ _ _ _ _ Ht) in Hm. injection Hm as <- <-.
    do 4 right. left. split; [|reflexivity].
    destruct Hab as [Hab|Hab]; [exact Hab|].
    unfold options_of in Hab. destruct (MediaArgs.options a); discriminate. }
  { rewrite (bind_abrupt _ _ _ _ _ Ht) in Hm. injection Hm as <- <-.
    do 5 right. left. eauto. }
  assert (Hr : completion (reconfigure (options_of a)) s = Normal tt).
  { unfold completion. now rewrite Hi. }
  rewrite (bind_normal _ _ _ _ _ Hi) in Hm.
  unfold bind at 1, new_IntersectionObserver in Hm.
  cbn [this_options this_observer observers calls document] in Hm.
  destruct (i ≫= observer_init) as [t|] eqn:Ek.
  { injection Hm as <- <-. do 6 right. left. exists t.
    unfold state_after. rewrite Hi. simpl. auto. }
  destruct (valid_selector (selector_text (srcTarget_of a))) eqn:Ev.
  - do 8 right. repeat split; try assumption.
    + destruct Hs as [Hs|(sel & Hs & _ & Hne)]; [now left | right; eauto].
    + unfold constructible, state_after. now rewrite Hi.
  - do 7 right. left.
    unfold media_prepared, state_after. rewrite Hi.
    unfold bind at 1, set_this_observer, modify in Hm.
    unfold bind at 1, querySelectorAll in Hm. rewrite Ev in Hm.
    injection Hm as <- <-. reflexivity.
Qed.

(** An [execute] call stops at a check with the state as it was, or at
    the observer constructor with the options settled, or installs a new
    observer that holds the target. *)
Lemma execute_cases a s :
  (exists target f,
      viewportEntry_of a = VElement target /\ exeFn_of a = VFunction f
      /\ completion (reconfigure (execute_options_of a)) s = Normal tt
      /\ constructible (state_after (reconfigure (execute_options_of a)) s)
      /\ execute a s = (execute_done a target f s, Normal tt))
  \/ (exists t, execute a s = (s, Abrupt t)
                /\ (classify t = Some InvalidArgument
                    \/ classify t = Some InvalidConfig
                    \/ (t = TypeError /\ execute_options_of a = VNull)))
  \/ (exists t, completion (reconfigure (execute_options_of a)) s = Normal tt
                /\ this_options (state_after (reconfigure (execute_options_of a)) s)
                     ≫= observer_init = Some t
                /\ execute a s
                   = (state_after (reconfigure (execute_options_of a)) s, Abrupt t)).
Proof.
  destruct (execute a s) as [s' c] eqn:Hm. unfold execute in Hm. cbv zeta in Hm.
  destruct (viewportEntry_of a) as [| | | | | |target| |] eqn:Ev;
    try (injection Hm as <- <-; right; left; exists ViewportEntryError;
         split; [reflexivity | now left]).
  destruct (exeFn_of a) as [| | | | | | |f|] eqn:Ef;
    try (injection Hm as <- <-; right; left; exists ExeFnError;
         split; [reflexivity | now left]).
  simpl in Hm. unfold when in Hm. rewrite !bind_ret in Hm.
  destruct (reconfigure_cases (execute_options_of a) s)
    as [(Hab & Ht)|[(_ & t & Ht & Hc & _)|(_ & i & Hi & _)]].
  { right. left. exists TypeError. rewrite (bind_abrupt _ _ _ _ _ Ht) in Hm.
    injection Hm as <- <-.
    split; [reflexivity|]. right. right. split; [reflexivity|].
    destruct Hab as [Hab|Hab]; [exact Hab|].
    unfold execute_options_of in Hab. destruct (ExecuteArgs.options a); discriminate. }
  { right. left. exists t. rewrite (bind_abrupt _ _ _ _ _ Ht) in Hm.
    injection Hm as <- <-. auto. }
  rewrite (bind_normal _ _ _ _ _ Hi) in Hm.
  unfold bind at 1, new_IntersectionObserver in Hm.
  cbn [this_options this_observer observers calls document] in Hm.
  destruct (i ≫= observer_init) as [t|] eqn:Ek.
  { injection Hm as <- <-. right. right. exists t.
    unfold completion, state_after. rewrite Hi. simpl. auto. }
  left. exists target, f. split; [reflexivity|]. split; [reflexivity|].
  split; [unfold completion; now rewrite Hi|].
  split; [unfold constructible, state_after; now rewrite Hi|].
  rewrite <- Hm. unfold execute_done, state_after. rewrite Hi.
  unfold bind, set_this_observer, observe, update_observer, modify.
  cbn [this_observer this_options observers calls document fst snd].
  rewrite alter_app_r_alt by lia. rewrite Nat.sub_diag. reflexivity.
Qed.

(** *** What the locator loop and the registration leave alone *)

Lemma assign_document els urls i s :
  exists d, state_after (assign_lazyUrls els urls i) s = with_document d s.
Proof.
  revert i s. induction urls as [|u urls IH]; intros i s; simpl.
  - exists (document s). now destruct s.
  - destruct u; try (exists (document s); now destruct s).
    destruct (els !! i) as [el|]; [|exists (document s); now destruct s].
    unfold state_after, bind. rewrite update_element_document.
    destruct (IH (S i) (with_document (<[el:=set_dataset_lazyUrl s0 (element s el)]>
                                         (document s)) s)) as (d & Hd).
    exists d. unfold state_after in Hd.
    destruct (assign_lazyUrls els urls (S i) _) as [s' [[]|t]]; exact Hd.
Qed.

(** After its preparation a [media] call writes locators and targets
    only: the private fields, the number of observers and the call log
    stay as prepared. *)
Lemma media_after_preparation a s :
  media_accepted a s ->
  let s' := state_after (media a) s in
  this_observer s' = Some (length (observers s))
  /\ this_options s' = this_options (state_after (reconfigure (options_of a)) s)
  /\ length (observers s') = S (length (observers s))
  /\ calls s' = calls s.
Proof.
  intros Hacc s'. subst s'. unfold state_after at 1 2 4 5.
  rewrite (media_run a s Hacc).
  set (loop := match lazyUrls_of a with
               | VArray urls => assign_lazyUrls (resolved a s) urls 0
               | _ => ret tt
               end).
  assert (Hloop : exists d, state_after loop (media_prepared a s)
                            = with_document d (media_prepared a s)).
  { subst loop. destruct (lazyUrls_of a);
      try (exists (document s); reflexivity). apply assign_document. }
  destruct Hloop as (d & Hd). unfold state_after in Hd. unfold bind.
  destruct (loop (media_prepared a s)) as [s1 [[]|t]]; simpl in Hd; subst s1.
  - rewrite forEach_observe. unfold update_observer, modify. simpl.
    rewrite length_alter, length_app. simpl. repeat split; lia.
  - simpl. rewrite length_app. simpl. repeat split; lia.
Qed.

(** Options that are the defaults, with the root spelled out, are not
    null and do not differ from the defaults. *)
Lemma explicit_defaults_guard (o : JSValue) :
  explicit_defaults o ->
  ~ absent (or_default default_options o)
  /\ differs_from_defaults (read_options (or_default default_options o)) = false.
Proof.
  intros [->|(Hn & Hr & (qb & Hb & Eb) & (qa & Ha & Ea))].
  - split; [intros [H|H]; discriminate | reflexivity].
  - assert (Ho : or_default default_options o = o).
    { destruct o; try reflexivity. discriminate. }
    rewrite Ho. split.
    + intros [H|H]; [contradiction | subst o; discriminate].
    + unfold differs_from_defaults, read_options. simpl. rewrite Hr, Hb, Ha. simpl.
      apply Qeq_bool_iff in Eb, Ea. now rewrite Eb, Ea.
Qed.

(** *** Claims about the arguments of [media] and [execute] *)

(** C5, as amended.  The selector argument of [media] may be absent: a
    call without it that is otherwise accepted and brings no locators
    completes, and registers what the selector text null resolves to.
    When the argument is supplied it must be a string for which the
    selector-validity predicate answers true: a call in which it is not a
    string, or the predicate answers false, fails with InvalidArgument
    synchronously, the state being what it was, so that nothing was
    registered. *)
Theorem media_checks_supplied_srcTarget (a : MediaArgs.t) (s : State) :
  (srcTarget_of a = VNull -> media_accepted a s -> lazyUrls_of a = VArray [] ->
   completion (media a) s = Normal tt
   /\ targets_of (state_after (media a) s) (length (observers s)) =
      select (document s) (scope_of (wrapper_of a)) "null")
  /\ (srcTarget_of a <> VNull ->
      is_string (srcTarget_of a) = false
      \/ (exists sel, srcTarget_of a = VString sel
                      /\ completion (validCSSSelector sel) s = Normal false) ->
      fails_with InvalidArgument (completion (media a) s)
      /\ state_after (media a) s = s).
Proof.
  split.
  - intros Hnull Hacc Hurls.
    destruct (media_success a s [] Hacc Hurls) as (s' & Hrun & _ & _ & Hobs & _);
      [simpl; lia|].
    unfold completion, state_after, targets_of. rewrite Hrun. simpl.
    split; [reflexivity|]. rewrite Hobs.
    rewrite lookup_app_r by lia. rewrite Nat.sub_diag. simpl.
    unfold resolved. now rewrite Hnull.
  - intros Hsup Hbad. unfold completion, state_after, fails_with.
    destruct (media a s) as [s' c] eqn:Hm. rewrite media_unfold in Hm. simpl.
    destruct (strict_ne_null (wrapper_of a) && negb (validDOMElement (wrapper_of a))).
    { injection Hm as <- <-. split; [exists WrapperError; auto | reflexivity]. }
    unfold when at 1 in Hm. rewrite bind_ret in Hm.
    destruct (srcTarget_check_cases (srcTarget_of a) s)
      as [(Hrun & Hs)|[(Hrun & _)|(Hrun & sel & Hsel & Hv)]].
    + exfalso. destruct Hs as [Hs|(sel & Hsel & Hv & Hne)]; [contradiction|].
      destruct Hbad as [Hbad|(sel' & Hsel' & Hfalse)].
      * rewrite Hsel in Hbad. discriminate.
      * rewrite Hsel in Hsel'. injection Hsel' as <-.
        unfold completion, validCSSSelector, querySelector, querySelectorAll in Hfalse.
        rewrite Hv in Hfalse. unfold bind, gets, ret in Hfalse. simpl in Hfalse.
        destruct (select (document s) None sel); [contradiction | discriminate].
    + rewrite (bind_abrupt _ _ _ _ _ Hrun) in Hm. injection Hm as <- <-.
      split; [exists SrcTargetError; auto | reflexivity].
    + exfalso. destruct Hbad as [Hbad|(sel' & Hsel' & Hfalse)].
      * rewrite Hsel in Hbad. discriminate.
      * rewrite Hsel in Hsel'. injection Hsel' as <-.
        unfold completion, validCSSSelector, querySelector, querySelectorAll in Hfalse.
        rewrite Hv in Hfalse. discriminate.
Qed.

(** *** Shapes of the states a call reaches *)

Lemma assign_outcome els urls i s :
  exists d c,
    assign_lazyUrls els urls i s = (with_document d s, c)
    /\ (c = Normal tt \/ c = Abrupt TypeError \/ c = Abrupt ImagePathError).
Proof.
  revert i s. induction urls as [|u urls IH]; intros i s; simpl.
  - exists (document s), (Normal tt). split; [now destruct s | auto].
  - destruct u;
      try (exists (document s), (Abrupt ImagePathError); split; [now destruct s | auto]).
    destruct (els !! i) as [el|].
    2:{ exists (document s), (Abrupt TypeError). split; [now destruct s | auto]. }
    unfold bind. rewrite update_element_document.
    destruct (IH (S i) (with_document
                          (<[el := set_dataset_lazyUrl s0 (element s el)]>
                             (document s)) s)) as (d & c & Hrun & Hc).
    exists d, c. rewrite Hrun. auto.
Qed.

(** An accepted [media] call ends normally, in a TypeError or in the
    image-path error; it has added one observer, made it the current one,
    and written to the document and to that observer's targets only. *)
Lemma media_accepted_shape a s :
  media_accepted a s ->
  exists d ts c,
    media a s =
    (mkState (Some (length (observers s)))
             (this_options (state_after (reconfigure (options_of a)) s)) d
             (observers s
              ++ [Observer.mk (RenderMedia (attr_of a))
                    (this_options (state_after (reconfigure (options_of a)) s)) ts])
             (calls s), c)
    /\ (c = Normal tt \/ c = Abrupt TypeError \/ c = Abrupt ImagePathError).
Proof.
  intros Hacc. rewrite (media_run a s Hacc).
  set (loop := match lazyUrls_of a with
               | VArray urls => assign_lazyUrls (resolved a s) urls 0
               | _ => ret tt
               end).
  assert (Hloop : exists d c, loop (media_prepared a s)
                              = (with_document d (media_prepared a s), c)
                              /\ (c = Normal tt \/ c = Abrupt TypeError
                                  \/ c = Abrupt ImagePathError)).
  { subst loop. destruct (lazyUrls_of a);
      try (exists (document s), (Normal tt); split; [reflexivity | auto]).
    apply assign_outcome. }
  destruct Hloop as (d & c & Hrun & Hc). unfold bind. rewrite Hrun.
  destruct c as [[]|t].
  - rewrite forEach_observe. unfold update_observer, modify, with_document, media_prepared.
    cbn [this_observer this_options observers calls document fst snd].
    rewrite alter_app_r_alt by lia. rewrite Nat.sub_diag. simpl.
    eexists d, _, (Normal tt). split; [reflexivity | auto].
  - exists d, [], (Abrupt t). split; [reflexivity | exact Hc].
Qed.

(** The reconfiguration step leaves the state alone but for [#options],
    and leaves [#options] alone when the options do not differ from the
    defaults. *)
Lemma reconfigure_frame o s :
  exists i,
    state_after (reconfigure o) s
    = mkState (this_observer s) i (document s) (observers s) (calls s)
    /\ (differs_from_defaults (read_options o) = false -> i = this_options s)
    /\ (completion (reconfigure o) s <> Normal tt -> i = this_options s).
Proof.
  unfold state_after, completion.
  destruct (reconfigure_cases o s)
    as [(_ & ->)|[(_ & t & -> & _)|(_ & i & -> & Hi & _)]].
  - exists (this_options s). simpl. now rewrite state_eta.
  - exists (this_options s). simpl. now rewrite state_eta.
  - exists i. simpl. split; [reflexivity|]. split; [exact Hi|]. intros H. now contradiction H.
Qed.

(** Whatever its outcome, a call leaves [#options] as it was or as the
    reconfiguration step left it. *)
Lemma media_options a s :
  this_options (state_after (media a) s) = this_options s
  \/ this_options (state_after (media a) s)
     = this_options (state_after (reconfigure (options_of a)) s).
Proof.
  unfold state_after at 1 2.
  destruct (media_outcomes a s)
    as [Hm|[Hm|[Hm|[Hm|[(Ho & Hm)|[(t & Hm & Hc)|[(t & Hr & _ & Hm)|[Hm|Hacc]]]]]]]];
    try (rewrite Hm; now left); try (rewrite Hm; now right).
  destruct (media_accepted_shape a s Hacc) as (d & ts & c & -> & _). now right.
Qed.

Lemma execute_options a s :
  this_options (state_after (execute a) s) = this_options s
  \/ this_options (state_after (execute a) s)
     = this_options (state_after (reconfigure (execute_options_of a)) s).
Proof.
  unfold state_after at 1 2.
  destruct (execute_cases a s)
    as [(target & f & _ & _ & _ & _ & ->)|[(t & -> & _)|(t & _ & _ & ->)]];
    [now right | now left | now right].
Qed.

(** C8, as amended.  A call to [media] or [execute] whose options are
    omitted, or have a null root, a zero margin and a zero threshold,
    leaves the stored configuration as it was, whether the call completes
    or not: the options are not validated again, and the configuration is
    replaced only when a supplied value differs from these defaults.  The
    observer handle is replaced all the same: each call that completes has
    created one more observer, from the configuration stored by then, and
    made it the current one.  Options that leave the root undefined differ
    from the defaults, although their root is absent: they are validated
    and the configuration built from them replaces the stored one. *)
Theorem default_options_keep_configuration :
  (forall (a : MediaArgs.t) (s : State),
      (explicit_defaults (MediaArgs.options a) ->
       reconfigure (options_of a) s = (s, Normal tt)
       /\ this_options (state_after (media a) s) = this_options s)
      /\ (this_options (state_after (media a) s) <> this_options s ->
          differs_from_defaults (read_options (options_of a)) = true)
      /\ (completion (media a) s = Normal tt ->
          this_observer (state_after (media a) s) = Some (length (observers s))
          /\ exists ts,
               observers (state_after (media a) s)
               = observers s
                 ++ [Observer.mk (RenderMedia (attr_of a))
                                 (this_options (state_after (media a) s)) ts]))
  /\ (forall (a : ExecuteArgs.t) (s : State),
      (explicit_defaults (ExecuteArgs.options a) ->
       reconfigure (execute_options_of a) s = (s, Normal tt)
       /\ this_options (state_after (execute a) s) = this_options s)
      /\ (this_options (state_after (execute a) s) <> this_options s ->
          differs_from_defaults (read_options (execute_options_of a)) = true)
      /\ (completion (execute a) s = Normal tt ->
          this_observer (state_after (execute a) s) = Some (length (observers s))
          /\ exists f ts,
               observers (state_after (execute a) s)
               = observers s
                 ++ [Observer.mk (HandleFunctionExecution f)
                                 (this_options (state_after (execute a) s)) ts]))
  /\ (forall (options : JSValue) (s : State) (b : Q),
      property "root" options = VUndefined ->
      property "loadBefore" options = VNumber b -> (b == 0)%Q ->
      is_zero (property "loadAfter" options) ->
      all_defaults options /\ ~ explicit_defaults options
      /\ reconfigure options s
         = (mkState (this_observer s)
                    (Some (Init.mk VNull (NumberToString b +:+ "px")
                                   (property "loadAfter" options)))
                    (document s) (observers s) (calls s),
            Normal tt)).
Proof.
  split; [|split].
  - intros a s. split; [|split].
    + intros Hd. apply explicit_defaults_guard in Hd as [Hna Hd].
      pose proof (reconfigure_keeps_defaults _ s Hna Hd) as Hk.
      change (or_default default_options (MediaArgs.options a)) with (options_of a) in Hk.
      split; [exact Hk|].
      destruct (media_options a s) as [H|H]; [exact H|].
      rewrite H. unfold state_after. now rewrite Hk.
    + intros Hne. destruct (differs_from_defaults _) eqn:E; [reflexivity|].
      exfalso. apply Hne.
      destruct (media_options a s) as [H|H]; [exact H|].
      rewrite H. destruct (reconfigure_frame (options_of a) s) as (i & -> & Hi & _).
      simpl. now apply Hi.
    + intros Hn. unfold completion, state_after in *.
      destruct (media_outcomes a s)
        as [Hm|[Hm|[Hm|[Hm|[(Ho & Hm)|[(t & Hm & Hc)|[(t & Hr & _ & Hm)|[Hm|Hacc]]]]]]]];
        try (rewrite Hm in Hn; discriminate).
      destruct (media_accepted_shape a s Hacc) as (d & ts & c & -> & _).
      simpl. split; [reflexivity | eauto].
  - intros a s. split; [|split].
    + intros Hd. apply explicit_defaults_guard in Hd as [Hna Hd].
      pose proof (reconfigure_keeps_defaults _ s Hna Hd) as Hk.
      change (or_default default_options (ExecuteArgs.options a))
        with (execute_options_of a) in Hk.
      split; [exact Hk|].
      destruct (execute_options a s) as [H|H]; [exact H|].
      rewrite H. unfold state_after. now rewrite Hk.
    + intros Hne. destruct (differs_from_defaults _) eqn:E; [reflexivity|].
      exfalso. apply Hne.
      destruct (execute_options a s) as [H|H]; [exact H|].
      rewrite H. destruct (reconfigure_frame (execute_options_of a) s) as (i & -> & Hi & _).
      simpl. now apply Hi.
    + intros Hn. unfold completion, state_after in *.
      destruct (execute_cases a s)
        as [(target & f & _ & _ & _ & _ & Hm)|[(t & Hm & _)|(t & _ & _ & Hm)]];
        try (rewrite Hm in Hn; discriminate).
      rewrite Hm. unfold execute_done. simpl. split; [reflexivity | eauto].
  - intros options s b Hr Hb Eb (qa & Ha & Ea).
    assert (Hobj : exists props, options = VObject props).
    { destruct options; try discriminate Hb. eauto. }
    destruct Hobj as (props & ->).
    split; [|split].
    + right. split; [discriminate|]. split; [right; exact Hr|].
      split; [exists b; auto | exists qa; auto].
    + intros [H|(_ & H & _)]; [discriminate | congruence].
    + rewrite reconfigure_read. unfold when, differs_from_defaults, read_options.
      cbn [Options.root Options.loadBefore Options.loadAfter]. rewrite Hr, Hb, Ha.
      cbn [strict_ne_null is_null negb orb].
      destruct (config_cases (Options.mk VUndefined (VNumber b) (VNumber qa)) s)
        as [(t & _ & _ & Hrej)|(n & Hn & _ & _ & _ & ->)].
      * exfalso. cbn [Options.root Options.loadBefore Options.loadAfter or_default] in Hrej.
        destruct (zero_passes b Eb) as (Hb0 & _ & _).
        destruct (zero_passes qa Ea) as (Ha0 & Ha1 & _).
        destruct Hrej as [[H _]|[H|H]].
        -- now apply H.
        -- apply loadBefore_guard_true in H. revert H. unfold loadBefore_guard. simpl.
           rewrite Hb0. discriminate.
        -- apply loadAfter_guard_true in H. revert H. unfold loadAfter_guard. simpl.
           rewrite Ha0, Ha1. discriminate.
      * cbn [Options.root Options.loadBefore Options.loadAfter or_default] in Hn |- *.
        injection Hn as <-. reflexivity.
Qed.

(** *** The media handler, record by record *)

Lemma sourced_clears_locator attr path el el' :
  sourced attr path el = Some el' -> dataset_lazyUrl el' = None.
Proof.
  unfold sourced, dataset_lazyUrl, getAttribute, without_attribute.
  destruct attr as [| | | |[|c name]| | | |];
    try (intros [= <-]; simpl; apply lookup_delete_eq).
  destruct (attribute_name (String c name)); [|discriminate].
  intros [= <-]. simpl. apply lookup_delete_eq.
Qed.

Lemma renderMedia_entry_with_locator attr o e s path el' :
  or_null (dataset_lazyUrl (element s e)) = Some path ->
  sourced attr path (element s e) = Some el' ->
  renderMedia_entry attr o (Entry.mk true e) s = (rendered o e el' s, Normal tt).
Proof.
  intros H Hs. unfold renderMedia_entry. simpl. unfold bind at 1, gets. rewrite H.
  assert (Hgen : forall el1,
             el' = without_attribute lazy_url_attribute el1 ->
             (update_element e (fun _ => el1) ;;
              removeAttribute e lazy_url_attribute ;; unobserve o e) s
             = (rendered o e el' s, Normal tt)).
  { intros el1 ->.
    unfold bind, removeAttribute, update_element, unobserve, update_observer, modify, rendered.
    cbn [this_observer this_options observers calls document fst snd].
    do 2 f_equal. unfold element at 1. simpl.
    rewrite lookup_insert_eq. simpl. apply insert_insert_eq. }
  unfold sourced in Hs. unfold set_source, setAttribute, set_src.
  destruct attr as [| | | |[|c name]| | | |];
    try (injection Hs as <-; exact (Hgen _ eq_refl)).
  destruct (attribute_name (String c name)) as [key|]; [|discriminate].
  injection Hs as <-. exact (Hgen _ eq_refl).
Qed.

Lemma renderMedia_entry_refused attr o e s path :
  or_null (dataset_lazyUrl (element s e)) = Some path ->
  sourced attr path (element s e) = None ->
  renderMedia_entry attr o (Entry.mk true e) s = (s, Abrupt InvalidCharacterError).
Proof.
  intros H Hs. unfold renderMedia_entry. simpl. unfold bind at 1, gets. rewrite H.
  unfold sourced in Hs. unfold set_source, setAttribute.
  destruct attr as [| | | |[|c name]| | | |]; try discriminate.
  destruct (attribute_name (String c name)) as [key|]; [discriminate | reflexivity].
Qed.

Lemma renderMedia_entry_cases attr o en s :
  (Entry.isIntersecting en = false
   /\ renderMedia_entry attr o en s = (s, Normal tt))
  \/ (Entry.isIntersecting en = true
      /\ or_null (dataset_lazyUrl (element s (Entry.target en))) = None
      /\ renderMedia_entry attr o en s = (s, Abrupt LazyUrlError))
  \/ (exists path,
         Entry.isIntersecting en = true
         /\ or_null (dataset_lazyUrl (element s (Entry.target en))) = Some path
         /\ sourced attr path (element s (Entry.target en)) = None
         /\ renderMedia_entry attr o en s = (s, Abrupt InvalidCharacterError))
  \/ (exists path el',
         Entry.isIntersecting en = true
         /\ or_null (dataset_lazyUrl (element s (Entry.target en))) = Some path
         /\ sourced attr path (element s (Entry.target en)) = Some el'
         /\ renderMedia_entry attr o en s =
            (rendered o (Entry.target en) el' s, Normal tt)).
Proof.
  destruct en as [[] e]; simpl.
  - destruct (or_null (dataset_lazyUrl (element s e))) as [path|] eqn:E.
    + destruct (sourced attr path (element s e)) as [el'|] eqn:Es.
      * right. right. right. exists path, el'.
        repeat split; [exact Es | now apply (renderMedia_entry_with_locator _ _ _ _ path)].
      * right. right. left. exists path.
        repeat split; [exact Es | now apply (renderMedia_entry_refused _ _ _ _ path)].
    + right. left. auto using renderMedia_entry_without_locator.
  - left. auto.
Qed.

Lemma element_rendered o e el' s e' :
  element (rendered o e el' s) e' = if decide (e = e') then el' else element s e'.
Proof.
  unfold element at 1, rendered. simpl.
  destruct (decide (e = e')) as [->|Hne].
  - now rewrite lookup_insert_eq.
  - now rewrite lookup_insert_ne.
Qed.

Lemma targets_of_rendered o e el' s o' :
  targets_of (rendered o e el' s) o' =
  if decide (o = o') then filter (fun x => x <> e) (targets_of s o')
  else targets_of s o'.
Proof.
  unfold targets_of, rendered. simpl. rewrite list_lookup_alter.
  destruct (decide (o = o')) as [->|]; [|reflexivity].
  now destruct (observers s !! o').
Qed.

Lemma reported_cons_in ts en batch :
  Entry.target en ∈ ts -> reported ts (en :: batch) = en :: reported ts batch.
Proof. intros H. unfold reported. now rewrite filter_cons_True. Qed.

Lemma or_null_set_locator c p el :
  or_null (dataset_lazyUrl (set_dataset_lazyUrl (String c p) el))
  = Some (String c p).
Proof.
  unfold dataset_lazyUrl, set_dataset_lazyUrl, getAttribute, with_attribute. simpl.
  now rewrite lookup_insert_eq.
Qed.

Lemma filter_not_in_nil (ts : list Elem) :
  filter (fun e : Elem => e ∉ @nil Elem) ts = ts.
Proof.
  induction ts as [|x ts IH]; [reflexivity|].
  rewrite filter_cons_True by apply not_elem_of_nil. now rewrite IH.
Qed.

(** A batch in which no target is reported intersecting twice and every
    target so reported carries a locator and can receive it: the handler
    completes, each of these targets has received its own locator and is
    dropped from the observer, and nothing else has changed. *)
Lemma renderMedia_renders_all attr o entries s :
  NoDup (intersecting_targets entries) ->
  (forall e, e ∈ intersecting_targets entries ->
     exists path el', or_null (dataset_lazyUrl (element s e)) = Some path
                      /\ sourced attr path (element s e) = Some el') ->
  let s' := state_after (renderMedia attr entries o) s in
  completion (renderMedia attr entries o) s = Normal tt
  /\ (forall e path, e ∈ intersecting_targets entries ->
        or_null (dataset_lazyUrl (element s e)) = Some path ->
        Some (element s' e) = sourced attr path (element s e))
  /\ (forall e, e ∉ intersecting_targets entries -> element s' e = element s e)
  /\ (forall o', targets_of s' o' =
        if decide (o = o')
        then filter (fun e => e ∉ intersecting_targets entries) (targets_of s o')
        else targets_of s o').
Proof.
  unfold renderMedia, completion, state_after, intersecting_targets.
  revert s. induction entries as [|[[] e] entries IH]; intros s Hnd Hloc.
  - simpl. split; [reflexivity|]. split; [intros e path H; now apply elem_of_nil in H|].
    split; [reflexivity|]. intros o'. destruct (decide (o = o')); [|reflexivity].
    symmetry. apply filter_not_in_nil.
  - rewrite filter_cons_True in Hnd, Hloc |- * by reflexivity.
    rewrite fmap_cons in Hnd, Hloc |- *. cbn [Entry.target] in *.
    apply NoDup_cons in Hnd as [Hfresh Hnd].
    destruct (Hloc e) as (path & el' & Hp & Hs); [now left|].
    cbn [forEach]. unfold bind.
    rewrite (renderMedia_entry_with_locator attr o e s path el' Hp Hs).
    destruct (IH (rendered o e el' s) Hnd) as (Hc & Hin & Hout & Hts).
    { intros x Hx. rewrite element_rendered.
      rewrite decide_False by (intros ->; contradiction). apply Hloc. now right. }
    split; [exact Hc|]. split; [|split].
    + intros x p Hx Hxp. apply elem_of_cons in Hx as [->|Hx].
      * rewrite (Hout e Hfresh), element_rendered, decide_True by reflexivity.
        rewrite Hp in Hxp. injection Hxp as <-. now rewrite Hs.
      * assert (Hne : e <> x) by (intros ->; contradiction).
        rewrite (Hin x p Hx); rewrite element_rendered, decide_False by exact Hne;
          [reflexivity | exact Hxp].
    + intros x Hx. apply not_elem_of_cons in Hx as [Hne Hx].
      rewrite (Hout x Hx), element_rendered. rewrite decide_False; [reflexivity|].
      intros ->. now apply Hne.
    + intros o'. rewrite Hts, targets_of_rendered.
      destruct (decide (o = o')); [|reflexivity].
      rewrite list_filter_filter. apply list_filter_iff.
      intros x. rewrite not_elem_of_cons. tauto.
  - rewrite filter_cons_False in Hnd, Hloc |- * by discriminate.
    cbn [forEach]. unfold bind. unfold renderMedia_entry at 1 3 5 7. cbn [Entry.isIntersecting].
    apply IH; assumption.
Qed.

(** *** Claims about the media handler *)


(** C6, as amended.  Within a batch the media handler handles the
    records in the order delivered, up to the first record that raises:
    that record changes nothing, the handler ends there with its error,
    and the records after it are not handled, whatever they are.  A
    record raises MissingResourceLocator exactly when its target carries
    no locator; the only other error is the platform's refusal of the
    attribute name.  When no record raises, every record of the batch is
    handled, in order. *)
Theorem renderMedia_handles_until_error (attr : JSValue) (o : ObserverRef) (s : State) :
  (forall (before : list Entry.t) (entry : Entry.t) (after : list Entry.t)
          (s1 s2 : State) (t : Thrown),
      renderMedia attr before o s = (s1, Normal tt) ->
      renderMedia_entry attr o entry s1 = (s2, Abrupt t) ->
      (t = LazyUrlError \/ t = InvalidCharacterError) /\ s2 = s1
      /\ (t = LazyUrlError
          <-> or_null (dataset_lazyUrl (element s1 (Entry.target entry))) = None)
      /\ s1 = every_record attr o before s
      /\ renderMedia attr (before ++ entry :: after) o s = (s1, Abrupt t))
  /\ (forall entries : list Entry.t,
      completion (renderMedia attr entries o) s = Normal tt ->
      state_after (renderMedia attr entries o) s = every_record attr o entries s).
Proof.
  assert (Hall : forall entries s0,
             completion (renderMedia attr entries o) s0 = Normal tt ->
             state_after (renderMedia attr entries o) s0 = every_record attr o entries s0).
  { unfold renderMedia, completion, state_after, every_record.
    induction entries as [|en entries IH]; intros s0 Hn; [reflexivity|].
    simpl in *. unfold bind, state_after in *.
    destruct (renderMedia_entry attr o en s0) as [s1 [[]|t]]; simpl in *.
    - now apply IH.
    - discriminate. }
  split; [|intros entries; apply Hall].
  intros before entry after s1 s2 t Hb He.
  assert (Ht : (t = LazyUrlError \/ t = InvalidCharacterError) /\ s2 = s1
               /\ (t = LazyUrlError
                   <-> or_null (dataset_lazyUrl (element s1 (Entry.target entry))) = None)).
  { destruct (renderMedia_entry_cases attr o entry s1)
      as [(_ & H)|[(_ & Hn & H)|[(path & _ & Hp & _ & H)|(path & el' & _ & _ & _ & H)]]];
      rewrite H in He; try discriminate; injection He as <- <-.
    - split; [now left|]. split; [reflexivity|]. tauto.
    - split; [now right|]. split; [reflexivity|].
      rewrite Hp. split; discriminate. }
  destruct Ht as (Ht & -> & Hiff).
  split; [exact Ht|]. split; [reflexivity|]. split; [exact Hiff|]. split.
  - rewrite <- Hall; unfold completion, state_after; now rewrite Hb.
  - unfold renderMedia in *. rewrite forEach_app, (bind_normal _ _ _ _ _ Hb).
    simpl. unfold bind. now rewrite He.
Qed.

(** *** What the calls and the caller's code leave alone *)

Lemma appended_refl s : appended s s.
Proof. split; [reflexivity|]. exists []. now rewrite app_nil_r. Qed.

Lemma appended_trans s1 s2 s3 : appended s1 s2 -> appended s2 s3 -> appended s1 s3.
Proof.
  intros (Hc & a1 & H1) (Hc' & a2 & H2). split; [congruence|].
  exists (a1 ++ a2). now rewrite H2, H1, app_assoc.
Qed.

Lemma media_appended a s : appended s (state_after (media a) s).
Proof.
  unfold state_after.
  destruct (media_outcomes a s)
    as [Hm|[Hm|[Hm|[Hm|[(Ho & Hm)|[(t & Hm & Hc)|[(t & Hr & _ & Hm)|[Hm|Hacc]]]]]]]];
    try (rewrite Hm; apply appended_refl).
  - rewrite Hm. destruct (reconfigure_frame (options_of a) s) as (i & -> & _).
    simpl. split; [reflexivity|]. exists []. simpl. now rewrite app_nil_r.
  - rewrite Hm. simpl. split; [reflexivity|]. simpl. eauto.
  - destruct (media_accepted_shape a s Hacc) as (d & ts & c & -> & _).
    simpl. split; [reflexivity|]. simpl. eauto.
Qed.

Lemma execute_appended a s : appended s (state_after (execute a) s).
Proof.
  unfold state_after.
  destruct (execute_cases a s)
    as [(target & f & _ & _ & _ & _ & ->)|[(t & -> & _)|(t & _ & _ & ->)]].
  - simpl. split; [reflexivity|]. simpl. eauto.
  - apply appended_refl.
  - destruct (reconfigure_frame (execute_options_of a) s) as (i & -> & _).
    simpl. split; [reflexivity|]. exists []. simpl. now rewrite app_nil_r.
Qed.

(** A call with [null] as its argument ends in a TypeError before any
    check; with any other argument the properties are read and the body
    of the method is run. *)
Lemma call_media_read argument s :
  (argument = VNull /\ call_media argument s = (s, Abrupt TypeError))
  \/ (argument <> VNull /\ exists a, call_media argument s = media a s
      /\ a = MediaArgs.mk (property "wrapper" argument) (property "srcTarget" argument)
                          (property "attr" argument) (property "lazyUrls" argument)
                          (property "options" argument)).
Proof.
  unfold call_media, media_parameters.
  destruct argument; try (right; split; [discriminate|]; eexists; split; reflexivity).
  left. split; reflexivity.
Qed.

Lemma call_execute_read argument s :
  (argument = VNull /\ call_execute argument s = (s, Abrupt TypeError))
  \/ (argument <> VNull /\ exists a, call_execute argument s = execute a s
      /\ a = ExecuteArgs.mk (property "viewportEntry" argument)
                            (property "exeFn" argument) (property "options" argument)).
Proof.
  unfold call_execute, execute_parameters.
  destruct argument; try (right; split; [discriminate|]; eexists; split; reflexivity).
  left. split; reflexivity.
Qed.

Lemma statement_appended st s : appended s (state_after (statement st) s).
Proof.
  destruct st as [argument|argument|e f|t]; unfold state_after; simpl.
  - destruct (call_media_read argument s) as [(_ & ->)|(_ & a & -> & _)];
      [apply appended_refl | apply media_appended].
  - destruct (call_execute_read argument s) as [(_ & ->)|(_ & a & -> & _)];
      [apply appended_refl | apply execute_appended].
  - split; [reflexivity|]. exists []. simpl. now rewrite app_nil_r.
  - apply appended_refl.
Qed.

Lemma body_appended sts s : appended s (state_after (forEach statement sts) s).
Proof.
  revert s. induction sts as [|st sts IH]; intros s; [apply appended_refl|].
  pose proof (statement_appended st s) as Hst.
  unfold state_after in *. simpl. unfold bind.
  destruct (statement st s) as [s1 [[]|t]]; simpl in *; [|exact Hst].
  eapply appended_trans; [exact Hst | apply IH].
Qed.

(** An invocation is recorded once, whatever the function does. *)
Lemma call_frame f s :
  calls (state_after (call f) s) = calls s ++ [f]
  /\ exists added, observers (state_after (call f) s) = observers s ++ added.
Proof.
  unfold call, state_after, bind, log_call, modify.
  destruct (body_appended (body f)
              (mkState (this_observer s) (this_options s) (document s) (observers s)
                       (calls s ++ [f]))) as (Hc & added & Ho).
  unfold state_after in *.
  destruct (forEach statement (body f) _) as [s1 [[]|t]]; simpl in *; eauto.
Qed.

(** *** Observers only lose targets *)

Lemma shrunk_refl ob : shrunk ob ob.
Proof. split; [reflexivity|]. split; [reflexivity|]. now intros x Hx. Qed.

Lemma shrunk_trans ob1 ob2 ob3 : shrunk ob1 ob2 -> shrunk ob2 ob3 -> shrunk ob1 ob3.
Proof.
  intros (Hc & Hi & Ht) (Hc' & Hi' & Ht').
  split; [congruence|]. split; [congruence|].
  intros x Hx. apply Ht, Ht', Hx.
Qed.

Lemma shrunk_all_refl (obs : list Observer.t) : Forall2 shrunk obs obs.
Proof. apply Forall_Forall2_diag, Forall_forall. intros ob _. apply shrunk_refl. Qed.

Lemma shrunk_all_trans (l1 l2 l3 : list Observer.t) :
  Forall2 shrunk l1 l2 -> Forall2 shrunk l2 l3 -> Forall2 shrunk l1 l3.
Proof.
  intros H12 H23. apply Forall2_same_length_lookup. split.
  - apply Forall2_length in H12, H23. congruence.
  - intros i x z Hx Hz.
    destruct (Forall2_lookup_l _ _ _ _ _ H12 Hx) as (y & Hy & Hxy).
    eapply shrunk_trans; [exact Hxy|]. eapply Forall2_lookup_lr; eassumption.
Qed.

Lemma only_unregistered_refl s : only_unregistered s s.
Proof.
  split; [reflexivity|]. split; [reflexivity|]. apply shrunk_all_refl.
Qed.

Lemma only_unregistered_trans s1 s2 s3 :
  only_unregistered s1 s2 -> only_unregistered s2 s3 -> only_unregistered s1 s3.
Proof.
  intros (Ho & Hp & Hf) (Ho' & Hp' & Hf').
  split; [congruence|]. split; [congruence|].
  eapply shrunk_all_trans; eassumption.
Qed.

Lemma unobserve_shrinks (obs : list Observer.t) o e :
  Forall2 shrunk obs
    (alter (fun ob => Observer.mk (Observer.callback ob) (Observer.init ob)
                        (filter (fun x => x <> e) (Observer.targets ob))) o obs).
Proof.
  apply Forall2_alter_r.
  - apply shrunk_all_refl.
  - intros x y _ _ (Hc & Hi & Ht).
    split; [exact Hc|]. split; [exact Hi|]. simpl.
    intros z Hz. apply list_elem_of_filter in Hz as [_ Hz]. now apply Ht.
Qed.

Lemma observers_kept_refl s : observers_kept s s.
Proof. exists (observers s), []. split; [now rewrite app_nil_r | apply shrunk_all_refl]. Qed.

Lemma observers_kept_trans s1 s2 s3 :
  observers_kept s1 s2 -> observers_kept s2 s3 -> observers_kept s1 s3.
Proof.
  intros (k1 & a1 & H1 & F1) (k2 & a2 & H2 & F2).
  rewrite H1 in F2. apply Forall2_app_inv_l in F2 as (k2a & k2b & Fa & Fb & ->).
  exists k2a, (k2b ++ a2). split; [now rewrite H2, app_assoc|].
  eapply shrunk_all_trans; eassumption.
Qed.

Lemma appended_kept s s' : appended s s' -> observers_kept s s'.
Proof.
  intros (_ & added & H). exists (observers s), added. split; [exact H | apply shrunk_all_refl].
Qed.

Lemma only_unregistered_kept s s' : only_unregistered s s' -> observers_kept s s'.
Proof.
  intros (_ & _ & H). exists (observers s'), []. split; [now rewrite app_nil_r | exact H].
Qed.

Lemma unobserve_kept o e s : observers_kept s (state_after (unobserve o e) s).
Proof.
  exists (observers (state_after (unobserve o e) s)), [].
  split; [now rewrite app_nil_r | apply unobserve_shrinks].
Qed.

(** An observer that exists keeps its callback and its options, and
    holds no target it did not hold. *)
Lemma observers_kept_lookup s s' o ob :
  observers_kept s s' -> observers s !! o = Some ob ->
  exists ob', observers s' !! o = Some ob' /\ shrunk ob ob'.
Proof.
  intros (kept & added & H & F) Ho.
  destruct (Forall2_lookup_l _ _ _ _ _ F Ho) as (ob' & Hob' & Hs).
  exists ob'. split; [|exact Hs]. rewrite H. now apply lookup_app_l_Some.
Qed.

Lemma observers_kept_targets s s' o e :
  observers_kept s s' -> o < length (observers s) ->
  e ∈ targets_of s' o -> e ∈ targets_of s o.
Proof.
  intros Hk Ho. apply lookup_lt_is_Some in Ho as (ob & Hob).
  destruct (observers_kept_lookup s s' o ob Hk Hob) as (ob' & Hob' & _ & _ & Hts).
  unfold targets_of. rewrite Hob, Hob'. simpl. apply Hts.
Qed.

Lemma observers_kept_length s s' :
  observers_kept s s' -> length (observers s) <= length (observers s').
Proof.
  intros (kept & added & -> & F). apply Forall2_length in F.
  rewrite length_app. lia.
Qed.

Lemma only_unregistered_rendered o e el' s :
  only_unregistered s (rendered o e el' s).
Proof.
  split; [reflexivity|]. split; [reflexivity|]. apply unobserve_shrinks.
Qed.

Lemma renderMedia_only_unregisters attr o batch s :
  only_unregistered s (state_after (renderMedia attr batch o) s).
Proof.
  unfold renderMedia, state_after. revert s.
  induction batch as [|en batch IH]; intros s; [apply only_unregistered_refl|].
  simpl. unfold bind.
  destruct (renderMedia_entry_cases attr o en s)
    as [(_ & ->)|[(_ & _ & ->)|[(path & _ & _ & _ & ->)|(path & el' & _ & _ & _ & ->)]]].
  - apply IH.
  - apply only_unregistered_refl.
  - apply only_unregistered_refl.
  - eapply only_unregistered_trans; [apply only_unregistered_rendered | apply IH].
Qed.

Lemma call_kept f s : observers_kept s (state_after (call f) s).
Proof.
  destruct (call_frame f s) as (_ & added & H).
  exists (observers s), added. split; [exact H | apply shrunk_all_refl].
Qed.

Lemma handleFunctionExecution_entry_kept f o en s :
  observers_kept s (state_after (handleFunctionExecution_entry f o en) s).
Proof.
  unfold handleFunctionExecution_entry, state_after.
  destruct (Entry.isIntersecting en); [|apply observers_kept_refl].
  pose proof (call_kept f s) as Hc. unfold bind, state_after in *.
  destruct (call f s) as [s1 [[]|t]]; simpl in *; [|exact Hc].
  eapply observers_kept_trans; [exact Hc | apply unobserve_kept].
Qed.

Lemma handleFunctionExecution_kept f o batch s :
  observers_kept s (state_after (handleFunctionExecution f batch o) s).
Proof.
  unfold handleFunctionExecution. revert s.
  induction batch as [|en batch IH]; intros s; [apply observers_kept_refl|].
  pose proof (handleFunctionExecution_entry_kept f o en s) as Hen.
  unfold state_after in *. simpl. unfold bind.
  destruct (handleFunctionExecution_entry f o en s) as [s1 [[]|t]]; simpl in *;
    [|exact Hen].
  eapply observers_kept_trans; [exact Hen | apply IH].
Qed.

Lemma deliver_kept o batch s : observers_kept s (state_after (deliver o batch) s).
Proof.
  unfold state_after, deliver.
  destruct (observers s !! o) as [[[attr|f] i ts]|]; simpl.
  - apply only_unregistered_kept, renderMedia_only_unregisters.
  - apply handleFunctionExecution_kept.
  - apply observers_kept_refl.
Qed.

Lemma run_kept events s : observers_kept s (run events s).
Proof.
  revert s. induction events as [|ev events IH]; intros s; [apply observers_kept_refl|].
  simpl. eapply observers_kept_trans; [|apply IH].
  destruct ev as [st|o batch]; simpl.
  - apply appended_kept, statement_appended.
  - apply deliver_kept.
Qed.

(** *** The object stays configured *)

Lemma reconfigure_keeps_options_set o s :
  is_Some (this_options s) ->
  is_Some (this_options (state_after (reconfigure o) s)).
Proof.
  intros Hs. unfold state_after.
  destruct (reconfigure_cases o s)
    as [(_ & ->)|[(_ & t & -> & _)|(_ & i & -> & Hi & Hd)]]; try exact Hs.
  simpl. destruct (differs_from_defaults (read_options o)).
  - now apply Hd.
  - now rewrite Hi.
Qed.

Lemma configured_with_new_observer s options d cb ts c :
  configured s -> is_Some options ->
  configured (mkState (Some (length (observers s))) options d
                      (observers s ++ [Observer.mk cb options ts]) c).
Proof.
  intros (_ & Hall & _) Ho. split; [exact Ho|]. split; simpl.
  - apply Forall_app. split; [exact Hall|]. now repeat constructor.
  - intros o [= <-]. rewrite length_app. simpl. lia.
Qed.

Lemma reconfigure_configured o s :
  configured s -> configured (state_after (reconfigure o) s).
Proof.
  intros Hc. pose proof (reconfigure_keeps_options_set o s (proj1 Hc)) as Hopt.
  destruct (reconfigure_frame o s) as (i & Hs & _). rewrite Hs in Hopt |- *.
  destruct Hc as (_ & Hall & Href). split; [exact Hopt|]. split; assumption.
Qed.

Lemma media_configured a s : configured s -> configured (state_after (media a) s).
Proof.
  intros Hc. unfold state_after.
  pose proof (reconfigure_keeps_options_set (options_of a) s (proj1 Hc)) as Hopt.
  destruct (media_outcomes a s)
    as [Hm|[Hm|[Hm|[Hm|[(Ho & Hm)|[(t & Hm & _)|[(t & Hr & _ & Hm)|[Hm|Hacc]]]]]]]];
    try (rewrite Hm; exact Hc).
  - rewrite Hm. simpl. now apply reconfigure_configured.
  - rewrite Hm. simpl. unfold media_prepared.
    now apply configured_with_new_observer.
  - destruct (media_accepted_shape a s Hacc) as (d & ts & c & -> & _). simpl.
    now apply configured_with_new_observer.
Qed.

Lemma execute_configured a s : configured s -> configured (state_after (execute a) s).
Proof.
  intros Hc. unfold state_after.
  pose proof (reconfigure_keeps_options_set (execute_options_of a) s (proj1 Hc)) as Hopt.
  destruct (execute_cases a s)
    as [(target & f & _ & _ & _ & _ & ->)|[(t & -> & _)|(t & _ & _ & ->)]].
  - simpl. unfold execute_done. now apply configured_with_new_observer.
  - exact Hc.
  - simpl. now apply reconfigure_configured.
Qed.

Lemma statement_configured st s :
  configured s -> configured (state_after (statement st) s).
Proof.
  intros Hc. destruct st as [argument|argument|e f|t]; unfold state_after; simpl.
  - destruct (call_media_read argument s) as [(_ & ->)|(_ & a & -> & _)];
      [exact Hc | now apply media_configured].
  - destruct (call_execute_read argument s) as [(_ & ->)|(_ & a & -> & _)];
      [exact Hc | now apply execute_configured].
  - exact Hc.
  - exact Hc.
Qed.

Lemma body_configured sts s :
  configured s -> configured (state_after (forEach statement sts) s).
Proof.
  revert s. induction sts as [|st sts IH]; intros s Hc; [exact Hc|].
  pose proof (statement_configured st s Hc) as Hst.
  unfold state_after in *. simpl. unfold bind.
  destruct (statement st s) as [s1 [[]|t]]; simpl in *; [now apply IH | exact Hst].
Qed.

Lemma call_configured f s : configured s -> configured (state_after (call f) s).
Proof.
  intros Hc. unfold call, state_after, bind, log_call, modify.
  pose proof (body_configured (body f)
                (mkState (this_observer s) (this_options s) (document s) (observers s)
                         (calls s ++ [f])) Hc) as Hb.
  unfold state_after in Hb.
  destruct (forEach statement (body f) _) as [s1 [[]|t]]; exact Hb.
Qed.

Lemma only_unregistered_configured s s' :
  only_unregistered s s' -> configured s -> configured s'.
Proof.
  intros (Ho & Hp & Hf) (Hopt & Hall & Href).
  split; [now rewrite Hp|]. split.
  - apply Forall_forall. intros ob' Hin.
    apply list_elem_of_lookup in Hin as (i & Hi).
    destruct (Forall2_lookup_r _ _ _ _ _ Hf Hi) as (ob & Hob & _ & Hinit & _).
    rewrite Hinit. eapply Forall_lookup_1 in Hall; [exact Hall | exact Hob].
  - intros o' Ho'. rewrite Ho in Ho'. apply Forall2_length in Hf.
    rewrite <- Hf. now apply Href.
Qed.

Lemma unobserve_configured o e s :
  configured s -> configured (state_after (unobserve o e) s).
Proof.
  apply only_unregistered_configured.
  split; [reflexivity|]. split; [reflexivity|]. apply unobserve_shrinks.
Qed.

Lemma handleFunctionExecution_configured f o batch s :
  configured s -> configured (state_after (handleFunctionExecution f batch o) s).
Proof.
  unfold handleFunctionExecution. revert s.
  induction batch as [|en batch IH]; intros s Hc; [exact Hc|].
  assert (Hen : configured (state_after (handleFunctionExecution_entry f o en) s)).
  { unfold handleFunctionExecution_entry, state_after.
    destruct (Entry.isIntersecting en); [|exact Hc].
    pose proof (call_configured f s Hc) as Hcall. unfold bind, state_after in *.
    destruct (call f s) as [s1 [[]|t]]; simpl in *; [|exact Hcall].
    now apply unobserve_configured. }
  unfold state_after in *. simpl. unfold bind.
  destruct (handleFunctionExecution_entry f o en s) as [s1 [[]|t]]; simpl in *;
    [now apply IH | exact Hen].
Qed.

Lemma deliver_configured o batch s :
  configured s -> configured (state_after (deliver o batch) s).
Proof.
  intros Hc. unfold state_after, deliver.
  destruct (observers s !! o) as [[[attr|f] i ts]|]; simpl; [| |exact Hc].
  - eapply only_unregistered_configured; [apply renderMedia_only_unregisters | exact Hc].
  - now apply handleFunctionExecution_configured.
Qed.
(** *** The action of the media handler *)

Lemma sourced_named (name key path : string) (el : Element.t) :
  name <> "" -> attribute_name name = Some key ->
  sourced (VString name) path el
  = Some (without_attribute lazy_url_attribute (with_attribute key path el)).
Proof.
  intros Hne Hk. destruct name as [|c name]; [contradiction|].
  unfold sourced. now rewrite Hk.
Qed.

Lemma sourced_refused (name path : string) (el : Element.t) :
  name <> "" -> attribute_name name = None -> sourced (VString name) path el = None.
Proof.
  intros Hne Hk. destruct name as [|c name]; [contradiction|].
  unfold sourced. now rewrite Hk.
Qed.

Lemma sourced_default (attr : JSValue) (path : string) (el : Element.t) :
  attr = VNull \/ attr = VString "" ->
  sourced attr path el = Some (without_attribute lazy_url_attribute (with_src path el)).
Proof. intros [-> | ->]; reflexivity. Qed.

(** The records before a record that can be handled, and that record. *)
Lemma renderMedia_reaches attr o before after e s s1 path el' :
  renderMedia attr before o s = (s1, Normal tt) ->
  or_null (dataset_lazyUrl (element s1 e)) = Some path ->
  sourced attr path (element s1 e) = Some el' ->
  renderMedia attr (before ++ Entry.mk true e :: after) o s
  = renderMedia attr after o (rendered o e el' s1)
  /\ element (rendered o e el' s1) e = el'
  /\ dataset_lazyUrl el' = None
  /\ e ∉ targets_of (rendered o e el' s1) o.
Proof.
  intros Hb Hp Hs. split; [|split; [|split]].
  - unfold renderMedia in *. rewrite forEach_app, (bind_normal _ _ _ _ _ Hb).
    cbn [forEach]. unfold bind at 1.
    now rewrite (renderMedia_entry_with_locator attr o e s1 path el' Hp Hs).
  - rewrite element_rendered. now rewrite decide_True.
  - eapply sourced_clears_locator. exact Hs.
  - rewrite targets_of_rendered, decide_True by reflexivity.
    intros Hin. apply list_elem_of_filter in Hin as [Hne _]. now apply Hne.
Qed.

Lemma renderMedia_stops attr o before after e s s1 path :
  renderMedia attr before o s = (s1, Normal tt) ->
  or_null (dataset_lazyUrl (element s1 e)) = Some path ->
  sourced attr path (element s1 e) = None ->
  renderMedia attr (before ++ Entry.mk true e :: after) o s
  = (s1, Abrupt InvalidCharacterError).
Proof.
  intros Hb Hp Hs.
  unfold renderMedia in *. rewrite forEach_app, (bind_normal _ _ _ _ _ Hb).
  cbn [forEach]. unfold bind at 1.
  now rewrite (renderMedia_entry_refused attr o e s1 path Hp Hs).
Qed.

(** The handler leaves alone the elements that no record of the batch
    reports as intersecting, and invokes nothing. *)
Lemma renderMedia_elsewhere attr o batch s :
  calls (state_after (renderMedia attr batch o) s) = calls s
  /\ forall e, e ∉ intersecting_targets batch ->
       element (state_after (renderMedia attr batch o) s) e = element s e.
Proof.
  unfold renderMedia, state_after, intersecting_targets. revert s.
  induction batch as [|en batch IH]; intros s; [split; reflexivity|].
  simpl. unfold bind.
  destruct (renderMedia_entry_cases attr o en s)
    as [(Hi & ->)|[(_ & _ & ->)|[(path & _ & _ & _ & ->)|(path & el' & Hi & _ & _ & ->)]]].
  - rewrite filter_cons_False by congruence. apply IH.
  - split; reflexivity.
  - split; reflexivity.
  - rewrite filter_cons_True by exact Hi. rewrite fmap_cons.
    destruct (IH (rendered o (Entry.target en) el' s)) as (Hc & He).
    split; [exact Hc|]. intros e Hne. apply not_elem_of_cons in Hne as [Hne Hrest].
    rewrite (He e Hrest), element_rendered. now rewrite decide_False.
Qed.

(** When no target reported intersecting can receive its locator, the
    handler stops at the first of them and nothing has changed. *)
Lemma renderMedia_refuses attr o entries s :
  intersecting_targets entries <> [] ->
  (forall e, e ∈ intersecting_targets entries ->
     exists path, or_null (dataset_lazyUrl (element s e)) = Some path
                  /\ sourced attr path (element s e) = None) ->
  renderMedia attr entries o s = (s, Abrupt InvalidCharacterError).
Proof.
  unfold renderMedia, intersecting_targets.
  induction entries as [|[[] e] entries IH]; intros Hne Hloc.
  - now contradiction Hne.
  - rewrite filter_cons_True in Hloc by reflexivity. rewrite fmap_cons in Hloc.
    destruct (Hloc e) as (path & Hp & Hs); [now left|].
    cbn [forEach]. unfold bind.
    now rewrite (renderMedia_entry_refused attr o e s path Hp Hs).
  - rewrite filter_cons_False in Hne, Hloc by discriminate.
    cbn [forEach]. unfold bind. unfold renderMedia_entry at 1. cbn [Entry.isIntersecting].
    now apply IH.
Qed.

Lemma intersecting_reported ts batch :
  intersecting_targets (reported ts batch)
  = filter (fun e => e ∈ ts) (intersecting_targets batch).
Proof.
  unfold intersecting_targets, reported.
  induction batch as [|[b e] batch IH]; [reflexivity|].
  destruct (decide (e ∈ ts)) as [Hin|Hout], b.
  - rewrite (filter_cons_True (fun en => Entry.target en ∈ ts)) by exact Hin.
    rewrite !filter_cons_True by reflexivity. rewrite !fmap_cons.
    cbn [Entry.target]. rewrite filter_cons_True by exact Hin. now rewrite IH.
  - rewrite (filter_cons_True (fun en => Entry.target en ∈ ts)) by exact Hin.
    rewrite !filter_cons_False by discriminate. exact IH.
  - rewrite (filter_cons_False (fun en => Entry.target en ∈ ts)) by exact Hout.
    rewrite filter_cons_True by reflexivity. rewrite fmap_cons.
    cbn [Entry.target]. rewrite filter_cons_False by exact Hout. exact IH.
  - rewrite (filter_cons_False (fun en => Entry.target en ∈ ts)) by exact Hout.
    rewrite filter_cons_False by discriminate. exact IH.
Qed.

(** What an observer is told is about its targets. *)
Lemma reported_targets ts batch e :
  e ∉ ts -> Forall (fun en => Entry.target en <> e) (reported ts batch).
Proof.
  intros Hout. apply Forall_forall. intros en Hin.
  apply list_elem_of_filter in Hin as [Hin _]. intros <-. contradiction.
Qed.

(** C1, as amended.  When the media handler reaches a record (no record
    before it in the batch has raised) that reports its target as
    intersecting and the target carries a locator: if a name was given to
    [media] and the platform accepts it, the attribute of that name, as
    the platform stores it, is set to the locator; if no name or the empty
    name was given, the locator is assigned to the [src] property; the
    [data-lazy-url] datum is then cleared, the element is dropped from the
    observer and the handler goes on with the next record.  If the
    platform refuses the name, the handler ends in the platform's
    exception with nothing changed.  The action runs at most once per
    registration: an element that is no target of an observer that exists
    is never one again, whatever calls and notifications follow, so that
    no record about it reaches the handler of that observer.  With the
    locators a.jpg and b.jpg and two resolved elements, the first element
    carries a.jpg and the second b.jpg after the call, and each receives
    its own locator, under the name given to the call, from a batch that
    reports it intersecting, no target being reported intersecting
    twice. *)
Theorem media_action_once :
  (forall (attr : JSValue) (o : ObserverRef) (before after : list Entry.t) (e : Elem)
          (s s1 : State) (path : string),
      renderMedia attr before o s = (s1, Normal tt) ->
      or_null (dataset_lazyUrl (element s1 e)) = Some path ->
      (forall name key,
          attr = VString name -> name <> "" -> attribute_name name = Some key ->
          let el' := without_attribute lazy_url_attribute
                       (with_attribute key path (element s1 e)) in
          renderMedia attr (before ++ Entry.mk true e :: after) o s
          = renderMedia attr after o (rendered o e el' s1)
          /\ element (rendered o e el' s1) e = el'
          /\ dataset_lazyUrl el' = None
          /\ (e ∉ targets_of (rendered o e el' s1) o))
      /\ (attr = VNull \/ attr = VString "" ->
          let el' := without_attribute lazy_url_attribute
                       (with_src path (element s1 e)) in
          renderMedia attr (before ++ Entry.mk true e :: after) o s
          = renderMedia attr after o (rendered o e el' s1)
          /\ element (rendered o e el' s1) e = el'
          /\ dataset_lazyUrl el' = None
          /\ (e ∉ targets_of (rendered o e el' s1) o))
      /\ (forall name,
          attr = VString name -> name <> "" -> attribute_name name = None ->
          renderMedia attr (before ++ Entry.mk true e :: after) o s
          = (s1, Abrupt InvalidCharacterError)))
  /\ (forall (o : ObserverRef) (e : Elem) (s : State),
      o < length (observers s) -> e ∉ targets_of s o ->
      forall (events : list Event) (batch : list Entry.t),
        (e ∉ targets_of (run events s) o)
        /\ Forall (fun en => Entry.target en <> e)
                  (reported (targets_of (run events s) o) batch))
  /\ (forall (a : MediaArgs.t) (s : State) (e0 e1 : Elem),
      media_accepted a s ->
      lazyUrls_of a = VArray [VString "a.jpg"; VString "b.jpg"] ->
      resolved a s = [e0; e1] ->
      let o := length (observers s) in
      let s1 := state_after (media a) s in
      completion (media a) s = Normal tt
      /\ dataset_lazyUrl (element s1 e0) = Some "a.jpg"
      /\ dataset_lazyUrl (element s1 e1) = Some "b.jpg"
      /\ targets_of s1 o = [e0; e1]
      /\ forall batch : list Entry.t,
          NoDup (intersecting_targets batch) ->
          let s2 := state_after (deliver o batch) s1 in
          forall (k : nat) (e : Elem) (path : string),
            [e0; e1] !! k = Some e -> ["a.jpg"; "b.jpg"] !! k = Some path ->
            (e ∉ intersecting_targets batch -> element s2 e = element s1 e)
            /\ (e ∈ intersecting_targets batch ->
                (forall name key,
                    MediaArgs.attr a = VString name -> name <> "" ->
                    attribute_name name = Some key ->
                    completion (deliver o batch) s1 = Normal tt
                    /\ element s2 e
                       = without_attribute lazy_url_attribute
                           (with_attribute key path (element s1 e))
                    /\ forall events, e ∉ targets_of (run events s2) o)
                /\ (MediaArgs.attr a = VUndefined \/ MediaArgs.attr a = VNull
                    \/ MediaArgs.attr a = VString "" ->
                    completion (deliver o batch) s1 = Normal tt
                    /\ element s2 e
                       = without_attribute lazy_url_attribute
                           (with_src path (element s1 e))
                    /\ forall events, e ∉ targets_of (run events s2) o)
                /\ (forall name,
                    MediaArgs.attr a = VString name -> name <> "" ->
                    attribute_name name = None ->
                    deliver o batch s1 = (s1, Abrupt InvalidCharacterError)))).
Proof.
  assert (Honce : forall (o : ObserverRef) (e : Elem) (s : State),
             o < length (observers s) -> e ∉ targets_of s o ->
             forall events, e ∉ targets_of (run events s) o).
  { intros o e s Ho Hout events Hin. apply Hout.
    eapply observers_kept_targets; [apply run_kept | exact Ho | exact Hin]. }
  split; [|split].
  - intros attr o before after e s s1 path Hb Hp. split; [|split].
    + intros name key -> Hne Hk el'. subst el'.
      apply (renderMedia_reaches _ _ _ _ _ _ _ path); try assumption.
      now apply sourced_named.
    + intros Ha el'. subst el'.
      apply (renderMedia_reaches _ _ _ _ _ _ _ path); try assumption.
      now apply sourced_default.
    + intros name -> Hne Hk.
      apply (renderMedia_stops _ _ _ _ _ _ _ path); try assumption.
      now apply sourced_refused.
  - intros o e s Ho Hout events batch.
    split; [now apply Honce | apply reported_targets; now apply Honce].
  - intros a s e0 e1 Hacc Hurls Hres o s1.
    destruct (media_success a s ["a.jpg"; "b.jpg"] Hacc Hurls)
      as (s' & Hrun & _ & _ & Hobs & _ & Hin & _); [rewrite Hres; simpl; lia|].
    assert (Hs1 : s1 = s') by (unfold s1, state_after; now rewrite Hrun).
    rewrite Hres in Hin, Hobs.
    assert (H0 : element s1 e0 = set_dataset_lazyUrl "a.jpg" (element s e0)).
    { rewrite Hs1. exact (Hin 0 e0 eq_refl). }
    assert (H1 : element s1 e1 = set_dataset_lazyUrl "b.jpg" (element s e1)).
    { rewrite Hs1. exact (Hin 1 e1 eq_refl). }
    assert (Hlook : observers s1 !! o =
                    Some (Observer.mk (RenderMedia (attr_of a)) (this_options s') [e0; e1])).
    { rewrite Hs1, Hobs. unfold o. rewrite lookup_app_r by lia.
      now rewrite Nat.sub_diag. }
    assert (Hlen : o < length (observers s1)).
    { apply lookup_lt_is_Some. rewrite Hlook. eauto. }
    split; [unfold completion; now rewrite Hrun|].
    split; [rewrite H0; unfold dataset_lazyUrl, set_dataset_lazyUrl, getAttribute; simpl;
            apply lookup_insert_eq|].
    split; [rewrite H1; unfold dataset_lazyUrl, set_dataset_lazyUrl, getAttribute; simpl;
            apply lookup_insert_eq|].
    split; [unfold targets_of; now rewrite Hlook|].
    intros batch Hnd s2 k e path Hk Hpath.
    assert (Hdel : deliver o batch s1
                   = renderMedia (attr_of a) (reported [e0; e1] batch) o s1).
    { unfold deliver. now rewrite Hlook. }
    assert (Hlocated : forall x, x ∈ intersecting_targets (reported [e0; e1] batch) ->
               exists p, or_null (dataset_lazyUrl (element s1 x)) = Some p).
    { intros x Hx. rewrite intersecting_reported in Hx.
      apply list_elem_of_filter in Hx as [Hx _].
      apply elem_of_cons in Hx as [->|Hx];
        [|apply list_elem_of_singleton in Hx as ->].
      - rewrite H0. eexists. apply or_null_set_locator.
      - rewrite H1. eexists. apply or_null_set_locator. }
    assert (Hmine : or_null (dataset_lazyUrl (element s1 e)) = Some path).
    { destruct k as [|[|k]]; try discriminate;
        injection Hk as <-; injection Hpath as <-.
      - rewrite H0. apply or_null_set_locator.
      - rewrite H1. apply or_null_set_locator. }
    assert (Hts : e ∈ [e0; e1]) by (eapply list_elem_of_lookup_2; exact Hk).
    assert (Hnd' : NoDup (intersecting_targets (reported [e0; e1] batch))).
    { rewrite intersecting_reported. now apply NoDup_filter. }
    assert (Hdone : forall given,
               attr_of a = given ->
               (forall x p, exists el', sourced given p (element s1 x) = Some el') ->
               e ∈ intersecting_targets batch ->
               completion (deliver o batch) s1 = Normal tt
               /\ Some (element s2 e) = sourced given path (element s1 e)
               /\ forall events, e ∉ targets_of (run events s2) o).
    { intros given <- Hsrc He.
      destruct (renderMedia_renders_all (attr_of a) o (reported [e0; e1] batch) s1 Hnd')
        as (Hc & Hel & _ & Htargets).
      { intros x Hx. destruct (Hlocated x Hx) as (p & Hp).
        destruct (Hsrc x p) as (el' & Hel'). eauto. }
      assert (He' : e ∈ intersecting_targets (reported [e0; e1] batch)).
      { rewrite intersecting_reported. now apply list_elem_of_filter. }
      unfold s2, completion, state_after in *. rewrite Hdel.
      split; [exact Hc|]. split; [now apply Hel|].
      apply Honce.
      - eapply Nat.lt_le_trans; [exact Hlen|].
        apply observers_kept_length, only_unregistered_kept.
        apply renderMedia_only_unregisters.
      - rewrite Htargets, decide_True by reflexivity.
        intros Hin'. apply list_elem_of_filter in Hin' as [Hout _]. now apply Hout. }
    split.
    + intros Hout. unfold s2, state_after. rewrite Hdel.
      apply renderMedia_elsewhere. rewrite intersecting_reported.
      intros Hx. apply list_elem_of_filter in Hx as [_ Hx]. contradiction.
    + intros He. split; [|split].
      * intros name key Hgiven Hne Hkey.
        destruct (Hdone (VString name)) as (Hc & Hel & Hev); [| |exact He|].
        { unfold attr_of. now rewrite Hgiven. }
        { intros x p. eexists. apply (sourced_named name key); assumption. }
        rewrite (sourced_named name key) in Hel by assumption.
        injection Hel as Hel. auto.
      * intros Hgiven.
        destruct (Hdone (attr_of a) eq_refl) as (Hc & Hel & Hev); [|exact He|].
        { intros x p. eexists. apply sourced_default.
          unfold attr_of. destruct Hgiven as [-> |[-> | ->]]; auto. }
        rewrite sourced_default in Hel
          by (unfold attr_of; destruct Hgiven as [-> |[-> | ->]]; auto).
        injection Hel as Hel. auto.
      * intros name Hgiven Hne Hkey. rewrite Hdel.
        apply renderMedia_refuses.
        -- intros Hnil. rewrite intersecting_reported in Hnil.
           assert (Hx : e ∈ filter (fun x => x ∈ [e0; e1]) (intersecting_targets batch))
             by now apply list_elem_of_filter.
           rewrite Hnil in Hx. now apply elem_of_nil in Hx.
        -- intros x Hx. destruct (Hlocated x Hx) as (p & Hp). exists p.
           split; [exact Hp|]. unfold attr_of. rewrite Hgiven. simpl.
           now apply sourced_refused.
Qed.
(** *** The callback handler *)

Lemma bind_ext {A B} (m : JS A) (k k' : A -> JS B) s :
  (forall a s', k a s' = k' a s') -> bind m k s = bind m k' s.
Proof. intros H. unfold bind. destruct (m s) as [s' [a|t]]; [apply H | reflexivity]. Qed.

(** On records that are all about [e], the handler is a row of
    invocations, one for each record that reports an intersection. *)
Lemma handleFunctionExecution_on_target f o e entries s :
  Forall (fun en => Entry.target en = e) entries ->
  handleFunctionExecution f entries o s =
  invocations f o e (length (filter (fun en => Entry.isIntersecting en = true) entries)) s.
Proof.
  unfold handleFunctionExecution. intros Hall. revert s.
  induction Hall as [|en entries Hen Hall IH]; intros s; [reflexivity|].
  cbn [forEach].
  destruct en as [[] e']; cbn [Entry.isIntersecting Entry.target] in *; subst e'.
  - rewrite filter_cons_True by reflexivity. cbn [length invocations].
    unfold handleFunctionExecution_entry. cbn [Entry.isIntersecting Entry.target].
    rewrite bind_assoc. apply bind_ext. intros [] s1.
    apply bind_ext. intros [] s2. apply IH.
  - rewrite filter_cons_False by discriminate.
    unfold handleFunctionExecution_entry at 1. cbn [Entry.isIntersecting].
    rewrite bind_ret. apply IH.
Qed.

Lemma reported_single (e : Elem) (batch : list Entry.t) :
  Forall (fun en => Entry.target en = e) (reported [e] batch)
  /\ length (filter (fun en => Entry.isIntersecting en = true) (reported [e] batch))
     = intersections e batch.
Proof.
  unfold reported, intersections. split.
  - apply Forall_forall. intros en Hin.
    apply list_elem_of_filter in Hin as [Hin _].
    now apply list_elem_of_singleton in Hin.
  - rewrite list_filter_filter. f_equal. apply list_filter_iff.
    intros en. rewrite list_elem_of_singleton. tauto.
Qed.

Lemma deliver_nothing o batch s :
  targets_of s o = [] -> deliver o batch s = (s, Normal tt).
Proof.
  unfold targets_of, deliver. intros Ht.
  destruct (observers s !! o) as [[cb i ts]|]; [|reflexivity].
  simpl in Ht. subst ts. simpl.
  assert (Hr : reported [] batch = []).
  { unfold reported. induction batch as [|en batch IH]; [reflexivity|].
    rewrite filter_cons_False; [exact IH | apply not_elem_of_nil]. }
  rewrite Hr. now destruct cb.
Qed.

Lemma deliver_all_nothing o batches s :
  targets_of s o = [] -> deliver_all o batches s = s.
Proof.
  intros Ht. induction batches as [|b batches IH]; [reflexivity|].
  simpl. unfold state_after. now rewrite deliver_nothing.
Qed.

Lemma unobserve_run o e s :
  unobserve o e s = (unobserved o e s, Normal tt).
Proof. reflexivity. Qed.

Lemma targets_of_unobserved o e s o' :
  targets_of (unobserved o e s) o' =
  if decide (o = o') then filter (fun x => x <> e) (targets_of s o')
  else targets_of s o'.
Proof.
  unfold targets_of, unobserved. simpl. rewrite list_lookup_alter.
  destruct (decide (o = o')) as [->|]; [|reflexivity].
  now destruct (observers s !! o').
Qed.

(** An invocation leaves the targets of the observers that exist as
    they are. *)
Lemma call_targets f s o :
  o < length (observers s) ->
  targets_of (state_after (call f) s) o = targets_of s o
  /\ o < length (observers (state_after (call f) s)).
Proof.
  intros Ho. destruct (call_frame f s) as (_ & added & H).
  unfold targets_of. rewrite H. split.
  - now rewrite lookup_app_l.
  - rewrite length_app. lia.
Qed.

Lemma invocations_kept f o e n s :
  observers_kept s (state_after (invocations f o e n) s).
Proof.
  revert s. induction n as [|n IH]; intros s; [apply observers_kept_refl|].
  pose proof (call_kept f s) as Hc. unfold state_after in *. cbn [invocations].
  unfold bind at 1. destruct (call f s) as [s1 [[]|t]]; simpl in *; [|exact Hc].
  unfold bind. rewrite unobserve_run.
  eapply observers_kept_trans; [exact Hc|].
  eapply observers_kept_trans; [apply (unobserve_kept o e s1) | apply IH].
Qed.

(** A row of invocations records each invocation it starts, and it
    starts them all when it completes. *)
Lemma invocations_calls f o e n s :
  exists k, k <= n
            /\ calls (state_after (invocations f o e n) s) = calls s ++ replicate k f
            /\ (completion (invocations f o e n) s = Normal tt -> k = n).
Proof.
  revert s. induction n as [|n IH]; intros s.
  - exists 0. simpl. rewrite app_nil_r. auto.
  - destruct (call_frame f s) as (Hc & _).
    unfold state_after, completion in *. cbn [invocations].
    destruct (call f s) as [s1 [[]|t]] eqn:E; simpl in Hc.
    + rewrite (bind_normal _ _ _ _ _ E).
      rewrite (bind_normal _ _ _ _ _ (unobserve_run o e s1)).
      destruct (IH (unobserved o e s1)) as (k & Hk & Hcalls & Hn).
      exists (S k). split; [lia|]. split.
      * rewrite Hcalls. simpl. rewrite Hc. now rewrite <- app_assoc.
      * intros H. f_equal. now apply Hn.
    + rewrite (bind_abrupt _ _ _ _ _ E).
      exists 1. split; [lia|]. split; [exact Hc | discriminate].
Qed.

(** An [execute] call with an element, a function and options that are
    settled either installs its observer or stops at the constructor. *)
Lemma execute_run a s target f :
  viewportEntry_of a = VElement target ->
  exeFn_of a = VFunction f ->
  completion (reconfigure (execute_options_of a)) s = Normal tt ->
  (constructible (state_after (reconfigure (execute_options_of a)) s)
   /\ execute a s = (execute_done a target f s, Normal tt))
  \/ (exists t,
        this_options (state_after (reconfigure (execute_options_of a)) s)
          ≫= observer_init = Some t
        /\ execute a s = (state_after (reconfigure (execute_options_of a)) s, Abrupt t)).
Proof.
  intros Hv Hf Hr.
  destruct (execute a s) as [s' c] eqn:Hm. unfold execute in Hm. cbv zeta in Hm.
  rewrite Hv, Hf in Hm. simpl in Hm. unfold when in Hm. rewrite !bind_ret in Hm.
  destruct (reconfigure_cases (execute_options_of a) s)
    as [(_ & Ht)|[(_ & t & Ht & _)|(_ & i & Hi & _)]].
  { unfold completion in Hr. rewrite Ht in Hr. discriminate. }
  { unfold completion in Hr. rewrite Ht in Hr. discriminate. }
  rewrite (bind_normal _ _ _ _ _ Hi) in Hm.
  unfold bind at 1, new_IntersectionObserver in Hm.
  cbn [this_options this_observer observers calls document] in Hm.
  unfold constructible, execute_done, state_after. rewrite Hi. cbn [fst this_options].
  destruct (i ≫= observer_init) as [t|] eqn:Ek.
  - injection Hm as <- <-. right. eauto.
  - left. split; [reflexivity|]. rewrite <- Hm.
    unfold bind, set_this_observer, observe, update_observer, modify.
    cbn [this_observer this_options observers calls document fst snd].
    rewrite alter_app_r_alt by lia. rewrite Nat.sub_diag. reflexivity.
Qed.

(** C2, as amended.  After [execute] with a valid element and callback
    the new observer holds the target.  When a batch is delivered, the
    handler invokes the callback once for every record of the batch that
    reports the target as intersecting, in a row, each invocation that
    returns being followed at once by the deregistration of the target:
    not at all when there is no such record, and once when there is one
    and the invocation returns.  An invocation that raises ends the
    handling with its error and the deregistration after it is skipped: if
    it is the first of the batch the target stays registered, to be
    reported again.  Once an invocation has returned, the target is no
    longer registered, and no batch delivered later to the observer causes
    an invocation or any other change. *)
Theorem execute_invokes_per_record (a : ExecuteArgs.t) (s : State)
        (target : Elem) (f : Fn) :
  viewportEntry_of a = VElement target ->
  exeFn_of a = VFunction f ->
  completion (reconfigure (execute_options_of a)) s = Normal tt ->
  constructible (state_after (reconfigure (execute_options_of a)) s) ->
  let s1 := state_after (execute a) s in
  let o := length (observers s) in
  completion (execute a) s = Normal tt
  /\ this_observer s1 = Some o
  /\ targets_of s1 o = [target]
  /\ calls s1 = calls s
  /\ forall batch : list Entry.t,
      let n := intersections target batch in
      let s2 := state_after (deliver o batch) s1 in
      deliver o batch s1 = invocations f o target n s1
      /\ (n = 0 -> deliver o batch s1 = (s1, Normal tt))
      /\ (completion (deliver o batch) s1 = Normal tt ->
          calls s2 = calls s1 ++ replicate n f)
      /\ (0 < n -> forall s' t, call f s1 = (s', Abrupt t) ->
          deliver o batch s1 = (s', Abrupt t)
          /\ calls s' = calls s1 ++ [f]
          /\ targets_of s' o = [target])
      /\ (0 < n -> completion (call f) s1 = Normal tt ->
          targets_of s2 o = []
          /\ forall batches : list (list Entry.t), deliver_all o batches s2 = s2)
      /\ (n = 1 -> completion (call f) s1 = Normal tt ->
          completion (deliver o batch) s1 = Normal tt
          /\ calls s2 = calls s1 ++ [f]).
Proof.
  intros Hv Hf Hr Hk s1 o.
  destruct (execute_run a s target f Hv Hf Hr) as [(_ & Hrun)|(t & Hbad & _)].
  2:{ unfold constructible in Hk. rewrite Hk in Hbad. discriminate. }
  assert (Hs1 : s1 = execute_done a target f s).
  { unfold s1, state_after. now rewrite Hrun. }
  assert (Hlook : observers s1 !! o =
                  Some (Observer.mk (HandleFunctionExecution f)
                          (this_options
                             (state_after (reconfigure (execute_options_of a)) s))
                          [target])).
  { rewrite Hs1. unfold execute_done, o. simpl. rewrite lookup_app_r by lia.
    now rewrite Nat.sub_diag. }
  assert (Hlen : o < length (observers s1)).
  { apply lookup_lt_is_Some. rewrite Hlook. eauto. }
  assert (Hts : targets_of s1 o = [target]).
  { unfold targets_of. now rewrite Hlook. }
  split; [unfold completion; now rewrite Hrun|].
  split; [now rewrite Hs1|].
  split; [exact Hts|].
  split; [now rewrite Hs1|].
  intros batch n s2.
  destruct (reported_single target batch) as (Hall & Hcount). fold n in Hcount.
  assert (Hdel : deliver o batch s1 = invocations f o target n s1).
  { unfold deliver. rewrite Hlook. simpl.
    rewrite (handleFunctionExecution_on_target f o target _ s1 Hall), Hcount.
    reflexivity. }
  split; [exact Hdel|].
  split; [intros Hn; rewrite Hdel, Hn; reflexivity|].
  split.
  { intros Hn. unfold s2, completion, state_after in *. rewrite Hdel in Hn |- *.
    destruct (invocations_calls f o target n s1) as (k & _ & Hcalls & Hkn).
    unfold state_after, completion in *. rewrite Hcalls. now rewrite (Hkn Hn). }
  split.
  { intros Hpos s' t Hcall. rewrite Hdel.
    destruct n as [|m]; [lia|]. cbn [invocations].
    rewrite (bind_abrupt _ _ _ _ _ Hcall). split; [reflexivity|].
    destruct (call_frame f s1) as (Hc & _).
    destruct (call_targets f s1 o Hlen) as (Ht & _).
    unfold state_after in *. rewrite Hcall in Hc, Ht. simpl in *.
    split; [exact Hc | now rewrite Ht]. }
  assert (Hreturned : forall m, n = S m -> completion (call f) s1 = Normal tt ->
            exists s', call f s1 = (s', Normal tt)
                       /\ deliver o batch s1
                          = invocations f o target m (unobserved o target s')
                       /\ calls s' = calls s1 ++ [f]
                       /\ targets_of (unobserved o target s') o = []
                       /\ o < length (observers (unobserved o target s'))).
  { intros m Hn Hcall. rewrite Hdel, Hn. cbn [invocations].
    destruct (call_frame f s1) as (Hc & _).
    destruct (call_targets f s1 o Hlen) as (Ht & Hl).
    unfold completion, state_after in *.
    destruct (call f s1) as [s' [[]|t]] eqn:E; [|discriminate]. simpl in *.
    exists s'. split; [reflexivity|].
    split; [unfold bind at 1; rewrite E; unfold bind; now rewrite unobserve_run|].
    split; [exact Hc|]. split.
    - rewrite targets_of_unobserved, decide_True by reflexivity.
      rewrite Ht, Hts. rewrite filter_cons_False by (intros H; now apply H).
      reflexivity.
    - unfold unobserved. simpl. now rewrite length_alter. }
  split.
  { intros Hpos Hcall. destruct n as [|m] eqn:En; [lia|].
    destruct (Hreturned m eq_refl Hcall) as (s' & _ & Hd & _ & Hnone & Hl).
    assert (Hnone2 : targets_of s2 o = []).
    { unfold s2, state_after. rewrite Hd.
      pose proof (invocations_kept f o target m (unobserved o target s')) as Hkept.
      unfold state_after in Hkept.
      destruct (targets_of (fst (invocations f o target m (unobserved o target s'))) o)
        as [|x ts] eqn:Ex; [reflexivity|].
      exfalso.
      assert (Hx : x ∈ targets_of (unobserved o target s') o).
      { eapply observers_kept_targets; [exact Hkept | exact Hl|].
        rewrite Ex. now left. }
      rewrite Hnone in Hx. now apply elem_of_nil in Hx. }
    split; [exact Hnone2|]. intros batches. now apply deliver_all_nothing. }
  intros Hn Hcall.
  destruct (Hreturned 0 Hn Hcall) as (s' & _ & Hd & Hc & _).
  unfold s2, completion, state_after. rewrite Hd. simpl. auto.
Qed.

End Properties.

(** ** The code on the small platform *)

(** C7, at a failing input.  With one image resolved and the locators
    a.jpg, b.jpg and the number 5, the call does not fail with
    InvalidArgument: it ends in a TypeError at the second locator, before
    the number is reached.  The image has received a.jpg by then and
    nothing is registered. *)
Theorem media_overflow_precedes_locator_check :
  let s := Demo.created Demo.single in
  let a := Demo.locating "img" [VString "a.jpg"; VString "b.jpg"; VNumber 5] in
  completion (Demo.run_media a) s = Abrupt TypeError
  /\ ~ fails_with InvalidArgument (completion (Demo.run_media a) s)
  /\ dataset_lazyUrl (element (state_after (Demo.run_media a) s) 0) = Some "a.jpg"
  /\ no_registration s (state_after (Demo.run_media a) s).
Proof.
  intros s a.
  assert (Hc : completion (Demo.run_media a) s = Abrupt TypeError)
    by (vm_compute; reflexivity).
  split; [exact Hc|]. split.
  - rewrite Hc. intros (t & [= <-] & H). discriminate.
  - split; [vm_compute; reflexivity|].
    intros o. destruct o as [|o]; [vm_compute; reflexivity|].
    unfold targets_of. vm_compute. now destruct o.
Qed.



(** C5, the claim as stated.  A call of [media] without a selector does
    not fail: it completes. *)
Lemma media_without_srcTarget_completes :
  ~ fails_with InvalidArgument
      (completion (Demo.run_media Demo.no_arguments) (Demo.created Demo.page)).
Proof. intros (t & H & _). vm_compute in H. discriminate. Qed.

(** Without a selector the call completes; with a selector that finds
    no element it fails and leaves the state alone. *)
Lemma media_checks_supplied_srcTarget_witness :
  completion (Demo.run_media Demo.no_arguments) (Demo.created Demo.page) = Normal tt
  /\ fails_with InvalidArgument
       (completion (Demo.run_media (Demo.selecting "video")) (Demo.created Demo.page))
  /\ state_after (Demo.run_media (Demo.selecting "video")) (Demo.created Demo.page)
     = Demo.created Demo.page.
Proof.
  split.
  - apply (@media_checks_supplied_srcTarget Demo.platform Demo.no_arguments
             (Demo.created Demo.page)).
    + reflexivity.
    + repeat split; try (left; reflexivity); reflexivity.
    + reflexivity.
  - apply (@media_checks_supplied_srcTarget Demo.platform (Demo.selecting "video")
             (Demo.created Demo.page)).
    + discriminate.
    + right. exists "video". split; reflexivity.
Defined.

(** C8, the claim as stated.  After a call that stored a margin of 100,
    a second call of [media], with all-default options, replaces the
    observer handle; and a call whose options leave the root out, which is
    a root that is absent, replaces the stored configuration by the
    defaults. *)
Lemma media_with_defaults_replaces_observer :
  ~ keeps_config_and_observer
      (state_after (Demo.run_media (Demo.selecting_with "img" (Demo.margin_only 100)))
                   (Demo.created Demo.page))
      (state_after (Demo.run_media (Demo.selecting_with_defaults "img"))
         (state_after (Demo.run_media (Demo.selecting_with "img" (Demo.margin_only 100)))
                      (Demo.created Demo.page)))
  /\ all_defaults (VObject [("loadBefore", VNumber 0); ("loadAfter", VNumber 0)])
  /\ ~ keeps_config_and_observer
         (state_after (Demo.run_media (Demo.selecting_with "img" (Demo.margin_only 100)))
                      (Demo.created Demo.page))
         (state_after
            (Demo.run_media
               (Demo.selecting_with "img"
                  (VObject [("loadBefore", VNumber 0); ("loadAfter", VNumber 0)])))
            (state_after (Demo.run_media (Demo.selecting_with "img" (Demo.margin_only 100)))
                         (Demo.created Demo.page))).
Proof.
  split; [|split].
  - intros [_ H]. vm_compute in H. discriminate.
  - right. split; [discriminate|]. split; [right; reflexivity|].
    split; exists 0%Q; split; reflexivity.
  - intros [H _]. vm_compute in H. discriminate.
Qed.

(** After a call that stored a margin of 100, a call with the default
    options keeps 100px, installs observer 1 and creates it with 100px. *)
Lemma default_options_keep_configuration_witness :
  this_options
    (state_after (Demo.run_media (Demo.selecting_with_defaults "img"))
       (state_after (Demo.run_media (Demo.selecting_with "img" (Demo.margin_only 100)))
                    (Demo.created Demo.page)))
  = Some (Init.mk VNull "100px" (VNumber 0))
  /\ this_observer
       (state_after (Demo.run_media (Demo.selecting_with_defaults "img"))
          (state_after (Demo.run_media (Demo.selecting_with "img" (Demo.margin_only 100)))
                       (Demo.created Demo.page)))
     = Some 1.
Proof.
  destruct (@default_options_keep_configuration Demo.platform) as (Hm & _ & _).
  destruct (Hm (Demo.selecting_with_defaults "img")
               (state_after (Demo.run_media (Demo.selecting_with "img" (Demo.margin_only 100)))
                            (Demo.created Demo.page)))
    as (Hkeep & _ & Hnew).
  split.
  - destruct Hkeep as (_ & Heq).
    + right. split; [discriminate|]. split; [reflexivity|].
      split; exists 0%Q; split; reflexivity.
    + exact (eq_trans Heq eq_refl).
  - apply Hnew. vm_compute. reflexivity.
Defined.

(** C6, the claim as stated.  On a page whose first image has no locator,
    a batch reporting both images stops at the first record: the second
    image keeps its locator and its source is not set, whereas handling
    every record would have set it. *)
Lemma renderMedia_leaves_later_records :
  state_after
    (@renderMedia Demo.platform VNull [Entry.mk true 0; Entry.mk true 1] 0)
    (state_after (Demo.run_media (Demo.selecting "img")) (Demo.created Demo.half_marked))
  <> @every_record Demo.platform VNull 0 [Entry.mk true 0; Entry.mk true 1]
       (state_after (Demo.run_media (Demo.selecting "img"))
                    (Demo.created Demo.half_marked)).
Proof.
  intros H. apply (f_equal (fun st => getAttribute "src" (element st 1))) in H.
  vm_compute in H. discriminate.
Qed.

(** The batch of the two images stops at the first, unchanged. *)
Lemma renderMedia_handles_until_error_witness :
  @renderMedia Demo.platform VNull [Entry.mk true 0; Entry.mk true 1] 0
    (state_after (Demo.run_media (Demo.selecting "img")) (Demo.created Demo.half_marked))
  = (state_after (Demo.run_media (Demo.selecting "img")) (Demo.created Demo.half_marked),
     Abrupt LazyUrlError).
Proof.
  destruct (proj1 (@renderMedia_handles_until_error Demo.platform VNull 0
                     (state_after (Demo.run_media (Demo.selecting "img"))
                                  (Demo.created Demo.half_marked)))
                  [] (Entry.mk true 0) [Entry.mk true 1]
                  (state_after (Demo.run_media (Demo.selecting "img"))
                               (Demo.created Demo.half_marked))
                  (state_after (Demo.run_media (Demo.selecting "img"))
                               (Demo.created Demo.half_marked))
                  LazyUrlError)
    as (_ & _ & _ & _ & H); [reflexivity | vm_compute; reflexivity | exact H].
Defined.

(** C2, the claim as stated.  A batch that reports the target as
    intersecting, as not intersecting and as intersecting again makes the
    callback, which does nothing, run twice. *)
Lemma execute_callback_runs_twice :
  calls
    (state_after (Demo.run_deliver 0 [Entry.mk true 2; Entry.mk false 2; Entry.mk true 2])
       (state_after (Demo.run_execute (Demo.calling 2 7)) (Demo.created Demo.page)))
  <> calls (state_after (Demo.run_execute (Demo.calling 2 7)) (Demo.created Demo.page))
     ++ [7].
Proof. vm_compute. discriminate. Qed.

(** A callback that throws keeps its target registered and is invoked
    again by the next batch. *)
Lemma execute_throwing_callback_runs_again :
  targets_of
    (state_after (Demo.run_deliver 0 [Entry.mk true 2])
       (state_after (Demo.run_execute (Demo.calling 2 8)) (Demo.created Demo.page))) 0
  = [2]
  /\ calls
       (Demo.run_events [Notifies 0 [Entry.mk true 2]; Notifies 0 [Entry.mk true 2]]
          (state_after (Demo.run_execute (Demo.calling 2 8)) (Demo.created Demo.page)))
     = [8; 8].
Proof. split; vm_compute; reflexivity. Qed.

(** A batch with one intersecting record runs the callback that does
    nothing once and leaves the observer without target; the callback that
    throws ends the handling and stays registered. *)
Lemma execute_invokes_per_record_witness :
  calls
    (state_after (Demo.run_deliver 0 [Entry.mk false 2; Entry.mk true 2])
       (state_after (Demo.run_execute (Demo.calling 2 7)) (Demo.created Demo.page)))
  = [7]
  /\ targets_of
       (state_after (Demo.run_deliver 0 [Entry.mk false 2; Entry.mk true 2])
          (state_after (Demo.run_execute (Demo.calling 2 7)) (Demo.created Demo.page)))
       0 = []
  /\ completion (Demo.run_deliver 0 [Entry.mk false 2; Entry.mk true 2])
       (state_after (Demo.run_execute (Demo.calling 2 8)) (Demo.created Demo.page))
     = Abrupt CallerError.
Proof.
  destruct (@execute_invokes_per_record Demo.platform Demo.program (Demo.calling 2 7)
              (Demo.created Demo.page) 2 7 eq_refl eq_refl eq_refl eq_refl)
    as (_ & _ & _ & _ & H).
  destruct (H [Entry.mk false 2; Entry.mk true 2]) as (_ & _ & _ & _ & Hpos & H1).
  destruct (@execute_invokes_per_record Demo.platform Demo.program (Demo.calling 2 8)
              (Demo.created Demo.page) 2 8 eq_refl eq_refl eq_refl eq_refl)
    as (_ & _ & _ & _ & H').
  destruct (H' [Entry.mk false 2; Entry.mk true 2]) as (_ & _ & _ & Hraise & _).
  split; [|split].
  - apply H1; reflexivity.
  - apply Hpos; [vm_compute; lia | reflexivity].
  - destruct (Hraise ltac:(vm_compute; lia) _ CallerError eq_refl) as (Hd & _).
    exact (f_equal snd Hd).
Defined.

(** C1, the claim as stated.  On a page whose first image has no locator
    and whose second has one, a batch reports both images intersecting:
    the second image carries its locator and is registered, yet its source
    is not set, its locator is not cleared and it stays registered. *)
Lemma media_target_behind_raising_record :
  or_null
    (dataset_lazyUrl
       (element
          (state_after (Demo.run_media (Demo.selecting "img"))
                       (Demo.created Demo.half_marked)) 1))
  = Some "b.jpg"
  /\ 1 ∈ targets_of
           (state_after (Demo.run_media (Demo.selecting "img"))
                        (Demo.created Demo.half_marked)) 0
  /\ getAttribute "src"
       (element
          (state_after (Demo.run_deliver 0 [Entry.mk true 0; Entry.mk true 1])
             (state_after (Demo.run_media (Demo.selecting "img"))
                          (Demo.created Demo.half_marked))) 1)
     <> Some "b.jpg"
  /\ dataset_lazyUrl
       (element
          (state_after (Demo.run_deliver 0 [Entry.mk true 0; Entry.mk true 1])
             (state_after (Demo.run_media (Demo.selecting "img"))
                          (Demo.created Demo.half_marked))) 1)
     <> None
  /\ 1 ∈ targets_of
           (state_after (Demo.run_deliver 0 [Entry.mk true 0; Entry.mk true 1])
              (state_after (Demo.run_media (Demo.selecting "img"))
                           (Demo.created Demo.half_marked))) 0.
Proof.
  split; [reflexivity|]. split; [vm_compute; right; left|].
  split; [vm_compute; discriminate|]. split; [vm_compute; discriminate|].
  vm_compute. right. left.
Qed.

(** The first image receives a.jpg, under the name the platform stores
    for the name given to the call, from a batch that reports it; the
    second, not reported, carries b.jpg meanwhile.  With no name given the
    locator goes to the source of the image. *)
Lemma media_action_once_witness :
  getAttribute "data-src"
    (element
       (state_after (Demo.run_deliver 0 [Entry.mk true 0; Entry.mk false 1])
          (state_after
             (Demo.run_media
                (Demo.naming "img" "Data-Src" [VString "a.jpg"; VString "b.jpg"]))
             (Demo.created Demo.page)))
       0)
  = Some "a.jpg"
  /\ dataset_lazyUrl
       (element
          (state_after (Demo.run_deliver 0 [Entry.mk true 0; Entry.mk false 1])
             (state_after
                (Demo.run_media
                   (Demo.naming "img" "Data-Src" [VString "a.jpg"; VString "b.jpg"]))
                (Demo.created Demo.page)))
          1)
     = Some "b.jpg"
  /\ getAttribute "src"
       (element
          (state_after (Demo.run_deliver 0 [Entry.mk true 1; Entry.mk true 0])
             (state_after
                (Demo.run_media (Demo.locating "img" [VString "a.jpg"; VString "b.jpg"]))
                (Demo.created Demo.page)))
          1)
     = Some "b.jpg".
Proof.
  destruct (@media_action_once Demo.platform Demo.program) as (_ & _ & H).
  assert (Hacc : forall a, MediaArgs.wrapper a = VUndefined ->
                   MediaArgs.srcTarget a = VString "img" ->
                   is_string (attr_of a) = true \/ attr_of a = VNull ->
                   MediaArgs.options a = VUndefined ->
                   @media_accepted Demo.platform a (Demo.created Demo.page)).
  { intros [w t n u o]. simpl. intros -> -> Hn ->.
    split; [left; reflexivity|].
    split; [right; exists "img"; split; [reflexivity | vm_compute; discriminate]|].
    split; [destruct Hn; auto|]. repeat split. }
  destruct (H (Demo.naming "img" "Data-Src" [VString "a.jpg"; VString "b.jpg"])
              (Demo.created Demo.page) 0 1)
    as (_ & _ & _ & _ & Hnamed);
    [apply Hacc; try reflexivity; left; reflexivity | reflexivity | reflexivity |].
  destruct (H (Demo.locating "img" [VString "a.jpg"; VString "b.jpg"])
              (Demo.created Demo.page) 0 1)
    as (_ & _ & _ & _ & Hplain);
    [apply Hacc; try reflexivity; right; reflexivity | reflexivity | reflexivity |].
  split; [|split].
  - destruct (Hnamed [Entry.mk true 0; Entry.mk false 1]
                     ltac:(vm_compute; repeat constructor; apply not_elem_of_nil)
                     0 0 "a.jpg" eq_refl eq_refl) as (_ & Hin).
    destruct (Hin ltac:(vm_compute; left)) as (Hname & _).
    destruct (Hname "Data-Src" "data-src" eq_refl ltac:(discriminate) eq_refl)
      as (_ & Hel & _).
    exact (f_equal (getAttribute "data-src") Hel).
  - destruct (Hnamed [Entry.mk true 0; Entry.mk false 1]
                     ltac:(vm_compute; repeat constructor; apply not_elem_of_nil)
                     1 1 "b.jpg" eq_refl eq_refl) as (Hout & _).
    refine (f_equal dataset_lazyUrl (Hout _)).
    vm_compute. intros Hx. apply list_elem_of_singleton in Hx. discriminate.
  - destruct (Hplain [Entry.mk true 1; Entry.mk true 0]
                     ltac:(vm_compute; repeat constructor;
                           [intros Hx; apply list_elem_of_singleton in Hx; discriminate
                           |apply not_elem_of_nil])
                     1 1 "b.jpg" eq_refl eq_refl) as (_ & Hin).
    destruct (Hin ltac:(vm_compute; left)) as (_ & Hnone & _).
    destruct (Hnone ltac:(left; reflexivity)) as (_ & Hel & _).
    exact (f_equal (getAttribute "src") Hel).
Defined.


(** Three locators for one image: the call ends in a TypeError. *)
Lemma media_locators_overflow_witness :
  completion
    (Demo.run_media (Demo.locating "img" [VString "a.jpg"; VString "b.jpg"; VNumber 5]))
    (Demo.created Demo.single)
  = Abrupt TypeError.
Proof.
  apply (@media_locators_overflow Demo.platform
           (Demo.locating "img" [VString "a.jpg"; VString "b.jpg"; VNumber 5])
           (Demo.created Demo.single)
           [VString "a.jpg"; VString "b.jpg"; VNumber 5]).
  - repeat split; try (left; reflexivity); try reflexivity.
    right. exists "img". split; [reflexivity | vm_compute; discriminate].
  - reflexivity.
  - intros j Hj. change (length (@resolved Demo.platform _ _)) with 1 in Hj.
    destruct j as [|[|j]]; [exists "a.jpg" | exists "b.jpg" | lia]; reflexivity.
Defined.

(** ** Further properties of the code *)

Section Coverage.

Context {platform : Platform} {program : Program}.

(** *** [validCSSSelector] *)

(** X1.  [validCSSSelector] leaves the state alone.  For a selector the
    engine can parse it answers whether the document holds a match, and
    for one it cannot parse it throws the engine's SyntaxError instead of
    answering false. *)
Theorem validCSSSelector_answers (sel : string) (s : State) :
  state_after (validCSSSelector sel) s = s
  /\ (valid_selector sel = true ->
      (select (document s) None sel = [] ->
       completion (validCSSSelector sel) s = Normal false)
      /\ (select (document s) None sel <> [] ->
          completion (validCSSSelector sel) s = Normal true))
  /\ (valid_selector sel = false ->
      completion (validCSSSelector sel) s = Abrupt SyntaxError).
Proof.
  unfold state_after, completion, validCSSSelector, querySelector, querySelectorAll.
  destruct (valid_selector sel); unfold bind, gets, ret, throw; simpl.
  - destruct (select (document s) None sel) as [|e l]; simpl.
    + split; [reflexivity|]. split; [|discriminate].
      intros _. split; [reflexivity | intros H; now contradiction H].
    + split; [reflexivity|]. split; [|discriminate].
      intros _. split; [discriminate | reflexivity].
  - split; [reflexivity|]. split; [discriminate | reflexivity].
Qed.

(** *** [media] *)

(** X2.  A [media] call that passes its checks with string locators, no
    more of them than resolved elements, completes.  It installs one new
    observer, created with the media closure and the stored options, whose
    targets are the resolved elements in document order; element [k]
    carries locator [k] when there is one, overwriting what it carried,
    and is otherwise unchanged, as is every element outside the resolved
    ones; no function was called. *)
Theorem media_registers_resolved (a : MediaArgs.t) (s : State) (paths : list string) :
  media_accepted a s ->
  lazyUrls_of a = VArray (VString <$> paths) ->
  length paths <= length (resolved a s) ->
  let s' := state_after (media a) s in
  let o := length (observers s) in
  completion (media a) s = Normal tt
  /\ this_observer s' = Some o
  /\ observers s' !! o =
     Some (Observer.mk (RenderMedia (attr_of a)) (this_options s') (resolved a s))
  /\ targets_of s' o = resolved a s
  /\ (forall k e, resolved a s !! k = Some e ->
        element s' e =
        match paths !! k with
        | Some p => set_dataset_lazyUrl p (element s e)
        | None => element s e
        end)
  /\ (forall e, e ∉ resolved a s -> element s' e = element s e)
  /\ calls s' = calls s.
Proof.
  intros Hacc Hurls Hlen s' o.
  destruct (media_success a s paths Hacc Hurls Hlen)
    as (s1 & Hrun & Hthis & _ & Hobs & Hcalls & Hin & Hout).
  assert (Hs : s' = s1) by (unfold s', state_after; now rewrite Hrun).
  assert (Hlook : observers s' !! o =
                  Some (Observer.mk (RenderMedia (attr_of a)) (this_options s')
                                    (resolved a s))).
  { rewrite Hs, Hobs. unfold o. rewrite lookup_app_r by lia.
    now rewrite Nat.sub_diag. }
  split; [unfold completion; now rewrite Hrun|].
  split; [now rewrite Hs|]. split; [exact Hlook|].
  split; [unfold targets_of; now rewrite Hlook|].
  rewrite Hs. auto.
Qed.

(** X3.  Locators that are not an array are ignored: the call, once its
    checks are passed, completes, leaves the document as it was and
    registers every resolved element. *)
Theorem media_ignores_non_array_locators (a : MediaArgs.t) (s : State) :
  media_accepted a s ->
  (forall urls, lazyUrls_of a <> VArray urls) ->
  let s' := state_after (media a) s in
  completion (media a) s = Normal tt
  /\ document s' = document s
  /\ targets_of s' (length (observers s)) = resolved a s.
Proof.
  intros Hacc Hna s'. subst s'. unfold completion, state_after, targets_of.
  rewrite (media_run a s Hacc).
  assert (Hloop : match lazyUrls_of a with
                  | VArray urls => assign_lazyUrls (resolved a s) urls 0
                  | _ => ret tt
                  end = ret tt).
  { destruct (lazyUrls_of a) as [| | | | |urls| | |]; try reflexivity.
    now contradiction (Hna urls). }
  rewrite Hloop, bind_ret, forEach_observe.
  unfold update_observer, modify, media_prepared.
  cbn [this_observer this_options observers calls document fst snd].
  split; [reflexivity|]. split; [reflexivity|].
  rewrite alter_app_r_alt by lia. rewrite Nat.sub_diag.
  rewrite lookup_app_r by lia. rewrite Nat.sub_diag. simpl.
  apply observe_each_fresh; [apply select_NoDup|].
  intros e _. apply not_elem_of_nil.
Qed.

(** X4.  When the first locator that is no string has a resolved element
    at its index or sits just past the last one, the call fails with the
    image-path error, an InvalidArgument, and the failure is not atomic:
    the new observer is installed, without targets, and the locators
    before the offending one stay assigned to their elements. *)
Theorem media_nonstring_locator_is_partial (a : MediaArgs.t) (s : State)
        (paths : list string) (u : JSValue) (rest : list JSValue) :
  media_accepted a s ->
  lazyUrls_of a = VArray ((VString <$> paths) ++ u :: rest) ->
  is_string u = false ->
  length paths <= length (resolved a s) ->
  let s' := state_after (media a) s in
  let o := length (observers s) in
  completion (media a) s = Abrupt ImagePathError
  /\ this_observer s' = Some o
  /\ length (observers s') = S (length (observers s))
  /\ targets_of s' o = []
  /\ (forall k e p, resolved a s !! k = Some e -> paths !! k = Some p ->
        dataset_lazyUrl (element s' e) = Some p).
Proof.
  intros Hacc Hurls Hu Hlen s' o. subst s'.
  unfold completion, state_after. rewrite (media_run a s Hacc), Hurls.
  destruct (assign_strings (resolved a s) paths 0 (media_prepared a s))
    as (s1 & Hrun & Hframe & Hin & _); [apply select_NoDup | simpl; lia |].
  assert (Hloop : assign_lazyUrls (resolved a s) ((VString <$> paths) ++ u :: rest) 0
                    (media_prepared a s) = (s1, Abrupt ImagePathError)).
  { rewrite assign_app, (bind_normal _ _ _ _ _ Hrun). simpl.
    destruct u; try reflexivity. discriminate. }
  rewrite (bind_abrupt _ _ _ _ _ Hloop). simpl.
  split; [reflexivity|]. rewrite Hframe.
  split; [reflexivity|].
  split; [simpl; rewrite length_app; simpl; lia|].
  split.
  - unfold targets_of, o. simpl. rewrite lookup_app_r by lia.
    now rewrite Nat.sub_diag.
  - intros k e p Hk Hp. rewrite <- Hframe, (Hin k e Hk), Nat.sub_0_r, Hp.
    destruct (decide (0 <= k)); [|lia].
    unfold dataset_lazyUrl, set_dataset_lazyUrl, getAttribute, with_attribute. simpl.
    apply lookup_insert_eq.
Qed.

(** X5.  The wrapper is checked first: a wrapper that is given and is no
    element ends the call with the wrapper error whatever the other
    arguments are.  The attribute name is checked third: when wrapper and
    selector pass, an attribute name that is given and is no string ends
    the call with the attribute error.  Either way the state is what it
    was. *)
Theorem media_rejects_wrapper_and_attr (a : MediaArgs.t) (s : State) :
  (wrapper_of a <> VNull -> validDOMElement (wrapper_of a) = false ->
   media a s = (s, Abrupt WrapperError))
  /\ (wrapper_of a = VNull \/ validDOMElement (wrapper_of a) = true ->
      srcTarget_of a = VNull
      \/ (exists sel, srcTarget_of a = VString sel /\ valid_selector sel = true
                      /\ select (document s) None sel <> []) ->
      attr_of a <> VNull -> is_string (attr_of a) = false ->
      media a s = (s, Abrupt AttrError)).
Proof.
  split.
  - intros Hn Hv. rewrite media_unfold.
    destruct (wrapper_of a); try reflexivity; [contradiction | discriminate].
  - intros Hw Hs Hn Ha. rewrite media_unfold.
    assert (Hw' : strict_ne_null (wrapper_of a) && negb (validDOMElement (wrapper_of a))
                  = false).
    { destruct Hw as [-> | ->]; [reflexivity | apply andb_false_r]. }
    rewrite Hw'. unfold when at 1. rewrite bind_ret.
    assert (Hcheck : srcTarget_check (srcTarget_of a) s = (s, Normal tt)).
    { destruct Hs as [-> | (sel & -> & Hv & Hne)]; [reflexivity|].
      unfold srcTarget_check. simpl. unfold bind.
      now rewrite validCSSSelector_found. }
    rewrite (bind_normal _ _ _ _ _ Hcheck).
    destruct (attr_of a); try reflexivity; [contradiction | discriminate].
Qed.

(** X6.  A selector string the engine cannot parse does not make the
    call fail with InvalidArgument: with an acceptable wrapper the call
    ends in the SyntaxError thrown inside [validCSSSelector], which the
    taxonomy does not know, and the state is what it was. *)
Theorem media_unparsable_selector (a : MediaArgs.t) (s : State) (sel : string) :
  wrapper_of a = VNull \/ validDOMElement (wrapper_of a) = true ->
  srcTarget_of a = VString sel ->
  valid_selector sel = false ->
  media a s = (s, Abrupt SyntaxError)
  /\ ~ fails_with InvalidArgument (completion (media a) s).
Proof.
  intros Hw Hs Hv.
  assert (Hrun : media a s = (s, Abrupt SyntaxError)).
  { rewrite media_unfold.
    assert (Hw' : strict_ne_null (wrapper_of a) && negb (validDOMElement (wrapper_of a))
                  = false).
    { destruct Hw as [-> | ->]; [reflexivity | apply andb_false_r]. }
    rewrite Hw'. unfold when at 1. rewrite bind_ret.
    erewrite bind_abrupt; [reflexivity|].
    rewrite Hs. unfold srcTarget_check. simpl. unfold bind.
    unfold validCSSSelector, querySelector, querySelectorAll. rewrite Hv. reflexivity. }
  split; [exact Hrun|]. unfold completion. rewrite Hrun.
  intros (t & [= <-] & Hc). discriminate.
Qed.

(** X7.  The checks of [media] on wrapper, selector, attribute name and
    options are atomic: when the call ends in one of their errors, the
    state is what it was, so that no observer was created, no
    configuration stored and no locator written.  And [media] never ends
    in an error of [execute] or of the handlers. *)
Theorem media_checks_are_atomic (a : MediaArgs.t) (s : State) (t : Thrown) :
  completion (media a) s = Abrupt t ->
  (t <> LazyUrlError /\ t <> ViewportEntryError /\ t <> ExeFnError)
  /\ (classify t = Some InvalidConfig
      \/ t = WrapperError \/ t = SrcTargetError \/ t = AttrError ->
      state_after (media a) s = s).
Proof.
  unfold completion, state_after. intros Hc.
  destruct (media_outcomes a s)
    as [Hm|[Hm|[Hm|[Hm|[(Ho & Hm)|[(t' & Hm & Hk)|[(t' & Hr & Hi & Hm)|[Hm|Hacc]]]]]]]];
    try (rewrite Hm in Hc |- *; injection Hc as <-;
         split; [repeat split; try discriminate | try reflexivity]).
  - intros ->; discriminate.
  - intros ->; discriminate.
  - intros ->; discriminate.
  - apply bind_Some in Hi as (i & _ & Hi). apply observer_init_platform in Hi.
    intros ->. discriminate.
  - apply bind_Some in Hi as (i & _ & Hi). apply observer_init_platform in Hi.
    intros ->. discriminate.
  - apply bind_Some in Hi as (i & _ & Hi). apply observer_init_platform in Hi.
    intros ->. discriminate.
  - apply bind_Some in Hi as (i & _ & Hi). apply observer_init_platform in Hi.
    intros [H|[H|[H|H]]]; [congruence | subst t'; discriminate ..].
  - intros [H|[H|[H|H]]]; discriminate.
  - destruct (media_accepted_shape a s Hacc) as (d & ts & c & Hrun & Hcs).
    rewrite Hrun in Hc |- *. simpl in Hc. subst c.
    destruct Hcs as [Hcs|[Hcs|Hcs]]; [discriminate | |]; injection Hcs as ->;
      (split; [repeat split; discriminate|]);
      intros [H|[H|[H|H]]]; discriminate.
Qed.

(** *** [execute] *)

(** X8.  [execute] fails with InvalidArgument exactly when its target is
    no element or its callback no function, the target being looked at
    first; it fails with InvalidConfig exactly when both are fine and the
    options, differing from the defaults, are refused; with both fine and
    [null] as options it ends in a TypeError.  All these failures leave
    the state as it was.  The one other failure is the refusal of the
    stored configuration by the observer constructor, which comes after
    the options were settled.  A call with [null] as its argument ends in
    a TypeError, and a call without argument in the target error. *)
Theorem execute_validation (a : ExecuteArgs.t) (s : State) :
  (fails_with InvalidArgument (completion (execute a) s)
   <-> validDOMElement (viewportEntry_of a) = false
       \/ is_function (exeFn_of a) = false)
  /\ (validDOMElement (viewportEntry_of a) = false ->
      completion (execute a) s = Abrupt ViewportEntryError)
  /\ (fails_with InvalidConfig (completion (execute a) s)
      <-> validDOMElement (viewportEntry_of a) = true
          /\ is_function (exeFn_of a) = true
          /\ fails_with InvalidConfig
               (completion (reconfigure (execute_options_of a)) s))
  /\ (validDOMElement (viewportEntry_of a) = true ->
      is_function (exeFn_of a) = true ->
      ExecuteArgs.options a = VNull ->
      execute a s = (s, Abrupt TypeError))
  /\ (forall t, completion (execute a) s = Abrupt t ->
      (classify t <> None \/ ExecuteArgs.options a = VNull ->
       state_after (execute a) s = s)
      /\ (classify t = None -> ExecuteArgs.options a <> VNull ->
          this_options (state_after (reconfigure (execute_options_of a)) s)
            ≫= observer_init = Some t
          /\ state_after (execute a) s
             = state_after (reconfigure (execute_options_of a)) s))
  /\ call_execute VNull s = (s, Abrupt TypeError)
  /\ call_execute VUndefined s = (s, Abrupt ViewportEntryError).
Proof.
  assert (Hnull : execute_options_of a = VNull <-> ExecuteArgs.options a = VNull).
  { unfold execute_options_of. destruct (ExecuteArgs.options a); simpl;
      split; intros H; try discriminate H; reflexivity. }
  assert (Hlast : call_execute VNull s = (s, Abrupt TypeError)
                  /\ call_execute VUndefined s = (s, Abrupt ViewportEntryError)).
  { split; reflexivity. }
  destruct (execute a s) as [s' c] eqn:Hm.
  unfold completion, state_after, fails_with. rewrite Hm. cbn [fst snd].
  unfold execute in Hm. cbv zeta in Hm.
  destruct (viewportEntry_of a) as [| | | | | |target| |];
    try (injection Hm as <- <-; simpl;
         split; [split; [auto | intros _; exists ViewportEntryError; auto]|];
         split; [reflexivity|];
         split; [split; [intros (t & [= <-] & H); discriminate
                        | intros (H & _); discriminate]|];
         split; [discriminate|];
         split; [|exact Hlast];
         intros t [= <-]; split; [reflexivity | discriminate]).
  destruct (exeFn_of a) as [| | | | | | |f|];
    try (injection Hm as <- <-; simpl;
         split; [split; [auto | intros _; exists ExeFnError; auto]|];
         split; [discriminate|];
         split; [split; [intros (t & [= <-] & H); discriminate
                        | intros (_ & H & _); discriminate]|];
         split; [discriminate|];
         split; [|exact Hlast];
         intros t [= <-]; split; [reflexivity | discriminate]).
  simpl in Hm |- *. unfold when in Hm. rewrite !bind_ret in Hm.
  destruct (reconfigure_cases (execute_options_of a) s)
    as [(Hab & Ht)|[(Hna & t & Ht & Hc & _)|(Hna & i & Hi & _)]].
  - rewrite (bind_abrupt _ _ _ _ _ Ht) in Hm. injection Hm as <- <-. rewrite Ht. simpl.
    assert (Ho : ExecuteArgs.options a = VNull).
    { apply Hnull. destruct Hab as [Hab|Hab]; [exact Hab|].
      unfold execute_options_of in Hab. destruct (ExecuteArgs.options a); discriminate. }
    split; [split; [intros (t' & [= <-] & H); discriminate
                   | intros [H|H]; discriminate]|].
    split; [discriminate|].
    split; [split; [intros (t' & [= <-] & H); discriminate
                   | intros (_ & _ & t' & [= <-] & H); discriminate]|].
    split; [reflexivity|]. split; [|exact Hlast].
    intros t' [= <-]. split; [reflexivity|]. intros _ H. contradiction.
  - rewrite (bind_abrupt _ _ _ _ _ Ht) in Hm. injection Hm as <- <-. rewrite Ht. simpl.
    assert (Ho : ExecuteArgs.options a <> VNull).
    { intros H. apply Hnull in H. apply Hna. now left. }
    split; [split; [intros (t' & [= <-] & H); congruence
                   | intros [H|H]; discriminate]|].
    split; [discriminate|].
    split; [split; [intros _; eauto | intros _; eauto]|].
    split; [intros _ _ H; contradiction|]. split; [|exact Hlast].
    intros t' [= <-]. split; [reflexivity|]. intros H. congruence.
  - rewrite (bind_normal _ _ _ _ _ Hi) in Hm. rewrite Hi. simpl.
    assert (Ho : ExecuteArgs.options a <> VNull).
    { intros H. apply Hnull in H. apply Hna. now left. }
    unfold bind at 1, new_IntersectionObserver in Hm.
    cbn [this_options this_observer observers calls document] in Hm.
    destruct (i ≫= observer_init) as [t|] eqn:Ek.
    + injection Hm as <- <-.
      assert (Hp : classify t = None).
      { apply bind_Some in Ek as (i' & _ & Ek). now apply observer_init_platform in Ek. }
      split; [split; [intros (t' & [= <-] & H); congruence
                     | intros [H|H]; discriminate]|].
      split; [discriminate|].
      split; [split; [intros (t' & [= <-] & H); congruence
                     | intros (_ & _ & t' & H & _); discriminate]|].
      split; [intros _ _ H; contradiction|]. split; [|exact Hlast].
      intros t' [= <-]. split; [intros [H|H]; contradiction | auto].
    + unfold bind, set_this_observer, observe, update_observer, modify in Hm.
      injection Hm as <- <-.
      split; [split; [intros (t' & H & _); discriminate
                     | intros [H|H]; discriminate]|].
      split; [discriminate|].
      split; [split; [intros (t' & H & _); discriminate
                     | intros (_ & _ & t' & H & _); discriminate]|].
      split; [intros _ _ H; contradiction|]. split; [|exact Hlast].
      intros t' H. discriminate.
Qed.

(** X17.  An [execute] call with an element, a function and options
    that are the defaults or are accepted, when the observer constructor
    accepts the configuration then stored, completes without running the
    function and without touching the document.  The observer it installs
    is created with the configuration stored when the call ends, which is
    the one the call itself validated when its options differ from the
    defaults.  When the constructor refuses that configuration, the call
    ends in the constructor's exception, with the options settled and no
    observer created. *)
Theorem execute_installs_observer (a : ExecuteArgs.t) (s : State)
        (target : Elem) (f : Fn) :
  viewportEntry_of a = VElement target ->
  exeFn_of a = VFunction f ->
  completion (reconfigure (execute_options_of a)) s = Normal tt ->
  let s' := state_after (execute a) s in
  (constructible (state_after (reconfigure (execute_options_of a)) s) ->
   observers s' !! length (observers s)
   = Some (Observer.mk (HandleFunctionExecution f) (this_options s') [target])
   /\ document s' = document s
   /\ calls s' = calls s
   /\ (differs_from_defaults (read_options (execute_options_of a)) = true ->
       this_options s'
       = this_options (state_after (config (read_options (execute_options_of a))) s)
       /\ is_Some (this_options s')))
  /\ (forall t,
      this_options (state_after (reconfigure (execute_options_of a)) s)
        ≫= observer_init = Some t ->
      execute a s = (state_after (reconfigure (execute_options_of a)) s, Abrupt t)
      /\ observers s' = observers s).
Proof.
  intros Hv Hf Hr s'.
  destruct (execute_run a s target f Hv Hf Hr) as [(Hk & Hrun)|(t & Hbad & Hrun)].
  - assert (Hs : s' = execute_done a target f s).
    { unfold s', state_after. now rewrite Hrun. }
    split.
    + intros _. rewrite Hs. unfold execute_done. simpl.
      split; [rewrite lookup_app_r by lia; now rewrite Nat.sub_diag|].
      split; [reflexivity|]. split; [reflexivity|].
      intros Hd. unfold state_after.
      destruct (reconfigure_cases (execute_options_of a) s)
        as [(_ & Ht)|[(_ & t & Ht & _)|(_ & i & Hi & _ & Hcfg)]].
      * unfold completion in Hr. rewrite Ht in Hr. discriminate.
      * unfold completion in Hr. rewrite Ht in Hr. discriminate.
      * destruct (Hcfg Hd) as (Hc & Hsome). rewrite Hi, Hc. simpl. auto.
    + intros t Ht. unfold constructible in Hk. rewrite Hk in Ht. discriminate.
  - split.
    + intros Hk. unfold constructible in Hk. rewrite Hk in Hbad. discriminate.
    + intros t' Ht'. rewrite Hbad in Ht'. injection Ht' as <-.
      split; [exact Hrun|]. unfold s', state_after at 1. rewrite Hrun. simpl.
      destruct (reconfigure_frame (execute_options_of a) s) as (i & -> & _).
      reflexivity.
Qed.

(** X9.  Neither [media] nor [execute] touches the observers created
    before: whatever the outcome of the call, they keep their callback,
    their options and their targets, so that an element registered by an
    earlier call stays registered with the earlier observer.  A call adds
    at most one observer. *)
Theorem calls_keep_earlier_observers :
  (forall (a : MediaArgs.t) (s : State),
      exists added, observers (state_after (media a) s) = observers s ++ added
                    /\ length added <= 1)
  /\ (forall (a : ExecuteArgs.t) (s : State),
      exists added, observers (state_after (execute a) s) = observers s ++ added
                    /\ length added <= 1).
Proof.
  split; intros a s; unfold state_after.
  - destruct (media_outcomes a s)
      as [Hm|[Hm|[Hm|[Hm|[(Ho & Hm)|[(t & Hm & Hc)|[(t & Hr & _ & Hm)|[Hm|Hacc]]]]]]]];
      try (rewrite Hm; exists []; split; [now rewrite app_nil_r | simpl; lia]).
    + rewrite Hm. destruct (reconfigure_frame (options_of a) s) as (i & -> & _).
      exists []. split; [simpl; now rewrite app_nil_r | simpl; lia].
    + rewrite Hm. simpl. eexists. split; [reflexivity | simpl; lia].
    + destruct (media_accepted_shape a s Hacc) as (d & ts & c & Hrun & _).
      rewrite Hrun. simpl. eexists. split; [reflexivity | simpl; lia].
  - destruct (execute_cases a s)
      as [(target & f & _ & _ & _ & _ & ->)|[(t & -> & _)|(t & _ & _ & ->)]].
    + simpl. eexists. split; [reflexivity | simpl; lia].
    + exists []. split; [now rewrite app_nil_r | simpl; lia].
    + destruct (reconfigure_frame (execute_options_of a) s) as (i & -> & _).
      exists []. split; [simpl; now rewrite app_nil_r | simpl; lia].
Qed.

(** *** [#config] *)

(** X10.  A reconfiguration replaces the stored configuration, it does
    not merge into it: whether [#config] accepts its options and what it
    stores depend on the options alone, not on the state; a property left
    undefined takes its default (null, 0, 0), not the value stored before;
    and a refused reconfiguration leaves the state as it was. *)
Theorem config_replaces (o : Options.t) (s s0 : State) :
  completion (config o) s = completion (config o) s0
  /\ (completion (config o) s = Normal tt ->
      this_options (state_after (config o) s)
      = this_options (state_after (config o) s0))
  /\ (forall t, completion (config o) s = Abrupt t -> state_after (config o) s = s)
  /\ config o =
     config (Options.mk (or_default VNull (Options.root o))
                        (or_default (VNumber 0) (Options.loadBefore o))
                        (or_default (VNumber 0) (Options.loadAfter o))).
Proof.
  split; [|split; [|split]].
  - unfold completion. rewrite config_unfold. cbv zeta.
    destruct (negb _); [reflexivity|].
    destruct (loadBefore_guard _); [reflexivity|].
    destruct (loadAfter_guard _); [reflexivity|].
    now destruct (or_default (VNumber 0) (Options.loadBefore o)).
  - unfold completion, state_after. rewrite config_unfold. cbv zeta.
    destruct (negb _); [discriminate|].
    destruct (loadBefore_guard _) eqn:Eb; [discriminate|].
    destruct (loadAfter_guard _); [discriminate|].
    destruct (or_default (VNumber 0) (Options.loadBefore o)); try discriminate Eb.
    reflexivity.
  - intros t. unfold completion, state_after.
    destruct (config_cases o s) as [(t' & -> & _)|(q & _ & _ & _ & _ & ->)];
      [reflexivity | discriminate].
  - destruct o as [r b a]. destruct r, b, a; reflexivity.
Qed.

(** *** The handlers *)

(** Statements that make no call change the document and nothing
    else. *)
Lemma quiet_body sts s :
  Forall no_call sts ->
  exists d, state_after (forEach statement sts) s = with_document d s.
Proof.
  intros Hq. revert s. induction Hq as [|st sts Hst Hq IH]; intros s.
  - exists (document s). unfold state_after. simpl. now destruct s.
  - unfold state_after. cbn [forEach]. unfold bind.
    destruct st as [argument|argument|e f|t]; try contradiction; simpl.
    + destruct (IH (with_document (<[e := f (element s e)]> (document s)) s))
        as (d & Hd). exists d. exact Hd.
    + exists (document s). now destruct s.
Qed.

Lemma quiet_call f s :
  Forall no_call (body f) -> only_unregistered s (state_after (call f) s).
Proof.
  intros Hq. unfold call, state_after, bind, log_call, modify.
  destruct (quiet_body (body f)
              (mkState (this_observer s) (this_options s) (document s) (observers s)
                       (calls s ++ [f])) Hq) as (d & Hd).
  unfold state_after in Hd.
  destruct (forEach statement (body f) _) as [s1 [[]|t]]; simpl in *; subst s1;
    (split; [reflexivity|]; split; [reflexivity|]; apply shrunk_all_refl).
Qed.

Lemma quiet_handler f o batch s :
  Forall no_call (body f) ->
  only_unregistered s (state_after (handleFunctionExecution f batch o) s).
Proof.
  intros Hq. unfold handleFunctionExecution. revert s.
  induction batch as [|en batch IH]; intros s; [apply only_unregistered_refl|].
  assert (Hen : only_unregistered s (state_after (handleFunctionExecution_entry f o en) s)).
  { unfold handleFunctionExecution_entry, state_after.
    destruct (Entry.isIntersecting en); [|apply only_unregistered_refl].
    pose proof (quiet_call f s Hq) as Hc. unfold bind, state_after in *.
    destruct (call f s) as [s1 [[]|t]]; simpl in *; [|exact Hc].
    eapply only_unregistered_trans; [exact Hc|].
    split; [reflexivity|]. split; [reflexivity|]. apply unobserve_shrinks. }
  unfold state_after in *. simpl. unfold bind.
  destruct (handleFunctionExecution_entry f o en s) as [s1 [[]|t]]; simpl in *;
    [|exact Hen].
  eapply only_unregistered_trans; [exact Hen | apply IH].
Qed.

(** X11.  Handling a notification never touches the observers that
    exist but to drop targets: whatever batch is delivered to whatever
    observer, and whether or not the handler raises, every observer of
    before is there, with its callback and its options and no target it
    did not hold, followed by the observers created since.  A media
    observer, and a callback observer whose function calls neither [media]
    nor [execute], create none and leave [#observer] and [#options] as
    they were.  An observer that does not exist is told nothing. *)
Theorem deliver_only_unregisters (o : ObserverRef) (batch : list Entry.t) (s : State) :
  let s' := state_after (deliver o batch) s in
  observers_kept s s'
  /\ (forall attr i ts,
      observers s !! o = Some (Observer.mk (RenderMedia attr) i ts) ->
      only_unregistered s s')
  /\ (forall f i ts,
      observers s !! o = Some (Observer.mk (HandleFunctionExecution f) i ts) ->
      Forall no_call (body f) ->
      only_unregistered s s')
  /\ (observers s !! o = None -> s' = s).
Proof.
  intros s'. subst s'. split; [apply deliver_kept|].
  unfold state_after, deliver. split; [|split].
  - intros attr i ts ->. apply renderMedia_only_unregisters.
  - intros f i ts -> Hq. now apply quiet_handler.
  - intros ->. reflexivity.
Qed.

(** X12.  Records that report no intersection are passed over by both
    handlers: a batch made of such records is handled to the end and
    leaves the state as it was, so that the elements stay registered. *)
Theorem handlers_skip_non_intersecting (attr : JSValue) (f : Fn) (o : ObserverRef)
        (batch : list Entry.t) (s : State) :
  Forall (fun en => Entry.isIntersecting en = false) batch ->
  renderMedia attr batch o s = (s, Normal tt)
  /\ handleFunctionExecution f batch o s = (s, Normal tt).
Proof.
  unfold renderMedia, handleFunctionExecution.
  induction 1 as [|[b e] batch Hb _ [IH1 IH2]]; [split; reflexivity|].
  simpl in Hb. subst b. simpl. unfold bind.
  unfold renderMedia_entry, handleFunctionExecution_entry. simpl. auto.
Qed.

(** X13.  The media handler writes only to the elements that the batch
    reports as intersecting: every other element is what it was, and no
    function is called. *)
Theorem renderMedia_touches_reported_only (attr : JSValue) (o : ObserverRef)
        (batch : list Entry.t) (s : State) :
  let s' := state_after (renderMedia attr batch o) s in
  calls s' = calls s
  /\ forall e, e ∉ intersecting_targets batch -> element s' e = element s e.
Proof.
  unfold renderMedia, state_after, intersecting_targets. revert s.
  induction batch as [|en batch IH]; intros s; [split; reflexivity|].
  simpl. unfold bind.
  destruct (renderMedia_entry_cases attr o en s)
    as [(Hi & ->)|[(_ & _ & ->)|[(path & _ & _ & _ & ->)|(path & el' & Hi & _ & _ & ->)]]].
  - rewrite filter_cons_False by congruence. apply IH.
  - split; reflexivity.
  - split; reflexivity.
  - rewrite filter_cons_True by exact Hi. rewrite fmap_cons.
    destruct (IH (rendered o (Entry.target en) el' s)) as (Hc & He).
    split; [exact Hc|]. intros e Hne. apply not_elem_of_cons in Hne as [Hne Hrest].
    rewrite (He e Hrest), element_rendered. now rewrite decide_False.
Qed.

(** The callback handler, when it completes. *)
Lemma handleFunctionExecution_completes f o batch s :
  o < length (observers s) ->
  completion (handleFunctionExecution f batch o) s = Normal tt ->
  calls (state_after (handleFunctionExecution f batch o) s)
  = calls s ++ replicate (length (intersecting_targets batch)) f
  /\ targets_of (state_after (handleFunctionExecution f batch o) s) o
     = filter (fun e => e ∉ intersecting_targets batch) (targets_of s o)
  /\ o < length (observers (state_after (handleFunctionExecution f batch o) s)).
Proof.
  unfold handleFunctionExecution, completion, state_after, intersecting_targets.
  revert s. induction batch as [|[[] e] batch IH]; intros s Ho Hn.
  - simpl. rewrite app_nil_r. split; [reflexivity|]. split; [|exact Ho].
    symmetry. apply filter_not_in_nil.
  - rewrite filter_cons_True by reflexivity. rewrite fmap_cons. cbn [Entry.target].
    cbn [forEach] in Hn |- *.
    change (handleFunctionExecution_entry f o (Entry.mk true e))
      with (bind (call f) (fun _ => unobserve o e)) in Hn |- *.
    destruct (call_frame f s) as (Hc & _).
    destruct (call_targets f s o Ho) as (Ht & Hl).
    unfold state_after in Hc, Ht, Hl.
    destruct (call f s) as [s1 [[]|t]] eqn:E; simpl in Hc, Ht, Hl.
    + rewrite bind_assoc in Hn |- *.
      rewrite (bind_normal _ _ _ _ _ E) in Hn |- *.
      rewrite (bind_normal _ _ _ _ _ (unobserve_run o e s1)) in Hn |- *.
      destruct (IH (unobserved o e s1)) as (Hcalls & Htargets & Hlen).
      { unfold unobserved. simpl. now rewrite length_alter. }
      { exact Hn. }
      split; [|split; [|exact Hlen]].
      * rewrite Hcalls. simpl. rewrite Hc. now rewrite <- app_assoc.
      * rewrite Htargets, targets_of_unobserved, decide_True by reflexivity.
        rewrite Ht, list_filter_filter. apply list_filter_iff.
        intros x. rewrite not_elem_of_cons. tauto.
    + rewrite bind_assoc in Hn. rewrite (bind_abrupt _ _ _ _ _ E) in Hn. discriminate.
  - rewrite filter_cons_False by discriminate.
    cbn [forEach] in Hn |- *.
    change (handleFunctionExecution_entry f o (Entry.mk false e))
      with (ret tt : JS unit) in Hn |- *.
    rewrite bind_ret in Hn. rewrite !bind_ret.
    now apply IH.
Qed.

(** X14.  The callback handler invokes the function once for every
    record of the batch that reports an intersection, whatever the target
    of the record, until an invocation raises.  When it completes, the
    invocations recorded are as many as these records and the observer is
    left with the targets that no such record names.  When an invocation
    raises, the handler ends with its error: the invocation is recorded,
    the deregistration that would have followed is skipped and the later
    records are not looked at. *)
Theorem handleFunctionExecution_counts (f : Fn) (o : ObserverRef) (s : State) :
  o < length (observers s) ->
  (forall (before : list Entry.t) (entry : Entry.t) (after : list Entry.t)
          (s1 s2 : State) (t : Thrown),
      handleFunctionExecution f before o s = (s1, Normal tt) ->
      handleFunctionExecution_entry f o entry s1 = (s2, Abrupt t) ->
      Entry.isIntersecting entry = true
      /\ call f s1 = (s2, Abrupt t)
      /\ targets_of s2 o = targets_of s1 o
      /\ calls s2 = calls s ++ replicate (S (length (intersecting_targets before))) f
      /\ handleFunctionExecution f (before ++ entry :: after) o s = (s2, Abrupt t))
  /\ (forall batch : list Entry.t,
      completion (handleFunctionExecution f batch o) s = Normal tt ->
      let s' := state_after (handleFunctionExecution f batch o) s in
      calls s' = calls s ++ replicate (length (intersecting_targets batch)) f
      /\ targets_of s' o
         = filter (fun e => e ∉ intersecting_targets batch) (targets_of s o)).
Proof.
  intros Ho. split.
  - intros before entry after s1 s2 t Hb He.
    destruct (handleFunctionExecution_completes f o before s Ho)
      as (Hcalls & _ & Hlen).
    { unfold completion. now rewrite Hb. }
    unfold state_after in Hcalls, Hlen. rewrite Hb in Hcalls, Hlen. simpl in Hcalls, Hlen.
    assert (Hi : Entry.isIntersecting entry = true).
    { destruct entry as [[] e]; [reflexivity|]. discriminate He. }
    assert (Hcall : call f s1 = (s2, Abrupt t)).
    { unfold handleFunctionExecution_entry in He. rewrite Hi in He.
      unfold bind in He. destruct (call f s1) as [s' [[]|t']]; [discriminate | exact He]. }
    split; [exact Hi|]. split; [exact Hcall|].
    destruct (call_frame f s1) as (Hc & _).
    destruct (call_targets f s1 o Hlen) as (Ht & _).
    unfold state_after in Hc, Ht. rewrite Hcall in Hc, Ht. simpl in Hc, Ht.
    split; [exact Ht|]. split.
    + rewrite Hc, Hcalls, replicate_S_end. now rewrite app_assoc.
    + unfold handleFunctionExecution in *.
      rewrite forEach_app, (bind_normal _ _ _ _ _ Hb).
      cbn [forEach]. unfold bind. now rewrite He.
  - intros batch Hn s'.
    destruct (handleFunctionExecution_completes f o batch s Ho Hn) as (H1 & H2 & _).
    auto.
Qed.

Lemma deliver_single o s attr i ts e path el' :
  observers s !! o = Some (Observer.mk (RenderMedia attr) i ts) ->
  e ∈ ts ->
  or_null (dataset_lazyUrl (element s e)) = Some path ->
  sourced attr path (element s e) = Some el' ->
  deliver o [Entry.mk true e] s = (rendered o e el' s, Normal tt).
Proof.
  intros Ho He Hp Hs.
  unfold deliver. rewrite Ho. simpl. rewrite reported_cons_in by exact He.
  unfold reported. rewrite filter_nil. unfold renderMedia. simpl.
  unfold bind. now rewrite (renderMedia_entry_with_locator attr o e s path el' Hp Hs).
Qed.

(** X15.  An element registered with two media observers is rendered by
    the first that is told of its intersection, when the platform accepts
    the attribute name of that observer; the second keeps it as a target,
    finds no locator when its own notification comes and raises
    MissingResourceLocator, leaving everything as it is.  When the
    platform refuses the name of the first observer, its handler ends in
    the platform's exception with nothing changed, and the locator is
    there for the second observer to apply. *)
Theorem second_observer_finds_no_locator (s : State) (o1 o2 : ObserverRef)
        (attr1 attr2 : JSValue) (i1 i2 : option Init.t) (ts1 ts2 : list Elem)
        (e : Elem) (path : string) :
  o1 <> o2 ->
  observers s !! o1 = Some (Observer.mk (RenderMedia attr1) i1 ts1) ->
  observers s !! o2 = Some (Observer.mk (RenderMedia attr2) i2 ts2) ->
  e ∈ ts1 -> e ∈ ts2 ->
  or_null (dataset_lazyUrl (element s e)) = Some path ->
  let s1 := state_after (deliver o1 [Entry.mk true e]) s in
  (forall el', sourced attr1 path (element s e) = Some el' ->
     completion (deliver o1 [Entry.mk true e]) s = Normal tt
     /\ element s1 e = el'
     /\ e ∈ targets_of s1 o2
     /\ deliver o2 [Entry.mk true e] s1 = (s1, Abrupt LazyUrlError))
  /\ (sourced attr1 path (element s e) = None ->
      deliver o1 [Entry.mk true e] s = (s, Abrupt InvalidCharacterError)
      /\ forall el2, sourced attr2 path (element s e) = Some el2 ->
           deliver o2 [Entry.mk true e] s1 = (rendered o2 e el2 s, Normal tt)).
Proof.
  intros Hne H1 H2 He1 He2 Hp s1. split.
  - intros el' Hs.
    pose proof (deliver_single o1 s attr1 i1 ts1 e path el' H1 He1 Hp Hs) as Hrun.
    assert (Hs1 : s1 = rendered o1 e el' s).
    { unfold s1, state_after. now rewrite Hrun. }
    assert (Hlook : observers s1 !! o2 = Some (Observer.mk (RenderMedia attr2) i2 ts2)).
    { rewrite Hs1. unfold rendered. simpl. now rewrite list_lookup_alter_ne. }
    split; [unfold completion; now rewrite Hrun|].
    split; [rewrite Hs1, element_rendered; now rewrite decide_True|].
    split; [unfold targets_of; now rewrite Hlook|].
    unfold deliver. rewrite Hlook. simpl. rewrite reported_cons_in by exact He2.
    unfold reported. rewrite filter_nil. unfold renderMedia. simpl. unfold bind.
    rewrite renderMedia_entry_without_locator; [reflexivity|].
    rewrite Hs1, element_rendered, decide_True by reflexivity.
    now rewrite (sourced_clears_locator _ _ _ _ Hs).
  - intros Hs.
    assert (Hrun : deliver o1 [Entry.mk true e] s = (s, Abrupt InvalidCharacterError)).
    { unfold deliver. rewrite H1. simpl. rewrite reported_cons_in by exact He1.
      unfold reported. rewrite filter_nil. unfold renderMedia. simpl. unfold bind.
      now rewrite (renderMedia_entry_refused attr1 o1 e s path Hp Hs). }
    split; [exact Hrun|]. intros el2 Hs2.
    assert (Hs1 : s1 = s) by (unfold s1, state_after; now rewrite Hrun).
    rewrite Hs1. now apply (deliver_single o2 s attr2 i2 ts2 e path).
Qed.

(** X18.  A batch can report a target more than once.  When the media
    handler has applied the locator of a target, a later record of the same
    batch that reports the target intersecting again finds the locator
    cleared: the handler raises MissingResourceLocator there, with the
    element rendered once and the later records not handled. *)
Theorem renderMedia_repeated_record (attr : JSValue) (o : ObserverRef) (e : Elem)
        (s : State) (path : string) (el' : Element.t)
        (between after : list Entry.t) :
  or_null (dataset_lazyUrl (element s e)) = Some path ->
  sourced attr path (element s e) = Some el' ->
  Forall (fun en => Entry.isIntersecting en = false) between ->
  renderMedia attr (Entry.mk true e :: between ++ Entry.mk true e :: after) o s
  = (rendered o e el' s, Abrupt LazyUrlError)
  /\ element (rendered o e el' s) e = el'.
Proof.
  intros Hp Hs Hb. split; [|rewrite element_rendered; now rewrite decide_True].
  assert (Hskip : forall s0, renderMedia attr between o s0 = (s0, Normal tt)).
  { intros s0. unfold renderMedia. induction Hb as [|[b x] between Hx _ IH]; [reflexivity|].
    simpl in Hx. subst b. simpl. unfold bind. unfold renderMedia_entry at 1. simpl.
    exact IH. }
  unfold renderMedia in *. cbn [forEach]. unfold bind at 1.
  rewrite (renderMedia_entry_with_locator attr o e s path el' Hp Hs).
  rewrite forEach_app, (bind_normal _ _ _ _ _ (Hskip _)).
  cbn [forEach]. unfold bind.
  rewrite renderMedia_entry_without_locator; [reflexivity|].
  rewrite element_rendered, decide_True by reflexivity.
  now rewrite (sourced_clears_locator _ _ _ _ Hs).
Qed.

(** *** Arguments and options that are [null] *)

Lemma media_checked_run a s :
  media_checked a s ->
  media a s =
  (reconfigure (options_of a) ;;
   o <- new_IntersectionObserver (RenderMedia (attr_of a)) ;;
   set_this_observer o ;;
   imgElements <- querySelectorAll (scope_of (wrapper_of a))
                                   (selector_text (srcTarget_of a)) ;;
   match lazyUrls_of a with
   | VArray urls => assign_lazyUrls imgElements urls 0
   | _ => ret tt
   end ;;
   forEach (fun srcElem => observe o srcElem) imgElements) s.
Proof.
  intros (Hw & Hs & Ha). rewrite media_unfold.
  assert (Hw' : strict_ne_null (wrapper_of a) && negb (validDOMElement (wrapper_of a))
                = false).
  { destruct Hw as [-> | ->]; [reflexivity | apply andb_false_r]. }
  rewrite Hw'. unfold when at 1. rewrite bind_ret.
  assert (Hcheck : srcTarget_check (srcTarget_of a) s = (s, Normal tt)).
  { destruct Hs as [-> | (sel & -> & Hv & Hne)]; [reflexivity|].
    unfold srcTarget_check. simpl. unfold bind.
    now rewrite validCSSSelector_found. }
  rewrite (bind_normal _ _ _ _ _ Hcheck).
  assert (Ha' : strict_ne_null (attr_of a)
                && (is_undefined (attr_of a) || negb (is_string (attr_of a))) = false).
  { destruct Ha as [-> | Hstr]; [reflexivity|].
    destruct (attr_of a); try discriminate; reflexivity. }
  rewrite Ha'. unfold when at 1. now rewrite bind_ret.
Qed.

(** X19.  [media] called with [null] as its argument ends in a
    TypeError, the parameter pattern having nothing to read; called
    without argument it is [media] on the empty object.  With [null] as
    its options a call that passes the checks on wrapper, selector and
    attribute name ends in a TypeError as well, which is no InvalidConfig;
    either way the state is what it was. *)
Theorem media_null_is_type_error (s : State) :
  call_media VNull s = (s, Abrupt TypeError)
  /\ call_media VUndefined s
     = media (MediaArgs.mk VUndefined VUndefined VUndefined VUndefined VUndefined) s
  /\ (forall argument, argument <> VNull -> argument <> VUndefined ->
      call_media argument s
      = media (MediaArgs.mk (property "wrapper" argument) (property "srcTarget" argument)
                            (property "attr" argument) (property "lazyUrls" argument)
                            (property "options" argument)) s)
  /\ (forall a, MediaArgs.options a = VNull -> media_checked a s ->
      media a s = (s, Abrupt TypeError)
      /\ ~ fails_with InvalidConfig (completion (media a) s)).
Proof.
  split; [reflexivity|]. split; [reflexivity|]. split.
  - intros argument Hn Hu. destruct argument; try reflexivity; contradiction.
  - intros a Ho Hc.
    assert (Hrun : media a s = (s, Abrupt TypeError)).
    { rewrite (media_checked_run a s Hc).
      assert (Hopt : options_of a = VNull) by (unfold options_of; now rewrite Ho).
      rewrite Hopt. reflexivity. }
    split; [exact Hrun|]. unfold completion. rewrite Hrun.
    intros (t & [= <-] & H). discriminate.
Qed.

(** X20.  The observer is constructed after the options were settled.
    When the constructor refuses the configuration that a call has just
    stored, the call ends in the constructor's exception with that
    configuration in place and no observer created; from then on every
    call of [media] or [execute] that passes its checks and brings the
    default options, which keep the stored configuration, ends in the same
    exception. *)
Theorem refused_configuration_persists (a : MediaArgs.t) (s : State) (t : Thrown) :
  media_checked a s ->
  completion (reconfigure (options_of a)) s = Normal tt ->
  this_options (state_after (reconfigure (options_of a)) s) ≫= observer_init = Some t ->
  let s' := state_after (media a) s in
  media a s = (state_after (reconfigure (options_of a)) s, Abrupt t)
  /\ observers s' = observers s
  /\ this_observer s' = this_observer s
  /\ document s' = document s
  /\ (forall a', explicit_defaults (MediaArgs.options a') -> media_checked a' s' ->
      media a' s' = (s', Abrupt t))
  /\ (forall a', explicit_defaults (ExecuteArgs.options a') ->
      validDOMElement (viewportEntry_of a') = true ->
      is_function (exeFn_of a') = true ->
      execute a' s' = (s', Abrupt t)).
Proof.
  intros Hc Hr Hbad s'.
  assert (Hrun : media a s = (state_after (reconfigure (options_of a)) s, Abrupt t)).
  { rewrite (media_checked_run a s Hc). unfold state_after, completion in *.
    destruct (reconfigure (options_of a) s) as [s1 [[]|t']] eqn:E; [|discriminate].
    unfold bind at 1. rewrite E. simpl in Hbad |- *.
    unfold bind at 1, new_IntersectionObserver. now rewrite Hbad. }
  assert (Hs' : s' = state_after (reconfigure (options_of a)) s).
  { unfold s', state_after at 1. now rewrite Hrun. }
  assert (Hbad' : this_options s' ≫= observer_init = Some t) by now rewrite Hs'.
  split; [exact Hrun|].
  destruct (reconfigure_frame (options_of a) s) as (i & Hi & _).
  rewrite Hs' at 1 2 3. rewrite Hi. simpl.
  split; [reflexivity|]. split; [reflexivity|]. split; [reflexivity|]. split.
  - intros a' Hd Hc'. apply explicit_defaults_guard in Hd as [Hna Hd].
    rewrite (media_checked_run a' s' Hc').
    rewrite (bind_normal _ _ _ _ _ (reconfigure_keeps_defaults _ s' Hna Hd)).
    unfold bind at 1, new_IntersectionObserver. now rewrite Hbad'.
  - intros a' Hd Hv Hf. apply explicit_defaults_guard in Hd as [Hna Hd].
    unfold execute. cbv zeta. rewrite Hv, Hf. simpl. unfold when. rewrite !bind_ret.
    change (or_default default_options (ExecuteArgs.options a'))
      with (execute_options_of a') in Hna, Hd.
    rewrite (bind_normal _ _ _ _ _ (reconfigure_keeps_defaults _ s' Hna Hd)).
    destruct (viewportEntry_of a'); try discriminate Hv.
    destruct (exeFn_of a'); try discriminate Hf.
    unfold bind at 1, new_IntersectionObserver. now rewrite Hbad'.
Qed.

(** X21.  The selector is checked against the whole document and
    queried under the wrapper.  A call that gives an element as wrapper
    and a selector, and no locators, registers the elements the selector
    matches under that element, in document order, although the check has
    only made sure that the selector matches somewhere in the document:
    when it matches nothing under the wrapper the call completes and
    registers nothing.  Without a wrapper the whole document is
    queried. *)
Theorem media_queries_the_wrapper (a : MediaArgs.t) (s : State) (sel : string) :
  MediaArgs.srcTarget a = VString sel ->
  MediaArgs.lazyUrls a = VUndefined ->
  media_accepted a s ->
  let s' := state_after (media a) s in
  completion (media a) s = Normal tt
  /\ select (document s) None sel <> []
  /\ (forall w, MediaArgs.wrapper a = VElement w ->
      targets_of s' (length (observers s)) = select (document s) (Some w) sel)
  /\ (MediaArgs.wrapper a = VUndefined \/ MediaArgs.wrapper a = VNull ->
      targets_of s' (length (observers s)) = select (document s) None sel)
  /\ document s' = document s.
Proof.
  intros Hsel Hurls Hacc s'.
  assert (Hl : lazyUrls_of a = VArray (VString <$> [])).
  { unfold lazyUrls_of. now rewrite Hurls. }
  destruct (media_success a s [] Hacc Hl)
    as (s1 & Hrun & _ & _ & Hobs & _ & Hin & Hout); [simpl; lia|].
  assert (Hs : s' = s1) by (unfold s', state_after; now rewrite Hrun).
  assert (Hts : targets_of s' (length (observers s)) = resolved a s).
  { unfold targets_of. rewrite Hs, Hobs. rewrite lookup_app_r by lia.
    now rewrite Nat.sub_diag. }
  assert (Ht : srcTarget_of a = VString sel) by (unfold srcTarget_of; now rewrite Hsel).
  split; [unfold completion; now rewrite Hrun|]. split.
  { destruct Hacc as (_ & [Hn|(sel' & Hs' & Hne)] & _); rewrite Ht in *;
      [discriminate | now injection Hs' as <-]. }
  split; [|split].
  - intros w Hw. rewrite Hts. unfold resolved, wrapper_of. now rewrite Hw, Ht.
  - intros Hw. rewrite Hts. unfold resolved, wrapper_of. rewrite Ht.
    destruct Hw as [-> | ->]; reflexivity.
  - rewrite Hs. pose proof (media_after_preparation a s Hacc) as _.
    rewrite (media_run a s Hacc), Hl in Hrun. simpl in Hrun.
    rewrite bind_ret, forEach_observe in Hrun.
    unfold update_observer, modify in Hrun. injection Hrun as <-. reflexivity.
Qed.

(** *** An invariant of the object *)

Lemma run_configured events s : configured s -> configured (run events s).
Proof.
  revert s. induction events as [|ev events IH]; intros s Hc; [exact Hc|].
  simpl. apply IH. destruct ev as [st|o batch]; simpl.
  - now apply statement_configured.
  - now apply deliver_configured.
Qed.

(** X16.  Construction puts the object in a configured state, with the
    default configuration and no observer, and every call of [media] or
    [execute] and every notification keeps it configured, however the
    call or the handler ends and whatever the caller's functions do:
    [#options] is never null again, no observer was created without
    options, and [#observer] refers to an observer that exists. *)
Theorem configured_is_kept :
  (forall dom : gmap Elem Element.t,
      configured (state_after constructor (fresh dom))
      /\ completion constructor (fresh dom) = Normal tt
      /\ this_options (state_after constructor (fresh dom))
         = Some (Init.mk VNull (NumberToString 0 +:+ "px") (VNumber 0))
      /\ this_observer (state_after constructor (fresh dom)) = None)
  /\ (forall (a : MediaArgs.t) (s : State),
      configured s -> configured (state_after (media a) s))
  /\ (forall (a : ExecuteArgs.t) (s : State),
      configured s -> configured (state_after (execute a) s))
  /\ (forall (o : ObserverRef) (batch : list Entry.t) (s : State),
      configured s -> configured (state_after (deliver o batch) s))
  /\ (forall (events : list Event) (s : State),
      configured s -> configured (run events s)).
Proof.
  split; [|split; [|split; [|split]]].
  - intros dom. split; [|repeat split].
    split; [simpl; eauto|]. split; [constructor | discriminate].
  - intros a s. apply media_configured.
  - intros a s. apply execute_configured.
  - intros o batch s. apply deliver_configured.
  - intros events s. apply run_configured.
Qed.

End Coverage.

(** ** The further properties on the small platform *)

(** The selector img finds the two images of the page; a selector with a
    bracket does not parse. *)
Lemma validCSSSelector_answers_witness :
  completion (@validCSSSelector Demo.platform "img") (Demo.created Demo.page)
  = Normal true
  /\ completion (@validCSSSelector Demo.platform "video") (Demo.created Demo.page)
     = Normal false
  /\ completion (@validCSSSelector Demo.platform "img[") (Demo.created Demo.page)
     = Abrupt SyntaxError.
Proof.
  split; [|split].
  - apply (@validCSSSelector_answers Demo.platform "img" (Demo.created Demo.page));
      [reflexivity | vm_compute; discriminate].
  - apply (@validCSSSelector_answers Demo.platform "video" (Demo.created Demo.page));
      reflexivity.
  - apply (@validCSSSelector_answers Demo.platform "img[" (Demo.created Demo.page)).
    reflexivity.
Defined.

(** One locator for two images: both are registered, the first carries
    the locator. *)
Lemma media_registers_resolved_witness :
  targets_of (state_after (Demo.run_media (Demo.locating "img" [VString "a.jpg"]))
                          (Demo.created Demo.page)) 0
  = [0; 1].
Proof.
  apply (@media_registers_resolved Demo.platform
           (Demo.locating "img" [VString "a.jpg"]) (Demo.created Demo.page) ["a.jpg"]).
  - repeat split; try (left; reflexivity); try reflexivity.
    right. exists "img". split; [reflexivity | vm_compute; discriminate].
  - reflexivity.
  - vm_compute. lia.
Defined.

(** A string given as the locators is ignored. *)
Lemma media_ignores_non_array_locators_witness :
  document
    (state_after
       (Demo.run_media
          (MediaArgs.mk VUndefined (VString "img") VUndefined (VString "a.jpg") VUndefined))
       (Demo.created Demo.page))
  = document (Demo.created Demo.page).
Proof.
  apply (@media_ignores_non_array_locators Demo.platform
           (MediaArgs.mk VUndefined (VString "img") VUndefined (VString "a.jpg") VUndefined)
           (Demo.created Demo.page)).
  - repeat split; try (left; reflexivity); try reflexivity.
    right. exists "img". split; [reflexivity | vm_compute; discriminate].
  - intros urls. discriminate.
Defined.

(** The number 5 as the second locator of two images: the call fails and
    the first image keeps a.jpg. *)
Lemma media_nonstring_locator_is_partial_witness :
  completion (Demo.run_media (Demo.locating "img" [VString "a.jpg"; VNumber 5]))
             (Demo.created Demo.page)
  = Abrupt ImagePathError
  /\ dataset_lazyUrl
       (element
          (state_after (Demo.run_media (Demo.locating "img" [VString "a.jpg"; VNumber 5]))
                       (Demo.created Demo.page)) 0)
     = Some "a.jpg".
Proof.
  destruct (@media_nonstring_locator_is_partial Demo.platform
              (Demo.locating "img" [VString "a.jpg"; VNumber 5])
              (Demo.created Demo.page) ["a.jpg"] (VNumber 5) [])
    as (Hc & _ & _ & _ & Hd).
  - repeat split; try (left; reflexivity); try reflexivity.
    right. exists "img". split; [reflexivity | vm_compute; discriminate].
  - reflexivity.
  - reflexivity.
  - vm_compute. lia.
  - split; [exact Hc|]. apply (Hd 0 0 "a.jpg"); reflexivity.
Defined.

(** A string as the wrapper, and a number as the attribute name. *)
Lemma media_rejects_wrapper_and_attr_witness :
  Demo.run_media
    (MediaArgs.mk (VString "body") (VString "img") VUndefined VUndefined VUndefined)
    (Demo.created Demo.page)
  = (Demo.created Demo.page, Abrupt WrapperError)
  /\ Demo.run_media
       (MediaArgs.mk VUndefined (VString "img") (VNumber 5) VUndefined VUndefined)
       (Demo.created Demo.page)
     = (Demo.created Demo.page, Abrupt AttrError).
Proof.
  split.
  - apply (@media_rejects_wrapper_and_attr Demo.platform
             (MediaArgs.mk (VString "body") (VString "img") VUndefined VUndefined VUndefined)
             (Demo.created Demo.page)); [discriminate | reflexivity].
  - apply (@media_rejects_wrapper_and_attr Demo.platform
             (MediaArgs.mk VUndefined (VString "img") (VNumber 5) VUndefined VUndefined)
             (Demo.created Demo.page)).
    + left. reflexivity.
    + right. exists "img". repeat split. vm_compute. discriminate.
    + discriminate.
    + reflexivity.
Defined.

(** A selector with a bracket ends the call in a SyntaxError. *)
Lemma media_unparsable_selector_witness :
  Demo.run_media (Demo.selecting "img[") (Demo.created Demo.page)
  = (Demo.created Demo.page, Abrupt SyntaxError).
Proof.
  apply (@media_unparsable_selector Demo.platform (Demo.selecting "img[")
           (Demo.created Demo.page) "img[");
    [left; reflexivity | reflexivity | reflexivity].
Defined.

(** A negative margin: the call fails and the state is what it was. *)
Lemma media_checks_are_atomic_witness :
  state_after
    (Demo.run_media (Demo.selecting_with "img" (Demo.margin_only (-1))))
    (Demo.created Demo.page)
  = Demo.created Demo.page.
Proof.
  apply (@media_checks_are_atomic Demo.platform
           (Demo.selecting_with "img" (Demo.margin_only (-1)))
           (Demo.created Demo.page) LoadBeforeError).
  - reflexivity.
  - left. reflexivity.
Defined.

(** A threshold of one half is stored whatever was stored before. *)
Lemma config_replaces_witness :
  this_options
    (state_after (Demo.run_config (Options.mk VUndefined VUndefined (VNumber (1 # 2))))
       (state_after (Demo.run_config (Options.mk VNull (VNumber 100) (VNumber 1)))
                    (fresh Demo.page)))
  = Some (Init.mk VNull "0px" (VNumber (1 # 2))).
Proof.
  unfold Demo.run_config.
  rewrite (proj1 (proj2 (@config_replaces Demo.platform
                           (Options.mk VUndefined VUndefined (VNumber (1 # 2)))
                           (state_after
                              (@config Demo.platform
                                 (Options.mk VNull (VNumber 100) (VNumber 1)))
                              (fresh Demo.page))
                           (fresh Demo.page)))).
  - reflexivity.
  - reflexivity.
Defined.

(** A batch that reports no intersection changes nothing. *)
Lemma handlers_skip_non_intersecting_witness :
  @renderMedia Demo.platform VNull [Entry.mk false 0; Entry.mk false 1] 0
    (state_after (Demo.run_media (Demo.locating "img" [VString "a.jpg"]))
                 (Demo.created Demo.page))
  = (state_after (Demo.run_media (Demo.locating "img" [VString "a.jpg"]))
                 (Demo.created Demo.page), Normal tt).
Proof.
  apply (@handlers_skip_non_intersecting Demo.platform Demo.program
           VNull 0 0 [Entry.mk false 0; Entry.mk false 1]).
  repeat constructor.
Defined.

(** Two intersecting records, of the target and of another element: the
    function that does nothing is invoked for both.  The function that
    edits the division and throws is invoked once: the handler raises and
    the target stays registered. *)
Lemma handleFunctionExecution_counts_witness :
  calls
    (state_after
       (@handleFunctionExecution Demo.platform Demo.program 7
          [Entry.mk true 2; Entry.mk true 1] 0)
       (state_after (Demo.run_execute (Demo.calling 2 7)) (Demo.created Demo.page)))
  = [7; 7]
  /\ @handleFunctionExecution Demo.platform Demo.program 10
       [Entry.mk true 2; Entry.mk true 2] 0
       (state_after (Demo.run_execute (Demo.calling 2 10)) (Demo.created Demo.page))
     = (state_after (@call Demo.platform Demo.program 10)
          (state_after (Demo.run_execute (Demo.calling 2 10)) (Demo.created Demo.page)),
        Abrupt CallerError)
  /\ targets_of
       (state_after (@call Demo.platform Demo.program 10)
          (state_after (Demo.run_execute (Demo.calling 2 10)) (Demo.created Demo.page)))
       0
     = [2].
Proof.
  destruct (@handleFunctionExecution_counts Demo.platform Demo.program 7 0
              (state_after (Demo.run_execute (Demo.calling 2 7)) (Demo.created Demo.page)))
    as (_ & H); [vm_compute; lia|].
  destruct (H [Entry.mk true 2; Entry.mk true 1] eq_refl) as (Hc & _).
  destruct (@handleFunctionExecution_counts Demo.platform Demo.program 10 0
              (state_after (Demo.run_execute (Demo.calling 2 10)) (Demo.created Demo.page)))
    as (Hraise & _); [vm_compute; lia|].
  destruct (Hraise [] (Entry.mk true 2) [Entry.mk true 2]
              (state_after (Demo.run_execute (Demo.calling 2 10)) (Demo.created Demo.page))
              (state_after (@call Demo.platform Demo.program 10)
                 (state_after (Demo.run_execute (Demo.calling 2 10))
                              (Demo.created Demo.page)))
              CallerError eq_refl eq_refl)
    as (_ & _ & Ht & _ & Hrun).
  split; [exact Hc|]. split; [exact Hrun|]. exact Ht.
Defined.

(** A callback that calls [media] on the images: while the notification
    is handled a second observer is created and becomes the current one;
    the first is there as it was, but for the target it has dropped. *)
Lemma deliver_only_unregisters_witness :
  observers_kept
    (state_after (Demo.run_execute (Demo.calling 2 9)) (Demo.created Demo.page))
    (state_after (Demo.run_deliver 0 [Entry.mk true 2])
       (state_after (Demo.run_execute (Demo.calling 2 9)) (Demo.created Demo.page)))
  /\ this_observer
       (state_after (Demo.run_deliver 0 [Entry.mk true 2])
          (state_after (Demo.run_execute (Demo.calling 2 9)) (Demo.created Demo.page)))
     = Some 1
  /\ targets_of
       (state_after (Demo.run_deliver 0 [Entry.mk true 2])
          (state_after (Demo.run_execute (Demo.calling 2 9)) (Demo.created Demo.page)))
       1
     = [0; 1].
Proof.
  split; [|split; vm_compute; reflexivity].
  apply (@deliver_only_unregisters Demo.platform Demo.program 0 [Entry.mk true 2]
           (state_after (Demo.run_execute (Demo.calling 2 9)) (Demo.created Demo.page))).
Defined.

(** After two [media] calls on the same images, the second observer
    raises for the image the first has rendered. *)
Lemma second_observer_finds_no_locator_witness :
  fails_with MissingResourceLocator
    (completion (Demo.run_deliver 1 [Entry.mk true 0])
       (state_after (Demo.run_deliver 0 [Entry.mk true 0])
          (state_after (Demo.run_media (Demo.selecting "img"))
             (state_after (Demo.run_media (Demo.locating "img" [VString "a.jpg"]))
                          (Demo.created Demo.page))))).
Proof.
  destruct (@second_observer_finds_no_locator Demo.platform Demo.program
              (state_after (Demo.run_media (Demo.selecting "img"))
                 (state_after (Demo.run_media (Demo.locating "img" [VString "a.jpg"]))
                              (Demo.created Demo.page)))
              0 1 VNull VNull
              (Some (Init.mk VNull "0px" (VNumber 0)))
              (Some (Init.mk VNull "0px" (VNumber 0)))
              [0; 1] [0; 1] 0 "a.jpg")
    as (H & _).
  - discriminate.
  - reflexivity.
  - reflexivity.
  - now left.
  - now left.
  - reflexivity.
  - destruct (H _ eq_refl) as (_ & _ & _ & Hd).
    exists LazyUrlError. split; [exact (f_equal snd Hd) | reflexivity].
Defined.

(** The state after construction, a [media] call and a notification is
    configured. *)
Lemma configured_is_kept_witness :
  configured
    (state_after (Demo.run_deliver 0 [Entry.mk true 0])
       (state_after (Demo.run_media (Demo.locating "img" [VString "a.jpg"]))
                    (Demo.created Demo.page))).
Proof.
  destruct (@configured_is_kept Demo.platform Demo.program)
    as (Hnew & Hmedia & _ & Hdeliver & _).
  apply Hdeliver, Hmedia, Hnew.
Defined.

(** A margin of 50 given to [execute]: the new observer has 50px. *)
Lemma execute_installs_observer_witness :
  observers
    (state_after
       (Demo.run_execute
          (ExecuteArgs.mk (VElement 2) (VFunction 7) (Demo.margin_only 50)))
       (Demo.created Demo.page)) !! 0
  = Some (Observer.mk (HandleFunctionExecution 7)
                      (Some (Init.mk VNull "50px" (VNumber 0))) [2]).
Proof.
  destruct (@execute_installs_observer Demo.platform
              (ExecuteArgs.mk (VElement 2) (VFunction 7) (Demo.margin_only 50))
              (Demo.created Demo.page) 2 7 eq_refl eq_refl eq_refl)
    as (H & _).
  destruct (H eq_refl) as (Ho & _). exact Ho.
Defined.

(** The first image is reported in, out and in again: it is rendered
    once and the last record raises. *)
Lemma renderMedia_repeated_record_witness :
  @renderMedia Demo.platform VNull
    [Entry.mk true 0; Entry.mk false 0; Entry.mk true 0] 0
    (state_after (Demo.run_media (Demo.locating "img" [VString "a.jpg"]))
                 (Demo.created Demo.page))
  = (rendered 0 0 (with_attribute "src" "a.jpg" (Demo.tag "img"))
       (state_after (Demo.run_media (Demo.locating "img" [VString "a.jpg"]))
                    (Demo.created Demo.page)),
     Abrupt LazyUrlError).
Proof.
  apply (@renderMedia_repeated_record Demo.platform VNull 0 0
           (state_after (Demo.run_media (Demo.locating "img" [VString "a.jpg"]))
                        (Demo.created Demo.page))
           "a.jpg" (with_attribute "src" "a.jpg" (Demo.tag "img"))
           [Entry.mk false 0] []).
  - reflexivity.
  - vm_compute. reflexivity.
  - repeat constructor.
Defined.

(** A margin that is NaN is accepted by the validation and refused by
    the observer constructor: the call fails, NaNpx stays stored, and a
    call with the default options then fails in the same way. *)
Lemma refused_configuration_persists_witness :
  this_options
    (state_after (Demo.run_media (Demo.selecting_with "img" (Demo.margin_only NaN)))
                 (Demo.created Demo.page))
  = Some (Init.mk VNull "NaNpx" (VNumber 0))
  /\ completion (Demo.run_media (Demo.selecting "img"))
       (state_after (Demo.run_media (Demo.selecting_with "img" (Demo.margin_only NaN)))
                    (Demo.created Demo.page))
     = Abrupt SyntaxError.
Proof.
  assert (Hchecked : forall o s, document s = Demo.page ->
            @media_checked Demo.platform (Demo.selecting_with "img" o) s).
  { intros o s Hd. split; [left; reflexivity|]. split; [|left; reflexivity].
    right. exists "img". split; [reflexivity|]. split; [reflexivity|].
    rewrite Hd. vm_compute. discriminate. }
  destruct (@refused_configuration_persists Demo.platform
              (Demo.selecting_with "img" (Demo.margin_only NaN))
              (Demo.created Demo.page) SyntaxError)
    as (Hrun & _ & _ & _ & Hnext & _).
  - apply Hchecked. reflexivity.
  - reflexivity.
  - reflexivity.
  - split.
    + exact (f_equal (fun r => this_options (fst r)) Hrun).
    + refine (f_equal snd (Hnext (Demo.selecting "img") _ _)).
      * left. reflexivity.
      * apply (Hchecked VUndefined). reflexivity.
Defined.

(** The division as wrapper and the selector img: the check passes, the
    images being in the document, and nothing is registered, no image
    being under the division. *)
Lemma media_queries_the_wrapper_witness :
  completion
    (Demo.run_media
       (MediaArgs.mk (VElement 2) (VString "img") VUndefined VUndefined VUndefined))
    (Demo.created Demo.page)
  = Normal tt
  /\ targets_of
       (state_after
          (Demo.run_media
             (MediaArgs.mk (VElement 2) (VString "img") VUndefined VUndefined VUndefined))
          (Demo.created Demo.page))
       0
     = [].
Proof.
  destruct (@media_queries_the_wrapper Demo.platform
              (MediaArgs.mk (VElement 2) (VString "img") VUndefined VUndefined VUndefined)
              (Demo.created Demo.page) "img" eq_refl eq_refl)
    as (Hc & _ & Hw & _).
  - split; [right; reflexivity|].
    split; [right; exists "img"; split; [reflexivity | vm_compute; discriminate]|].
    split; [left; reflexivity|]. repeat split.
  - split; [exact Hc|]. exact (Hw 2 eq_refl).
Defined.
